(** * nibabel array writers: scaling decisions, slopes and intercepts

    A shallow embedding of [nibabel/arraywriters.py]: the three writer
    classes [ArrayWriter], [SlopeArrayWriter], [SlopeInterArrayWriter], the
    factory [make_array_writer] and the accessor [get_slope_inter].

    Conventions of the embedding.
    - numpy floating point scalars are [spec_float] values of the Standard
      Library's IEEE 754 specification, always kept canonical for the format
      they are stored in; [longdouble] is the 80-bit x87 extended format
      (64-bit significand).
    - numpy integer scalars and Python integers are [Z]; where numpy wraps
      around ([abs] of the most negative value) the wrap is written out.
    - comparisons between numbers are comparisons of their exact values
      (numpy's promotion of mixed operands before a comparison is left out);
      the one comparison of a Python integer with a scalar of the scaler
      type fails as numpy makes it fail, see [int_le_scalar].
    - a writer object is a record of its attributes and a method is a
      function in a state-and-exception monad over that record; [self.m()]
      runs the method of the object's class.
    - [nibabel.casting] and [nibabel.volumeutils] are not among the sources:
      [shared_range], [as_int], [int_to_float], [finite_range] and the sink
      [array_to_file] are modelled from the specification, [shared_range]
      without the platform switch that truncates uint64.

    The file has the embedding first, then the properties: the scaling
    decision, the exceptions and invariants of the methods, the factory, the
    write bounds, the worked examples, the methods as equations, and the
    floating point lemmas behind the nonzero slope of integer arrays. *)

From Stdlib Require Import ZArith List Bool String Ascii Lia.
From Stdlib Require Import Floats.SpecFloat.
Import ListNotations.
Local Open Scope Z_scope.

(** ** Exceptions and results *)

Inductive exn : Type :=
| WriterError (msg : string)
| ScalingError (msg : string)       (* class ScalingError(WriterError) *)
| ValueError (msg : string)
| TypeError (msg : string)
| FloatingError (msg : string)
| AssertionError.

(** [isinstance(e, WriterError)]: [ScalingError] is a subclass. *)
Definition is_WriterError (e : exn) : bool :=
  match e with
  | WriterError _ | ScalingError _ => true
  | _ => false
  end.

Definition is_ScalingError (e : exn) : bool :=
  match e with
  | ScalingError _ => true
  | _ => false
  end.

Inductive result (A : Type) : Type :=
| Ok (a : A)
| Raise (e : exn).
Arguments Ok {A} a.
Arguments Raise {A} e.

(** ** Element types (numpy dtypes) *)

Inductive iwidth : Type := W8 | W16 | W32 | W64.
Inductive fwidth : Type := F16 | F32 | F64 | FLD.
Inductive cwidth : Type := C64 | C128 | CLD.

Inductive dtype : Type :=
| UInt (w : iwidth)
| Int (w : iwidth)
| Float (f : fwidth)
| Complex (c : cwidth)
| Void (itemsize : nat).

Definition bits (w : iwidth) : Z :=
  match w with W8 => 8 | W16 => 16 | W32 => 32 | W64 => 64 end.

(** Significand width (hidden bit included) and exponent of the infinities. *)
Definition prec (f : fwidth) : Z :=
  match f with F16 => 11 | F32 => 24 | F64 => 53 | FLD => 64 end.

Definition emax (f : fwidth) : Z :=
  match f with F16 => 16 | F32 => 128 | F64 => 1024 | FLD => 16384 end.

Definition component (c : cwidth) : fwidth :=
  match c with C64 => F32 | C128 => F64 | CLD => FLD end.

(** [dtype.kind] *)
Definition kind (d : dtype) : ascii :=
  match d with
  | UInt _ => "u"
  | Int _ => "i"
  | Float _ => "f"
  | Complex _ => "c"
  | Void _ => "V"
  end%char.

(** [c in s] for a one-character string [c]. *)
Fixpoint in_str (c : ascii) (s : string) : bool :=
  match s with
  | EmptyString => false
  | String a r => Ascii.eqb c a || in_str c r
  end.

(** [np.iinfo(dt).min], [np.iinfo(dt).max]; only called on integer dtypes
    (numpy raises [ValueError] on the others). *)
Definition iinfo (d : dtype) : result (Z * Z) :=
  match d with
  | UInt w => Ok (0, 2 ^ bits w - 1)
  | Int w => Ok (- 2 ^ (bits w - 1), 2 ^ (bits w - 1) - 1)
  | _ => Raise (ValueError "Invalid integer data type")
  end.

Definition iwidth_rank (w : iwidth) : Z :=
  match w with W8 => 0 | W16 => 1 | W32 => 2 | W64 => 3 end.

Definition fwidth_rank (f : fwidth) : Z :=
  match f with F16 => 0 | F32 => 1 | F64 => 2 | FLD => 3 end.

(** Smallest float that numpy regards as a safe target for a [w]-bit
    integer: 8 bits go to float16, 16 to float32, 32 and 64 to float64. *)
Definition int_float_rank (w : iwidth) : Z :=
  match w with W8 => 0 | W16 => 1 | W32 => 2 | W64 => 2 end.

(** [dtype.itemsize], in bytes; a longdouble occupies 16 bytes. *)
Definition itemsize (d : dtype) : nat :=
  match d with
  | UInt w | Int w =>
      match w with W8 => 1 | W16 => 2 | W32 => 4 | W64 => 8 end
  | Float f =>
      match f with F16 => 2 | F32 => 4 | F64 => 8 | FLD => 16 end
  | Complex c =>
      match c with C64 => 8 | C128 => 16 | CLD => 32 end
  | Void n => n
  end%nat.

(** [np.can_cast(from, to)] with the default ['safe'] rule, on the dtypes of
    this model: a type casts safely to a raw void that is at least as large
    as its items, or that has no size (numpy's unsized ['V'], which takes the
    size of what is cast to it), and nothing casts safely from a void but a
    void to such a void. *)
Definition can_cast (from to : dtype) : bool :=
  match from, to with
  | UInt a, UInt b => iwidth_rank a <=? iwidth_rank b
  | UInt a, Int b => iwidth_rank a <? iwidth_rank b
  | Int a, Int b => iwidth_rank a <=? iwidth_rank b
  | Int _, UInt _ => false
  | (UInt a | Int a), Float f => int_float_rank a <=? fwidth_rank f
  | (UInt a | Int a), Complex c =>
      Z.max 1 (int_float_rank a) <=? fwidth_rank (component c)
  | Float a, Float b => fwidth_rank a <=? fwidth_rank b
  | Float a, Complex c => Z.max 1 (fwidth_rank a) <=? fwidth_rank (component c)
  | Float _, (UInt _ | Int _) => false
  | Complex a, Complex b =>
      fwidth_rank (component a) <=? fwidth_rank (component b)
  | Complex _, (UInt _ | Int _ | Float _) => false
  | Void _, (UInt _ | Int _ | Float _ | Complex _) => false
  | _, Void b => (b =? 0)%nat || (itemsize from <=? b)%nat
  end.

(** ** Floating point scalars *)

Definition is_finite (x : spec_float) : bool :=
  match x with
  | S754_zero _ | S754_finite _ _ _ => true
  | _ => false
  end.

Definition is_zero (x : spec_float) : bool :=
  match x with
  | S754_zero _ => true
  | _ => false
  end.

(** Conversion of a float to format [f], rounding to nearest even. *)
Definition cast (f : fwidth) (x : spec_float) : spec_float :=
  match x with
  | S754_finite s m e =>
      binary_normalize (prec f) (emax f) (cond_Zopp s (Zpos m)) e s
  | _ => x
  end.

(** Conversion of an integer to format [f], rounding to nearest even. *)
Definition of_int (f : fwidth) (z : Z) : spec_float :=
  binary_normalize (prec f) (emax f) z 0 false.

(** Numbers that flow through the writers: integers (numpy integer scalars of
    the array's dtype, Python integers) and floats. *)
Inductive num : Type :=
| NInt (z : Z)
| NFlt (x : spec_float).

(** Promotion to longdouble, as numpy does for mixed arithmetic with a
    longdouble operand. *)
Definition to_ld (n : num) : spec_float :=
  match n with
  | NInt z => of_int FLD z
  | NFlt x => cast FLD x
  end.

Definition ld_div (a b : spec_float) : spec_float := SFdiv (prec FLD) (emax FLD) a b.
Definition ld_mul (a b : spec_float) : spec_float := SFmul (prec FLD) (emax FLD) a b.
Definition ld_sub (a b : spec_float) : spec_float := SFsub (prec FLD) (emax FLD) a b.

(** The exact value of a number: [m * 2 ^ e], an infinity or a NaN. *)
Inductive xvalue : Type :=
| XNaN
| XInf (s : bool)
| XFin (m e : Z).

Definition num_value (n : num) : xvalue :=
  match n with
  | NInt z => XFin z 0
  | NFlt (S754_zero _) => XFin 0 0
  | NFlt (S754_finite s m e) => XFin (cond_Zopp s (Zpos m)) e
  | NFlt (S754_infinity s) => XInf s
  | NFlt S754_nan => XNaN
  end.

(** Exact comparison of two numbers ([None] when a NaN is involved). *)
Definition num_compare (a b : num) : option comparison :=
  match num_value a, num_value b with
  | XNaN, _ | _, XNaN => None
  | XInf s1, XInf s2 =>
      Some (match s1, s2 with
            | true, false => Lt
            | false, true => Gt
            | _, _ => Eq
            end)
  | XInf s, _ => Some (if s then Lt else Gt)
  | _, XInf s => Some (if s then Gt else Lt)
  | XFin m1 e1, XFin m2 e2 =>
      let e := Z.min e1 e2 in
      Some (Z.compare (m1 * 2 ^ (e1 - e)) (m2 * 2 ^ (e2 - e)))
  end.

Definition num_eqb (a b : num) : bool :=
  match num_compare a b with Some Eq => true | _ => false end.
Definition num_ltb (a b : num) : bool :=
  match num_compare a b with Some Lt => true | _ => false end.
Definition num_leb (a b : num) : bool :=
  match num_compare a b with Some (Lt | Eq) => true | _ => false end.
Definition num_gtb (a b : num) : bool := num_ltb b a.
Definition num_geb (a b : num) : bool := num_leb b a.

(** [np.inf] and [-np.inf] *)
Definition np_inf : num := NFlt (S754_infinity false).
Definition np_ninf : num := NFlt (S754_infinity true).

(** [np.max([a, b])] on longdoubles: NaN propagates. *)
Definition np_max2 (a b : spec_float) : spec_float :=
  match num_compare (NFlt a) (NFlt b) with
  | Some Lt => b
  | Some _ => a
  | None => S754_nan
  end.

(** [abs(x)] of a scalar of dtype [d]: the most negative value of a signed
    integer type wraps around to itself. *)
Definition np_abs (d : dtype) (x : num) : num :=
  match x with
  | NInt z =>
      match d with
      | Int w => if z =? - 2 ^ (bits w - 1) then NInt z else NInt (Z.abs z)
      | _ => NInt (Z.abs z)
      end
  | NFlt f => NFlt (SFabs f)
  end.

(** ** Arrays *)

Inductive ndarray : Type :=
| UIntArray (w : iwidth) (xs : list Z)
| IntArray (w : iwidth) (xs : list Z)
| FloatArray (f : fwidth) (xs : list spec_float)
| ComplexArray (c : cwidth) (xs : list (spec_float * spec_float))
| VoidArray (itemsize : nat) (xs : list (list Z)).

(** [arr.dtype] *)
Definition dtype_of (a : ndarray) : dtype :=
  match a with
  | UIntArray w _ => UInt w
  | IntArray w _ => Int w
  | FloatArray f _ => Float f
  | ComplexArray c _ => Complex c
  | VoidArray n _ => Void n
  end.

(** Elements lie in the range of the dtype and are canonical floats. *)
Definition wf_array (a : ndarray) : Prop :=
  match a with
  | UIntArray w xs => Forall (fun z => 0 <= z < 2 ^ bits w) xs
  | IntArray w xs => Forall (fun z => - 2 ^ (bits w - 1) <= z < 2 ^ (bits w - 1)) xs
  | FloatArray f xs => Forall (fun x => valid_binary (prec f) (emax f) x = true) xs
  | ComplexArray c xs =>
      Forall (fun x => valid_binary (prec (component c)) (emax (component c)) (fst x) = true
                       /\ valid_binary (prec (component c)) (emax (component c)) (snd x) = true) xs
  | VoidArray n xs => Forall (fun b => List.length b = n) xs
  end.

Definition fmin (a b : spec_float) : spec_float :=
  if num_ltb (NFlt b) (NFlt a) then b else a.
Definition fmax (a b : spec_float) : spec_float :=
  if num_ltb (NFlt a) (NFlt b) then b else a.

(** Modelled from the spec: [volumeutils.finite_range] is not among the
    sources.  It returns the minimum and maximum among the finite elements,
    the sentinel [(+inf, -inf)] when a float array has no finite element, and
    is undefined on an empty integer array (numpy's [min] raises there). *)
Definition finite_range_of (a : ndarray) : result (num * num) :=
  match a with
  | UIntArray _ xs | IntArray _ xs =>
      match xs with
      | [] => Raise (ValueError "zero-size array to reduction operation")
      | x :: r => Ok (NInt (fold_left Z.min r x), NInt (fold_left Z.max r x))
      end
  | FloatArray _ xs =>
      match filter is_finite xs with
      | [] => Ok (np_inf, np_ninf)
      | x :: r => Ok (NFlt (fold_left fmin r x), NFlt (fold_left fmax r x))
      end
  | _ => Raise (TypeError "Can only handle floats and (u)ints")
  end.

(** ** Helpers of [nibabel.casting] *)

(** Largest integer not above [n >= 0] that has at most [prec f] significant
    bits. *)
Definition floor_exact (f : fwidth) (n : Z) : Z :=
  let d := Z.log2 n + 1 in
  if d <=? prec f then n
  else Z.shiftl (Z.shiftr n (d - prec f)) (d - prec f).

(** [np.finfo(f).max], an integer for every format. *)
Definition finfo_max (f : fwidth) : Z :=
  (2 ^ prec f - 1) * 2 ^ (emax f - prec f).

(** Modelled from the spec: [casting.shared_range] is not among the sources.
    It returns the span of the scaler type intersected with the range table
    of the target integer type: the smallest scaler value not below the
    integer minimum and the largest scaler value not above the integer
    maximum, the scaler's own extremes standing in where the integer ones
    overflow it.  Both are integer valued; the model keeps the integers. *)
Definition shared_range (f : fwidth) (d : dtype) : result (Z * Z) :=
  match iinfo d with
  | Raise e => Raise e
  | Ok (imin, imax) =>
      let lo := floor_exact f (- imin) in
      let hi := floor_exact f imax in
      Ok (- (if finfo_max f <? lo then finfo_max f else lo),
          if finfo_max f <? hi then finfo_max f else hi)
  end.

(** Modelled from the spec: [casting.as_int] is not among the sources.  It
    gives the exact integer value of a number, and fails on a float that is
    not an integer. *)
Definition as_int (n : num) : result Z :=
  match n with
  | NInt z => Ok z
  | NFlt (S754_zero _) => Ok 0
  | NFlt (S754_finite s m e) =>
      if 0 <=? e then Ok (cond_Zopp s (Zpos m * 2 ^ e))
      else if Zpos m mod 2 ^ (- e) =? 0 then Ok (cond_Zopp s (Zpos m / 2 ^ (- e)))
      else Raise (FloatingError "Not all values in input array are integers")
  | NFlt _ => Raise (FloatingError "Not all values in input array are integers")
  end.

(** Modelled from the spec: [casting.int_to_float] is not among the sources.
    It converts an integer of any size to the extended precision type. *)
Definition int_to_float (z : Z) (f : fwidth) : spec_float := of_int f z.

(** ** Writer objects *)

Inductive klass : Type :=
| ArrayWriter
| SlopeArrayWriter
| SlopeInterArrayWriter.

(** The attributes of a writer.  A class that lacks an attribute never reads
    it; [has_slope_attr] and [has_inter_attr] say which classes carry
    which. *)
Record writer : Type := mkWriter {
  cls : klass;
  _array : ndarray;
  _out_dtype : dtype;
  _finite_range : option (num * num);
  needs_scale : bool;
  scaler_dtype : fwidth;
  _slope : spec_float;
  _scale_calced : bool;
  _inter : spec_float
}.

Definition has_slope_attr (k : klass) : bool :=
  match k with ArrayWriter => false | _ => true end.
Definition has_inter_attr (k : klass) : bool :=
  match k with SlopeInterArrayWriter => true | _ => false end.

(** Methods run in a state-and-exception monad over [self]. *)
Definition M (A : Type) : Type := writer -> result (A * writer).

Definition ret {A} (a : A) : M A := fun self => Ok (a, self).
Definition bind {A B} (m : M A) (k : A -> M B) : M B :=
  fun self =>
    match m self with
    | Ok (a, self') => k a self'
    | Raise e => Raise e
    end.
Definition raise {A} (e : exn) : M A := fun _ => Raise e.
Definition get_self : M writer := fun self => Ok (self, self).
Definition lift {A} (r : result A) : M A :=
  fun self => match r with Ok a => Ok (a, self) | Raise e => Raise e end.
Definition py_assert (b : bool) : M unit :=
  if b then ret tt else raise AssertionError.

Declare Scope py_scope.
Delimit Scope py_scope with py.
Notation "x <- m ;; k" := (bind m (fun x => k))
  (at level 61, m at next level, right associativity) : py_scope.
Notation "' p <- m ;; k" := (bind m (fun x => match x with p => k end))
  (at level 61, p pattern, m at next level, right associativity) : py_scope.
Notation "m ;; k" := (bind m (fun _ => k))
  (at level 61, right associativity) : py_scope.
Local Open Scope py_scope.

(** Attribute assignment: the object with one attribute replaced. *)
Definition cached (self : writer) (r : num * num) : writer :=
  mkWriter (cls self) (_array self) (_out_dtype self) (Some r)
           (needs_scale self) (scaler_dtype self) (_slope self)
           (_scale_calced self) (_inter self).

Definition with_scale_calced (self : writer) (b : bool) : writer :=
  mkWriter (cls self) (_array self) (_out_dtype self) (_finite_range self)
           (needs_scale self) (scaler_dtype self) (_slope self) b (_inter self).

Definition with_needs_scale (self : writer) (b : bool) : writer :=
  mkWriter (cls self) (_array self) (_out_dtype self) (_finite_range self)
           b (scaler_dtype self) (_slope self) (_scale_calced self) (_inter self).

Definition with_scaler_dtype (self : writer) (f : fwidth) : writer :=
  mkWriter (cls self) (_array self) (_out_dtype self) (_finite_range self)
           (needs_scale self) f (_slope self) (_scale_calced self) (_inter self).

Definition with_slope (self : writer) (x : spec_float) : writer :=
  mkWriter (cls self) (_array self) (_out_dtype self) (_finite_range self)
           (needs_scale self) (scaler_dtype self) x (_scale_calced self)
           (_inter self).

Definition with_inter (self : writer) (x : spec_float) : writer :=
  mkWriter (cls self) (_array self) (_out_dtype self) (_finite_range self)
           (needs_scale self) (scaler_dtype self) (_slope self)
           (_scale_calced self) x.

Definition set_finite_range (r : num * num) : M unit :=
  fun self => Ok (tt, cached self r).
Definition set_scale_calced (b : bool) : M unit :=
  fun self => Ok (tt, with_scale_calced self b).
Definition set_needs_scale (b : bool) : M unit :=
  fun self => Ok (tt, with_needs_scale self b).
Definition set_scaler_dtype (f : fwidth) : M unit :=
  fun self => Ok (tt, with_scaler_dtype self f).

(** [scaler_dtype.type(val)] then [np.squeeze]: the value in scaler
    precision. *)
Definition to_scaler (f : fwidth) (val : num) : spec_float :=
  match val with
  | NInt z => of_int f z
  | NFlt x => cast f x
  end.

(** [SlopeArrayWriter._set_slope] *)
Definition set_slope (val : num) : M unit :=
  fun self => Ok (tt, with_slope self (to_scaler (scaler_dtype self) val)).

(** [SlopeInterArrayWriter._set_inter] *)
Definition set_inter (val : num) : M unit :=
  fun self => Ok (tt, with_inter self (to_scaler (scaler_dtype self) val)).

(** Python float literals *)
Definition py_float (z : Z) : num := NFlt (of_int F64 z).

(** [ArrayWriter.finite_range]: the range of the array, computed on first use
    and cached. *)
Definition finite_range : M (num * num) :=
  self <- get_self ;;
  match _finite_range self with
  | Some r => ret r
  | None =>
      r <- lift (finite_range_of (_array self)) ;;
      set_finite_range r ;;
      ret r
  end.

Definition pair_eqb (p q : num * num) : bool :=
  num_eqb (fst p) (fst q) && num_eqb (snd p) (snd q).

(** [ArrayWriter.scaling_needed] *)
Definition scaling_needed : M bool :=
  self <- get_self ;;
  let data := _array self in
  let arr_dtype := dtype_of data in
  let out_dtype := _out_dtype self in
  if can_cast arr_dtype out_dtype then ret false
  else if Ascii.eqb "V" (kind arr_dtype) || Ascii.eqb "V" (kind out_dtype) then
    raise (WriterError "Cannot cast to or from non-numeric types")
  else if Ascii.eqb (kind out_dtype) "c" then ret false
  else if Ascii.eqb (kind arr_dtype) "c" then
    raise (WriterError "Cannot cast complex types to non-complex")
  else if Ascii.eqb (kind out_dtype) "f" then ret false
  else
    ' (mn, mx) <- finite_range ;;
    if pair_eqb (mn, mx) (NInt 0, NInt 0) || pair_eqb (mn, mx) (np_inf, np_ninf)
    then ret false
    else if Ascii.eqb (kind arr_dtype) "f" then ret true
    else
      py_assert (in_str (kind arr_dtype) "iu" && in_str (kind out_dtype) "iu") ;;
      ' (info_min, info_max) <- lift (iinfo out_dtype) ;;
      if num_geb mn (NInt info_min) && num_leb mx (NInt info_max)
      then ret false
      else ret true.

(** [ArrayWriter._writing_range] *)
Definition _writing_range : M (option num * option num) :=
  self <- get_self ;;
  if in_str (kind (_out_dtype self)) "iu"
     && Ascii.eqb (kind (dtype_of (_array self))) "f"
  then
    ' (mn, mx) <- finite_range ;;
    if pair_eqb (mn, mx) (np_inf, np_ninf)
    then ret (Some (NInt 0), Some (NInt 0))
    else ret (Some mn, Some mx)
  else ret (None, None).

(** [SlopeArrayWriter._range_scale] *)
Definition SlopeArrayWriter_range_scale : M unit :=
  self <- get_self ;;
  ' (mn, mx) <- finite_range ;;
  ' (smin, smax) <- lift (shared_range (scaler_dtype self) (_out_dtype self)) ;;
  (* np.array([shared_min, shared_max], dtype=np.longdouble) *)
  let shared_min := of_int FLD smin in
  let shared_max := of_int FLD smax in
  if Ascii.eqb (kind (_out_dtype self)) "u" then
    if num_ltb mn (NInt 0) && num_gtb mx (NInt 0) then
      raise (WriterError
        "Cannot scale negative and positive numbers to uint without intercept")
    else if num_leb mx (NInt 0) then
      set_slope (NFlt (ld_div (to_ld mn) shared_max))
    else
      set_slope (NFlt (ld_div (to_ld mx) shared_max))
  else
    let mx_slope := ld_div (to_ld mx) shared_max in
    let mn_slope := ld_div (to_ld mn) shared_min in
    set_slope (NFlt (np_max2 mx_slope mn_slope)).

(** [SlopeInterArrayWriter._range_scale] *)
Definition SlopeInterArrayWriter_range_scale : M unit :=
  self <- get_self ;;
  ' (mn, mx) <- finite_range ;;
  if num_eqb mx mn then set_inter mn
  else
    ' (smin, smax) <- lift (shared_range (scaler_dtype self) (_out_dtype self)) ;;
    let scaled_mn2mx := ld_sub (of_int FLD smax) (of_int FLD smin) in
    mn2mx <-
      match mn with
      | NFlt _ => ret (ld_sub (to_ld mx) (to_ld mn))
      | NInt _ =>
          a <- lift (as_int mx) ;;
          b <- lift (as_int mn) ;;
          ret (int_to_float (a - b) FLD)
      end ;;
    let slope := ld_div mn2mx scaled_mn2mx in
    set_inter (NFlt (ld_sub (to_ld mn) (ld_mul (of_int FLD smin) slope))) ;;
    set_slope (NFlt slope) ;;
    self' <- get_self ;;
    if negb (is_finite (_slope self') && is_finite (_inter self')) then
      raise (ScalingError "Slope / inter not both finite")
    else ret tt.

(** [self._range_scale()]: the method of the object's class. *)
Definition _range_scale : M unit :=
  self <- get_self ;;
  match cls self with
  | SlopeInterArrayWriter => SlopeInterArrayWriter_range_scale
  | _ => SlopeArrayWriter_range_scale
  end.

(** [z <= x] for a Python integer [z] and a scalar [x] of the scaler type
    [f], as in [mn2mx <= shared_max] (line 417).  The values are compared as
    everywhere in this file, except that a longdouble scalar takes the
    integer through a C long: an integer outside [-2^63, 2^63) is not
    converted, the scalar answers [NotImplemented], and Python raises
    [TypeError]. *)
Definition int_le_scalar (f : fwidth) (z x : Z) : result bool :=
  match f with
  | FLD =>
      if (- 2 ^ 63 <=? z) && (z <? 2 ^ 63) then Ok (z <=? x)
      else Raise (TypeError
        "'<=' not supported between instances of 'int' and 'numpy.longdouble'")
  | _ => Ok (z <=? x)
  end.

(** [SlopeArrayWriter._do_scaling] *)
Definition SlopeArrayWriter_do_scaling : M unit :=
  self <- get_self ;;
  let arr_dtype := dtype_of (_array self) in
  let out_dtype := _out_dtype self in
  py_assert (in_str (kind out_dtype) "iu") ;;
  ' (mn, mx) <- finite_range ;;
  if Ascii.eqb (kind arr_dtype) "f" then _range_scale
  else
    ' (out_min, out_max) <- lift (iinfo out_dtype) ;;
    if num_leb mx (NInt out_max) && num_geb mn (NInt out_min) then ret tt
    else if Ascii.eqb (kind out_dtype) "u" then
      ' (shared_min, shared_max) <- lift (shared_range (scaler_dtype self) out_dtype) ;;
      if num_leb mx (NInt 0) && num_leb (np_abs arr_dtype mn) (NInt shared_max)
      then set_slope (py_float (-1))
      else _range_scale
    else _range_scale.

(** [SlopeInterArrayWriter._do_scaling] *)
Definition SlopeInterArrayWriter_do_scaling : M unit :=
  self <- get_self ;;
  let arr_dtype := dtype_of (_array self) in
  let out_dtype := _out_dtype self in
  py_assert (in_str (kind out_dtype) "iu") ;;
  ' (mn, mx) <- finite_range ;;
  if num_eqb mn np_inf then ret tt
  else if pair_eqb (mn, mx) (py_float 0, py_float 0) then ret tt
  else if Ascii.eqb (kind arr_dtype) "f" then _range_scale
  else
    ' (out_min, out_max) <- lift (iinfo out_dtype) ;;
    if num_leb mx (NInt out_max) && num_geb mn (NInt out_min) then ret tt
    else if Ascii.eqb (kind out_dtype) "u" then
      ' (shared_min, shared_max) <- lift (shared_range (scaler_dtype self) out_dtype) ;;
      a <- lift (as_int mx) ;;
      b <- lift (as_int mn) ;;
      let mn2mx := a - b in
      offset_enough <- lift (int_le_scalar (scaler_dtype self) mn2mx shared_max) ;;
      if offset_enough : bool then set_inter mn
      else if num_leb mx (NInt 0) && num_leb (np_abs arr_dtype mn) (NInt shared_max)
      then set_slope (py_float (-1))
      else _range_scale
    else _range_scale.

(** [self._do_scaling()]: the method of the object's class. *)
Definition _do_scaling : M unit :=
  self <- get_self ;;
  match cls self with
  | SlopeInterArrayWriter => SlopeInterArrayWriter_do_scaling
  | _ => SlopeArrayWriter_do_scaling
  end.

(** [SlopeArrayWriter.calc_scale] *)
Definition calc_scale (force : bool) : M unit :=
  self <- get_self ;;
  if negb force && _scale_calced self then ret tt
  else
    set_scale_calced true ;;
    needed <- scaling_needed ;;
    if negb needed then ret tt
    else _do_scaling.

(** [out_dtype = arr_dtype if out_dtype is None else np.dtype(out_dtype)] *)
Definition resolve_out_dtype (array : ndarray) (out_dtype : option dtype) : dtype :=
  match out_dtype with
  | None => dtype_of array
  | Some d => d
  end.

(** Run a method on an object and keep the object. *)
Definition exec {A} (m : M A) (self : writer) : result writer :=
  match m self with
  | Ok (_, self') => Ok self'
  | Raise e => Raise e
  end.

(** The object as [__init__] finds it once [_array] and [_out_dtype] are
    assigned; the attributes not yet assigned hold placeholders that are
    written before they are read. *)
Definition new_writer (k : klass) (array : ndarray) (out_dtype : option dtype)
    (scaler : fwidth) : writer :=
  mkWriter k array (resolve_out_dtype array out_dtype) None
           false scaler (S754_zero false) false (S754_zero false).

(** [ArrayWriter.__init__] *)
Definition ArrayWriter_init (array : ndarray) (out_dtype : option dtype)
    : result writer :=
  exec (needed <- scaling_needed ;;
        if needed : bool then raise (WriterError "Scaling needed but cannot scale")
        else ret tt)
       (new_writer ArrayWriter array out_dtype F32).

(** [SlopeArrayWriter.__init__], run on an object of class [k] (the class
    itself or a subclass that calls it through [super]). *)
Definition SlopeArrayWriter_init_as (k : klass) (array : ndarray)
    (out_dtype : option dtype) (calc : bool) (scaler : fwidth) : result writer :=
  exec (needed <- scaling_needed ;;
        set_needs_scale needed ;;
        set_scaler_dtype scaler ;;
        set_slope (py_float 1) ;;
        set_scale_calced false ;;
        if calc then calc_scale false else ret tt)
       (new_writer k array out_dtype scaler).

Definition SlopeArrayWriter_init := SlopeArrayWriter_init_as SlopeArrayWriter.

(** [SlopeInterArrayWriter.__init__] *)
Definition SlopeInterArrayWriter_init (array : ndarray)
    (out_dtype : option dtype) (calc : bool) (scaler : fwidth) : result writer :=
  match SlopeArrayWriter_init_as SlopeInterArrayWriter array out_dtype false scaler with
  | Raise e => Raise e
  | Ok self =>
      exec (set_inter (py_float 0) ;;
            if calc then calc_scale false else ret tt) self
  end.

(** The public attributes [slope] and [inter]. *)
Definition slope (self : writer) : spec_float := _slope self.
Definition inter (self : writer) : spec_float := _inter self.

(** [get_slope_inter]: a missing attribute reads as 1.0 or 0.0. *)
Definition get_slope_inter (self : writer) : num * num :=
  (if has_slope_attr (cls self) then NFlt (slope self) else py_float 1,
   if has_inter_attr (cls self) then NFlt (inter self) else py_float 0).

(** ** Writing *)

(** The arguments of one call of [volumeutils.array_to_file]; an argument the
    caller leaves out is [None]. *)
Record array_to_file_call : Type := mkCall {
  atf_data : ndarray;
  atf_out_dtype : dtype;
  atf_intercept : option spec_float;
  atf_divslope : option spec_float;
  atf_mn : option num;
  atf_mx : option num;
  atf_order : ascii;
  atf_nan2zero : bool
}.

(** [ArrayWriter.to_fileobj] *)
Definition ArrayWriter_to_fileobj (order : ascii) (nan2zero : bool)
    : M array_to_file_call :=
  ' (mn, mx) <- _writing_range ;;
  self <- get_self ;;
  ret (mkCall (_array self) (_out_dtype self) None None mn mx order nan2zero).

(** [SlopeArrayWriter.to_fileobj] *)
Definition SlopeArrayWriter_to_fileobj (order : ascii) (nan2zero : bool)
    : M array_to_file_call :=
  ' (mn, mx) <- _writing_range ;;
  self <- get_self ;;
  ret (mkCall (_array self) (_out_dtype self) None (Some (slope self))
              mn mx order nan2zero).

(** [SlopeInterArrayWriter.to_fileobj] *)
Definition SlopeInterArrayWriter_to_fileobj (order : ascii) (nan2zero : bool)
    : M array_to_file_call :=
  ' (mn, mx) <- _writing_range ;;
  self <- get_self ;;
  ret (mkCall (_array self) (_out_dtype self) (Some (inter self))
              (Some (slope self)) mn mx order nan2zero).

(** [self.to_fileobj(fileobj, order, nan2zero)]: the method of the object's
    class. *)
Definition to_fileobj (order : ascii) (nan2zero : bool) : M array_to_file_call :=
  self <- get_self ;;
  match cls self with
  | ArrayWriter => ArrayWriter_to_fileobj order nan2zero
  | SlopeArrayWriter => SlopeArrayWriter_to_fileobj order nan2zero
  | SlopeInterArrayWriter => SlopeInterArrayWriter_to_fileobj order nan2zero
  end.

(** Modelled from the spec: the sink [volumeutils.array_to_file] is not among
    the sources.  With [nan_to_zero] set and an integer target, an element
    that is not finite or lies outside the bounds is replaced by zero before
    the cast; this is that replacement on one element of a float array. *)
Definition sink_substitute (nan2zero : bool) (mn mx : num) (x : spec_float)
    : spec_float :=
  if nan2zero then
    if is_finite x && num_leb mn (NFlt x) && num_leb (NFlt x) mx then x
    else S754_zero false
  else x.

(** ** The factory *)

(** Python values that a caller may pass for a flag. *)
Inductive pyval : Type :=
| PyNone
| PyBool (b : bool)
| PyInt (z : Z)
| PyStr (s : string).

(** [v == True], [v == False]: booleans are the integers 1 and 0. *)
Definition py_eq_bool (v : pyval) (b : bool) : bool :=
  match v with
  | PyBool c => Bool.eqb c b
  | PyInt z => z =? (if b then 1 else 0)
  | _ => false
  end.

(** Truth value of a Python value. *)
Definition truthy (v : pyval) : bool :=
  match v with
  | PyNone => false
  | PyBool b => b
  | PyInt z => negb (z =? 0)
  | PyStr s => negb (String.eqb s "")
  end.

(** The keyword arguments the slope writers accept, with their defaults. *)
Record kwargs : Type := mkKwargs {
  kw_calc_scale : option bool;
  kw_scaler_dtype : option fwidth
}.

Definition kw_calc (kw : kwargs) : bool :=
  match kw_calc_scale kw with Some b => b | None => true end.
Definition kw_scaler (kw : kwargs) : fwidth :=
  match kw_scaler_dtype kw with Some f => f | None => F32 end.

(** [make_array_writer] *)
Definition make_array_writer (data : ndarray) (out_type : option dtype)
    (has_intercept has_slope : pyval) (kw : kwargs) : result writer :=
  if py_eq_bool has_intercept true && py_eq_bool has_slope false then
    Raise (ValueError "Cannot handle intercept without slope")
  else if truthy has_intercept then
    SlopeInterArrayWriter_init data out_type (kw_calc kw) (kw_scaler kw)
  else if truthy has_slope then
    SlopeArrayWriter_init data out_type (kw_calc kw) (kw_scaler kw)
  else ArrayWriter_init data out_type.

(** ** Predicates used in the statements *)

(** The cached range, when there is one, is the range of the array. *)
Definition cache_ok (self : writer) : Prop :=
  match _finite_range self with
  | None => True
  | Some r => finite_range_of (_array self) = Ok r
  end.


(** The errors by the names the specification gives them. *)
Definition incompatible_kinds : exn :=
  WriterError "Cannot cast to or from non-numeric types".
Definition unsigned_span_error : exn :=
  WriterError "Cannot scale negative and positive numbers to uint without intercept".
Definition capability_mismatch : exn :=
  ValueError "Cannot handle intercept without slope".
Definition not_both_finite : exn :=
  ScalingError "Slope / inter not both finite".
Definition comparison_error : exn :=
  TypeError "'<=' not supported between instances of 'int' and 'numpy.longdouble'".

(** The writer built with [calc_scale=False], on which [calc_scale] is then
    called. *)
Definition calc_scale_later (init : bool -> result writer) (force : bool)
    : result writer :=
  match init false with
  | Ok w => exec (calc_scale force) w
  | Raise e => Raise e
  end.

(** float64 2^1000 *)
Definition two_to_1000 : spec_float := S754_finite false 4503599627370496 948.

(** The relation between an object before and after a method: class, array
    and types stay, and a sound cache stays sound. *)
Definition same_object (self self' : writer) : Prop :=
  cls self' = cls self /\ _array self' = _array self
  /\ _out_dtype self' = _out_dtype self
  /\ scaler_dtype self' = scaler_dtype self
  /\ (cache_ok self -> cache_ok self').

Definition preserves {A} (m : M A) : Prop :=
  forall self a self', m self = Ok (a, self') -> same_object self self'.

(** A method raises only exceptions that satisfy [P]. *)
Definition raises_only (P : exn -> Prop) {A} (m : M A) : Prop :=
  forall self e, m self = Raise e -> P e.

(** The object a slope constructor has built when the decision went by the
    range [r] and came out as [needed]: before any scale is computed
    ([inited]) and as [calc_scale] hands it to [_do_scaling] ([ready]). *)
Definition inited (k : klass) (array : ndarray) (out_dtype : option dtype)
    (scaler : fwidth) (r : num * num) (needed : bool) : writer :=
  mkWriter k array (resolve_out_dtype array out_dtype) (Some r) needed scaler
           (of_int scaler 1) false (S754_zero false).

Definition ready (k : klass) (array : ndarray) (out_dtype : option dtype)
    (scaler : fwidth) (r : num * num) (needed : bool) : writer :=
  with_scale_calced (inited k array out_dtype scaler r needed) true.

(** The answer of [scaling_needed] when the range decides. *)
Definition needed_by_range (array : ndarray) (out : dtype) (r : num * num)
    (tmin tmax : Z) : bool :=
  if pair_eqb r (NInt 0, NInt 0) || pair_eqb r (np_inf, np_ninf) then false
  else if Ascii.eqb (kind (dtype_of array)) "f" then true
  else negb (num_geb (fst r) (NInt tmin) && num_leb (snd r) (NInt tmax)).

(** The slope and the intercept of the slope-and-intercept range computation
    in extended precision, from the data span [mn2mx], and the object that
    holds them in scaler precision. *)
Definition range_slope (smin smax : Z) (mn2mx : spec_float) : spec_float :=
  ld_div mn2mx (ld_sub (of_int FLD smax) (of_int FLD smin)).

Definition range_inter (mn : num) (smin smax : Z) (mn2mx : spec_float)
    : spec_float :=
  ld_sub (to_ld mn) (ld_mul (of_int FLD smin) (range_slope smin smax mn2mx)).

Definition range_scaled (s : writer) (mn : num) (smin smax : Z)
    (mn2mx : spec_float) : writer :=
  with_slope (with_inter s (cast (scaler_dtype s) (range_inter mn smin smax mn2mx)))
             (cast (scaler_dtype s) (range_slope smin smax mn2mx)).

(** Magnitudes of floats: [big s k x] says that [x] has sign [s], is not zero
    and is at least [2 ^ (k - 1)] in absolute value (an infinity is); [small
    s k x] says that [x] has sign [s], is finite, not zero and below
    [2 ^ k]. *)
Definition big (s : bool) (k : Z) (x : spec_float) : Prop :=
  match x with
  | S754_infinity s' => s' = s
  | S754_finite s' m e => s' = s /\ k <= Zpos (digits2_pos m) + e
  | _ => False
  end.

Definition small (s : bool) (k : Z) (x : spec_float) : Prop :=
  match x with
  | S754_finite s' m e => s' = s /\ Zpos (digits2_pos m) + e <= k
  | _ => False
  end.

Definition smallb (s : bool) (k : Z) (x : spec_float) : bool :=
  match x with
  | S754_finite s' m e => Bool.eqb s' s && (Zpos (digits2_pos m) + e <=? k)
  | _ => false
  end.

(** A bound on the number of bits of the divisors of the range
    computations, by scaler: the shared range of a float16 scaler lies within
    the largest float16. *)
Definition divisor_bits (sc : fwidth) : Z :=
  match sc with F16 => 17 | _ => 66 end.

(** The outcome of the pure offset: the intercept is [mn] as the setter
    stores it, which is [mn] itself when the scaler type represents it, and
    the slope is still 1. *)
Definition offset_only (sc : fwidth) (mn : Z) (wr : writer) : Prop :=
  inter wr = to_scaler sc (NInt mn)
  /\ (Z.abs mn < 2 ^ prec sc -> num_eqb (NFlt (inter wr)) (NInt mn) = true)
  /\ slope wr = of_int sc 1
  /\ num_eqb (NFlt (slope wr)) (NInt 1) = true.

(** The arrays of the docstrings. *)
Definition arr_0_254 : ndarray := UIntArray W8 [0; 254].
Definition arr_0_255 : ndarray := UIntArray W8 [0; 255].

(** ** Further names used in the statements *)

Definition cannot_scale : exn := WriterError "Scaling needed but cannot scale".
Definition complex_to_real : exn :=
  WriterError "Cannot cast complex types to non-complex".

(** The slope writer that a constructor returns when the decision is taken
    on the types alone: slope 1, intercept 0, nothing cached, and
    [_scale_calced] as [calc_scale] was or was not run. *)
Definition plain (k : klass) (array : ndarray) (out_dtype : option dtype)
    (scaler : fwidth) (calced : bool) : writer :=
  mkWriter k array (resolve_out_dtype array out_dtype) None false scaler
           (of_int scaler 1) calced (S754_zero false).

(** The class [make_array_writer] picks for a pair of flags. *)
Definition class_for (has_intercept has_slope : pyval) : klass :=
  if truthy has_intercept then SlopeInterArrayWriter
  else if truthy has_slope then SlopeArrayWriter
  else ArrayWriter.

(** The smallest value of a signed integer type, on which numpy's [abs]
    wraps around. *)
Definition most_negative (d : dtype) (z : Z) : Prop :=
  match d with
  | Int w => z = - 2 ^ (bits w - 1)
  | _ => False
  end.

(** The elements of an integer array. *)
Definition int_elements (a : ndarray) : list Z :=
  match a with
  | UIntArray _ xs | IntArray _ xs => xs
  | _ => []
  end.

(** No element of a float array is finite and different from zero. *)
Definition no_nonzero_finite (xs : list spec_float) : bool :=
  forallb (fun x => negb (is_finite x) || is_zero x) xs.

(** Every element of an integer array lies in [lo, hi]. *)
Definition all_within (lo hi : Z) (a : ndarray) : bool :=
  forallb (fun z => (lo <=? z) && (z <=? hi)) (int_elements a).

(** Strictly positive and strictly negative finite floats. *)
Definition positive (x : spec_float) : bool :=
  match x with S754_finite false _ _ => true | _ => false end.
Definition negative (x : spec_float) : bool :=
  match x with S754_finite true _ _ => true | _ => false end.

(** A method leaves an attribute, or any function [fld] of the attributes,
    as it found it. *)
Definition keeps {X A : Type} (fld : writer -> X) (m : M A) : Prop :=
  forall self a self', m self = Ok (a, self') -> fld self' = fld self.

(** The stored scaling: slope and intercept. *)
Definition scaling (self : writer) : spec_float * spec_float :=
  (_slope self, _inter self).

(** * nibabel/onetime.py: properties computed on first access

    A shallow embedding of [OneTimeProperty], [auto_attr] and
    [ResetMixin.reset].  An object is its instance [__dict__]; its class is
    the list of the class [__dict__]s in method resolution order, the
    object's own class first.  Python values and the exceptions of the
    accessor functions are parameters.  [getattr] is the attribute lookup of
    the language for such classes: the instance [__dict__] comes before a
    descriptor that has no [__set__], which is what lets a property turn into
    a plain attribute. *)

Section OneTime.
Variable value : Type.
Variable error : Type.

(** A [__dict__] of an instance: names and values in insertion order. *)
Definition instdict : Type := list (string * value).

(** [d.get(k)] *)
Fixpoint dict_get (d : instdict) (k : string) : option value :=
  match d with
  | [] => None
  | (k', v) :: r => if String.eqb k k' then Some v else dict_get r k
  end.

(** [k in d] *)
Definition dict_in (k : string) (d : instdict) : bool :=
  match dict_get d k with Some _ => true | None => false end.

(** [d[k] = v] *)
Fixpoint dict_set (d : instdict) (k : string) (v : value) : instdict :=
  match d with
  | [] => [(k, v)]
  | (k', v') :: r =>
      if String.eqb k k' then (k', v) :: r else (k', v') :: dict_set r k v
  end.

(** [del d[k]] *)
Definition dict_del (d : instdict) (k : string) : instdict :=
  filter (fun kv => negb (String.eqb k (fst kv))) d.

(** How a call on an object ends, with the object's attributes as the call
    leaves them. *)
Inductive outcome : Type :=
| Returned (val : value) (obj : instdict)
| Raised (e : error) (obj : instdict)
| AttributeError (attr : string) (obj : instdict).

(** A Python function of [self]: its [__name__] and what calling it does. *)
Record pyfunction : Type := mkFunction {
  __name__ : string;
  call : instdict -> outcome
}.

Record OneTimeProperty : Type := mkOneTimeProperty {
  getter : pyfunction;
  name : string
}.

(** [OneTimeProperty.__init__] *)
Definition OneTimeProperty_init (func : pyfunction) : OneTimeProperty :=
  mkOneTimeProperty func (__name__ func).

(** [OneTimeProperty.__get__(self, obj)] on an instance [obj]. *)
Definition OneTimeProperty_get (self : OneTimeProperty) (obj : instdict)
    : outcome :=
  match call (getter self) obj with
  | Returned val obj' => Returned val (dict_set obj' (name self) val)
  | failed => failed
  end.

(** [OneTimeProperty.__get__(self, None)]: access on the class. *)
Definition OneTimeProperty_get_on_class (self : OneTimeProperty) : pyfunction :=
  getter self.

(** [auto_attr] *)
Definition auto_attr (func : pyfunction) : OneTimeProperty :=
  OneTimeProperty_init func.

(** What a class [__dict__] holds under a name. *)
Inductive member : Type :=
| Descriptor (p : OneTimeProperty)
| Attribute (v : value).

(** [isinstance(mval, OneTimeProperty)] *)
Definition is_OneTimeProperty (mval : member) : bool :=
  match mval with Descriptor _ => true | Attribute _ => false end.

Definition classdict : Type := list (string * member).

Fixpoint class_get (c : classdict) (k : string) : option member :=
  match c with
  | [] => None
  | (k', m) :: r => if String.eqb k k' then Some m else class_get r k
  end.

(** A class with its bases, in method resolution order. *)
Definition mro : Type := list classdict.

Fixpoint mro_get (cls : mro) (k : string) : option member :=
  match cls with
  | [] => None
  | c :: bases =>
      match class_get c k with
      | Some m => Some m
      | None => mro_get bases k
      end
  end.

(** [obj.k] *)
Definition getattr (cls : mro) (obj : instdict) (k : string) : outcome :=
  match dict_get obj k with
  | Some v => Returned v obj
  | None =>
      match mro_get cls k with
      | Some (Descriptor p) => OneTimeProperty_get p obj
      | Some (Attribute v) => Returned v obj
      | None => AttributeError k obj
      end
  end.

(** [ResetMixin.reset]: [self.__class__.__dict__] is the [__dict__] of the
    object's own class. *)
Definition reset (cls : mro) (obj : instdict) : instdict :=
  match cls with
  | [] => obj
  | classdict :: _ =>
      fold_left
        (fun instdict m =>
           if dict_in (fst m) instdict && is_OneTimeProperty (snd m)
           then dict_del instdict (fst m)
           else instdict)
        classdict obj
  end.

(** The class [__dict__] declares a one time property under the name [k]. *)
Definition declares (c : classdict) (k : string) : bool :=
  existsb (fun m => String.eqb k (fst m) && is_OneTimeProperty (snd m)) c.
End OneTime.

Arguments Returned {value error} val obj.
Arguments Raised {value error} e obj.
Arguments AttributeError {value error} attr obj.
Arguments mkFunction {value error} __name__ call.
Arguments __name__ {value error} p.
Arguments call {value error} p obj.
Arguments mkOneTimeProperty {value error} getter name.
Arguments getter {value error} o.
Arguments name {value error} o.
Arguments OneTimeProperty_init {value error} func.
Arguments OneTimeProperty_get {value error} self obj.
Arguments OneTimeProperty_get_on_class {value error} self.
Arguments auto_attr {value error} func.
Arguments Descriptor {value error} p.
Arguments Attribute {value error} v.
Arguments is_OneTimeProperty {value error} mval.
Arguments class_get {value error} c k.
Arguments mro_get {value error} cls k.
Arguments getattr {value error} cls obj k.
Arguments reset {value error} cls obj.
Arguments declares {value error} c k.
Arguments dict_get {value} d k.
Arguments dict_in {value} k d.
Arguments dict_set {value} d k v.
Arguments dict_del {value} d k.

(** The class [A] of the docstring of [ResetMixin], on integers: [y] is
    half of [x]. *)
Definition A_y : pyfunction Z Empty_set :=
  mkFunction "y"%string
    (fun self =>
       match dict_get self "x"%string with
       | Some x => Returned (x / 2) self
       | None => AttributeError "x"%string self
       end).

Definition class_A : mro Z Empty_set := [[("y"%string, Descriptor (auto_attr A_y))]].

(** ** ArrayWriter, and the examples of the docstrings *)

Example ArrayWriter_doc_same_type :
  exists w, ArrayWriter_init arr_0_255 None = Ok w.
Proof. eexists. vm_compute. reflexivity. Qed.

Example ArrayWriter_doc_cannot_scale :
  ArrayWriter_init arr_0_255 (Some (Int W8))
  = Raise (WriterError "Scaling needed but cannot scale").
Proof. vm_compute. reflexivity. Qed.

Example SlopeArrayWriter_doc_254 :
  exists w, SlopeArrayWriter_init arr_0_254 (Some (Int W8)) true F32 = Ok w
            /\ slope w = of_int F32 2.
Proof. eexists. split; vm_compute; reflexivity. Qed.

Example shared_range_doc :
  shared_range F32 (Int W32) = Ok (-2147483648, 2147483520).
Proof. vm_compute. reflexivity. Qed.

(** ** Comparisons *)

Lemma num_compare_int a b : num_compare (NInt a) (NInt b) = Some (a ?= b).
Proof.
  unfold num_compare. cbn. rewrite !Z.mul_1_r. reflexivity.
Qed.

Lemma num_eqb_int a b : num_eqb (NInt a) (NInt b) = (a =? b).
Proof.
  unfold num_eqb. rewrite num_compare_int, Z.eqb_compare. reflexivity.
Qed.

Lemma num_ltb_int a b : num_ltb (NInt a) (NInt b) = (a <? b).
Proof.
  unfold num_ltb, Z.ltb. rewrite num_compare_int. reflexivity.
Qed.

Lemma num_leb_int a b : num_leb (NInt a) (NInt b) = (a <=? b).
Proof.
  unfold num_leb, Z.leb. rewrite num_compare_int. destruct (a ?= b); reflexivity.
Qed.

Lemma num_geb_int a b : num_geb (NInt a) (NInt b) = (b <=? a).
Proof. apply num_leb_int. Qed.

Lemma num_gtb_int a b : num_gtb (NInt a) (NInt b) = (b <? a).
Proof. apply num_ltb_int. Qed.

Lemma num_eqb_int_inf a : num_eqb (NInt a) np_inf = false.
Proof. reflexivity. Qed.

Lemma pair_eqb_int_zero mn mx :
  pair_eqb (NInt mn, NInt mx) (NInt 0, NInt 0) = (mn =? 0) && (mx =? 0).
Proof. unfold pair_eqb. cbn [fst snd]. rewrite !num_eqb_int. reflexivity. Qed.

Lemma pair_eqb_int_sentinel mn mx :
  pair_eqb (NInt mn, NInt mx) (np_inf, np_ninf) = false.
Proof. reflexivity. Qed.

(** ** The cached range *)

Lemma finite_range_cached self r :
  _finite_range self = Some r -> finite_range self = Ok (r, self).
Proof.
  intros H. unfold finite_range, bind, get_self. rewrite H. reflexivity.
Qed.

(** The object after its range has been cached. *)
Lemma finite_range_value self r :
  cache_ok self -> finite_range_of (_array self) = Ok r ->
  finite_range self = Ok (r, cached self r).
Proof.
  intros Hc Hr. unfold cache_ok in Hc.
  destruct self as [k a d fr ns sc sl calced it]. cbn in *.
  destruct fr as [r'|].
  - rewrite Hr in Hc. injection Hc as <-. reflexivity.
  - unfold finite_range, bind, get_self, lift, set_finite_range, ret.
    cbn. rewrite Hr. reflexivity.
Qed.

(** ** The scaling decision *)

(** C3: between integer kinds that numpy will not cast, and with a range
    that is not (0, 0), [scaling_needed] answers false exactly when the range
    lies within the minimum and maximum of the target type, and true
    otherwise. *)
Theorem C3_scaling_needed_int_to_int self mn mx tmin tmax :
  cache_ok self ->
  in_str (kind (dtype_of (_array self))) "iu" = true ->
  in_str (kind (_out_dtype self)) "iu" = true ->
  can_cast (dtype_of (_array self)) (_out_dtype self) = false ->
  finite_range_of (_array self) = Ok (NInt mn, NInt mx) ->
  (mn, mx) <> (0, 0) ->
  iinfo (_out_dtype self) = Ok (tmin, tmax) ->
  exists b self',
    scaling_needed self = Ok (b, self')
    /\ (b = false <-> tmin <= mn /\ mx <= tmax)
    /\ (b = true <-> ~ (tmin <= mn /\ mx <= tmax)).
Proof.
  intros Hc Ha Ho Hcast Hr Hne Hi.
  pose proof (finite_range_value _ _ Hc Hr) as Hf.
  assert (Hz : (mn =? 0) && (mx =? 0) = false).
  { apply andb_false_iff.
    destruct (Z.eqb_spec mn 0) as [->|]; [right|left; reflexivity].
    destruct (Z.eqb_spec mx 0) as [->|]; [|reflexivity].
    exfalso. apply Hne. reflexivity. }
  exists (negb ((tmin <=? mn) && (mx <=? tmax))). eexists.
  split; [|split].
  - unfold scaling_needed, bind, get_self. rewrite Hcast.
    assert (Hk : Ascii.eqb "V" (kind (dtype_of (_array self))) = false
                 /\ Ascii.eqb "V" (kind (_out_dtype self)) = false
                 /\ Ascii.eqb (kind (_out_dtype self)) "c" = false
                 /\ Ascii.eqb (kind (dtype_of (_array self))) "c" = false
                 /\ Ascii.eqb (kind (_out_dtype self)) "f" = false
                 /\ Ascii.eqb (kind (dtype_of (_array self))) "f" = false).
    { destruct (dtype_of (_array self)); cbn in Ha; try discriminate;
        destruct (_out_dtype self); cbn in Ho; try discriminate;
        repeat split. }
    destruct Hk as (-> & -> & -> & -> & -> & ->). cbn [orb].
    rewrite Hf, pair_eqb_int_zero, pair_eqb_int_sentinel, Hz. cbn [orb].
    rewrite Ha, Ho. cbn [andb py_assert ret]. unfold lift. rewrite Hi.
    rewrite num_geb_int, num_leb_int.
    destruct ((tmin <=? mn) && (mx <=? tmax)); reflexivity.
  - rewrite negb_false_iff, andb_true_iff, !Z.leb_le. reflexivity.
  - rewrite negb_true_iff, <- not_true_iff_false, andb_true_iff, !Z.leb_le.
    reflexivity.
Qed.

(** A run of C3: int16 values [-3, 200] do not fit uint8. *)
Lemma C3_witness :
  exists b self',
    scaling_needed (mkWriter ArrayWriter (IntArray W16 [-3; 200]) (UInt W8) None
                      false F32 (of_int F32 1) false (S754_zero false))
    = Ok (b, self')
    /\ (b = false <-> 0 <= -3 /\ 200 <= 255)
    /\ (b = true <-> ~ (0 <= -3 /\ 200 <= 255)).
Proof.
  apply (C3_scaling_needed_int_to_int
           (mkWriter ArrayWriter (IntArray W16 [-3; 200]) (UInt W8) None
              false F32 (of_int F32 1) false (S754_zero false)) (-3) 200 0 255).
  - exact I.
  - reflexivity.
  - reflexivity.
  - reflexivity.
  - reflexivity.
  - discriminate.
  - reflexivity.
Defined.


Lemma scaling_needed_can_cast self :
  can_cast (dtype_of (_array self)) (_out_dtype self) = true ->
  scaling_needed self = Ok (false, self).
Proof.
  intros H. unfold scaling_needed, bind, get_self. rewrite H. reflexivity.
Qed.

Lemma scaling_needed_opaque self :
  can_cast (dtype_of (_array self)) (_out_dtype self) = false ->
  kind (dtype_of (_array self)) = "V"%char \/ kind (_out_dtype self) = "V"%char ->
  scaling_needed self = Raise incompatible_kinds.
Proof.
  intros H Hk. unfold scaling_needed, bind, get_self. rewrite H.
  destruct Hk as [-> | ->]; cbn [Ascii.eqb Bool.eqb orb].
  - reflexivity.
  - rewrite orb_true_r. reflexivity.
Qed.

(** C7, as the claim states it, fails: a raw 4-byte void array written as the
    same void type is accepted, because the cast test comes first. *)
Lemma C7_counterexample :
  ~ (forall self,
        kind (dtype_of (_array self)) = "V"%char \/ kind (_out_dtype self) = "V"%char ->
        scaling_needed self = Raise incompatible_kinds)
  /\ exists w, ArrayWriter_init (VoidArray 4 [[1; 2; 3; 4]]) None = Ok w.
Proof.
  split.
  - intros H.
    specialize (H (mkWriter ArrayWriter (VoidArray 4 [[1; 2; 3; 4]]) (Void 4) None
                     false F32 (of_int F32 1) false (S754_zero false))).
    cbn in H. specialize (H (or_introl eq_refl)). discriminate H.
  - eexists. reflexivity.
Qed.

(** C7, amended: with an opaque kind on either side, [scaling_needed] and the
    three constructors fail with the incompatible-kinds error whenever numpy
    cannot cast the source type to the target type, whatever the array holds
    (a void source and a numeric target, or a sized raw void target smaller
    than the source's items); when numpy can cast (to a raw void at least as
    large as the source's items: the same opaque type on both sides, say),
    [scaling_needed] answers false. *)
Theorem C7_opaque_kinds a d :
  kind (dtype_of a) = "V"%char \/ kind d = "V"%char ->
  (can_cast (dtype_of a) d = false ->
     (forall self, _array self = a -> _out_dtype self = d ->
        scaling_needed self = Raise incompatible_kinds)
     /\ ArrayWriter_init a (Some d) = Raise incompatible_kinds
     /\ (forall calc sc, SlopeArrayWriter_init a (Some d) calc sc = Raise incompatible_kinds)
     /\ (forall calc sc, SlopeInterArrayWriter_init a (Some d) calc sc = Raise incompatible_kinds))
  /\ (can_cast (dtype_of a) d = true ->
        forall self, _array self = a -> _out_dtype self = d ->
          scaling_needed self = Ok (false, self)).
Proof.
  intros Hk. split.
  - intros Hc.
    assert (Hs : forall self, _array self = a -> _out_dtype self = d ->
                   scaling_needed self = Raise incompatible_kinds).
    { intros self <- <-. apply scaling_needed_opaque; assumption. }
    split; [exact Hs|].
    split; [|split].
    + unfold ArrayWriter_init, exec, bind. rewrite Hs; reflexivity.
    + intros calc sc. unfold SlopeArrayWriter_init, SlopeArrayWriter_init_as, exec, bind.
      rewrite Hs; reflexivity.
    + intros calc sc. unfold SlopeInterArrayWriter_init, SlopeArrayWriter_init_as, exec, bind.
      rewrite Hs; reflexivity.
  - intros Hc self <- <-. apply scaling_needed_can_cast. assumption.
Qed.

(** A run of C7: a void array cannot be written as int16. *)
Lemma C7_witness :
  ((forall self, _array self = VoidArray 4 [[1; 2; 3; 4]] -> _out_dtype self = Int W16 ->
      scaling_needed self = Raise incompatible_kinds)
   /\ ArrayWriter_init (VoidArray 4 [[1; 2; 3; 4]]) (Some (Int W16)) = Raise incompatible_kinds
   /\ (forall calc sc, SlopeArrayWriter_init (VoidArray 4 [[1; 2; 3; 4]]) (Some (Int W16)) calc sc
                       = Raise incompatible_kinds)
   /\ (forall calc sc, SlopeInterArrayWriter_init (VoidArray 4 [[1; 2; 3; 4]]) (Some (Int W16)) calc sc
                       = Raise incompatible_kinds)).
Proof.
  apply (C7_opaque_kinds (VoidArray 4 [[1; 2; 3; 4]]) (Int W16)).
  - left. reflexivity.
  - reflexivity.
Defined.


(** A numeric array and a void target: two-byte integers are refused a
    one-byte void, and cast safely to a two-byte one. *)
Example scaling_needed_numeric_to_void :
  ArrayWriter_init (IntArray W16 [1; 2]) (Some (Void 1)) = Raise incompatible_kinds
  /\ exists w, ArrayWriter_init (IntArray W16 [1; 2]) (Some (Void 2)) = Ok w.
Proof. split; [reflexivity|eexists; reflexivity]. Qed.
(** ** Which exceptions a method can raise *)

Section RaisesOnly.
Variable P : exn -> Prop.


Lemma raises_only_ret {A} (a : A) : raises_only P (ret a).
Proof. intros self e H. discriminate H. Qed.

Lemma raises_only_get_self : raises_only P get_self.
Proof. intros self e H. discriminate H. Qed.

Lemma raises_only_raise {A} e : P e -> raises_only P (@raise A e).
Proof. intros HP self e' H. injection H as <-. exact HP. Qed.

Lemma raises_only_bind {A B} (m : M A) (k : A -> M B) :
  raises_only P m -> (forall a, raises_only P (k a)) -> raises_only P (bind m k).
Proof.
  intros Hm Hk self e. unfold bind.
  destruct (m self) as [[a self']|e'] eqn:E.
  - apply Hk.
  - intros H. injection H as <-. apply (Hm _ _ E).
Qed.

Lemma raises_only_lift {A} (r : result A) :
  (forall e, r = Raise e -> P e) -> raises_only P (lift r).
Proof.
  intros Hr self e. unfold lift. destruct r as [a|e'].
  - discriminate.
  - intros H. injection H as <-. apply Hr. reflexivity.
Qed.

Lemma raises_only_setter {A} (f : writer -> A * writer) :
  raises_only P (fun self => Ok (f self)).
Proof. intros self e H. discriminate H. Qed.

Hypothesis P_assert : P AssertionError.
Hypothesis P_value : forall msg, ValueError msg <> capability_mismatch -> P (ValueError msg).
Hypothesis P_type : forall msg, P (TypeError msg).
Hypothesis P_floating : forall msg, P (FloatingError msg).
Hypothesis P_writer : forall msg, P (WriterError msg).
Hypothesis P_scaling : forall msg, P (ScalingError msg).

Lemma finite_range_of_raises a e : finite_range_of a = Raise e -> P e.
Proof.
  destruct a as [w xs|w xs|f xs|c xs|n xs]; cbn.
  1,2: destruct xs; [|discriminate]; intros H; injection H as <-;
       apply P_value; discriminate.
  - destruct (filter is_finite xs); discriminate.
  - intros H; injection H as <-. apply P_type.
  - intros H; injection H as <-. apply P_type.
Qed.

Lemma iinfo_raises d e : iinfo d = Raise e -> P e.
Proof.
  destruct d; cbn; try discriminate;
    intros H; injection H as <-; apply P_value; discriminate.
Qed.

Lemma shared_range_raises f d e : shared_range f d = Raise e -> P e.
Proof.
  unfold shared_range. destruct (iinfo d) as [[a b]|e'] eqn:E.
  - discriminate.
  - intros H; injection H as <-. apply (iinfo_raises _ _ E).
Qed.

Lemma as_int_raises n e : as_int n = Raise e -> P e.
Proof.
  destruct n as [z|[s|s| |s m x]]; cbn; try discriminate;
    try (intros H; injection H as <-; apply P_floating).
  destruct (0 <=? x); [discriminate|].
  destruct (_ =? 0); [discriminate|].
  intros H; injection H as <-; apply P_floating.
Qed.

Lemma int_le_scalar_raises f z x e : int_le_scalar f z x = Raise e -> P e.
Proof.
  destruct f; cbn [int_le_scalar]; try discriminate.
  destruct (_ && _); [discriminate|].
  intros H; injection H as <-; apply P_type.
Qed.

Ltac ro_step :=
  first
    [ apply raises_only_ret
    | apply raises_only_get_self
    | apply raises_only_setter
    | apply raises_only_raise
    | apply raises_only_lift
    | match goal with
      | |- raises_only _ (match ?x with _ => _ end) => destruct x
      | |- raises_only _ (if ?x then _ else _) => destruct x
      | |- raises_only _ (let (_, _) := ?x in _) => destruct x
      end
    | apply P_assert | apply P_type | apply P_floating | apply P_writer
    | apply P_scaling
    | apply finite_range_of_raises | apply iinfo_raises
    | apply shared_range_raises | apply as_int_raises
    | apply int_le_scalar_raises ].

Ltac ro_bind := apply raises_only_bind; [|intros ?].

Lemma finite_range_raises : raises_only P finite_range.
Proof.
  unfold finite_range, set_finite_range. repeat first [ro_step | ro_bind].
Qed.

Lemma scaling_needed_raises : raises_only P scaling_needed.
Proof.
  unfold scaling_needed, py_assert.
  repeat first [apply finite_range_raises | ro_step | ro_bind].
Qed.

Lemma SlopeArrayWriter_range_scale_raises : raises_only P SlopeArrayWriter_range_scale.
Proof.
  unfold SlopeArrayWriter_range_scale, set_slope.
  repeat first [apply finite_range_raises | ro_step | ro_bind].
Qed.

Lemma SlopeInterArrayWriter_range_scale_raises :
  raises_only P SlopeInterArrayWriter_range_scale.
Proof.
  unfold SlopeInterArrayWriter_range_scale, set_slope, set_inter.
  repeat first [apply finite_range_raises | ro_step | ro_bind].
Qed.

Lemma range_scale_raises : raises_only P _range_scale.
Proof.
  unfold _range_scale.
  repeat first [apply SlopeArrayWriter_range_scale_raises
               | apply SlopeInterArrayWriter_range_scale_raises | ro_step | ro_bind].
Qed.

Lemma do_scaling_raises : raises_only P _do_scaling.
Proof.
  unfold _do_scaling, SlopeArrayWriter_do_scaling, SlopeInterArrayWriter_do_scaling,
    py_assert, set_slope, set_inter.
  repeat first [apply finite_range_raises | apply range_scale_raises
               | ro_step | ro_bind].
Qed.

Lemma calc_scale_raises force : raises_only P (calc_scale force).
Proof.
  unfold calc_scale, set_scale_calced.
  repeat first [apply scaling_needed_raises | apply do_scaling_raises
               | ro_step | ro_bind].
Qed.

Lemma exec_raises {A} (m : M A) self e :
  raises_only P m -> exec m self = Raise e -> P e.
Proof.
  intros Hm. unfold exec. destruct (m self) as [[a s]|e'] eqn:E.
  - discriminate.
  - intros H; injection H as <-. apply (Hm _ _ E).
Qed.

Lemma SlopeArrayWriter_init_as_raises k a d calc sc e :
  SlopeArrayWriter_init_as k a d calc sc = Raise e -> P e.
Proof.
  unfold SlopeArrayWriter_init_as. apply exec_raises.
  unfold set_slope, set_scale_calced, set_needs_scale, set_scaler_dtype.
  repeat first [apply scaling_needed_raises | apply calc_scale_raises
               | ro_step | ro_bind].
Qed.

Lemma SlopeInterArrayWriter_init_raises a d calc sc e :
  SlopeInterArrayWriter_init a d calc sc = Raise e -> P e.
Proof.
  unfold SlopeInterArrayWriter_init.
  destruct (SlopeArrayWriter_init_as _ _ _ _ _) as [w|e'] eqn:E.
  - apply exec_raises. unfold set_inter.
    repeat first [apply calc_scale_raises | ro_step | ro_bind].
  - intros H; injection H as <-. apply (SlopeArrayWriter_init_as_raises _ _ _ _ _ _ E).
Qed.
End RaisesOnly.

(** ** What a method leaves unchanged *)

Lemma same_object_refl self : same_object self self.
Proof. repeat split. intros H; exact H. Qed.

Lemma same_object_trans s1 s2 s3 :
  same_object s1 s2 -> same_object s2 s3 -> same_object s1 s3.
Proof.
  unfold same_object. intros (A1 & A2 & A3 & A4 & A5) (B1 & B2 & B3 & B4 & B5).
  repeat split; try congruence. intros H. apply B5, A5, H.
Qed.

Lemma preserves_ret {A} (a : A) : preserves (ret a).
Proof. intros self b self' H. injection H as _ <-. apply same_object_refl. Qed.

Lemma preserves_get_self : preserves get_self.
Proof. intros self b self' H. injection H as _ <-. apply same_object_refl. Qed.

Lemma preserves_raise {A} e : preserves (@raise A e).
Proof. intros self b self' H. discriminate H. Qed.

Lemma preserves_lift {A} (r : result A) : preserves (lift r).
Proof.
  intros self b self'. unfold lift. destruct r; [|discriminate].
  intros H. injection H as _ <-. apply same_object_refl.
Qed.

Lemma preserves_bind {A B} (m : M A) (k : A -> M B) :
  preserves m -> (forall a, preserves (k a)) -> preserves (bind m k).
Proof.
  intros Hm Hk self b self'. unfold bind.
  destruct (m self) as [[a s]|e] eqn:E; [|discriminate].
  intros H. eapply same_object_trans; [apply (Hm _ _ _ E)|apply (Hk _ _ _ _ H)].
Qed.

Lemma preserves_set_scale_calced b : preserves (set_scale_calced b).
Proof.
  intros self c self' H. injection H as _ <-. repeat split. intros Hc; exact Hc.
Qed.

Lemma preserves_set_needs_scale v : preserves (set_needs_scale v).
Proof.
  intros self c self' H. injection H as _ <-. repeat split. intros Hc; exact Hc.
Qed.

Lemma preserves_set_slope v : preserves (set_slope v).
Proof.
  intros self c self' H. injection H as _ <-. repeat split. intros Hc; exact Hc.
Qed.

Lemma preserves_set_inter v : preserves (set_inter v).
Proof.
  intros self c self' H. injection H as _ <-. repeat split. intros Hc; exact Hc.
Qed.

(** The range is cached only as computed from the array. *)
Lemma preserves_finite_range : preserves finite_range.
Proof.
  intros self r self'. unfold finite_range, bind, get_self, lift, set_finite_range, ret.
  destruct (_finite_range self) as [r0|] eqn:E.
  - intros H. injection H as _ <-. apply same_object_refl.
  - destruct (finite_range_of (_array self)) as [r1|e] eqn:Er; [|discriminate].
    intros H. injection H as _ <-. repeat split. intros _. exact Er.
Qed.

Ltac pr_step :=
  first
    [ apply preserves_ret
    | apply preserves_get_self
    | apply preserves_raise
    | apply preserves_lift
    | apply preserves_finite_range
    | apply preserves_set_scale_calced
    | apply preserves_set_needs_scale
    | apply preserves_set_slope
    | apply preserves_set_inter
    | match goal with
      | |- preserves (match ?x with _ => _ end) => destruct x
      | |- preserves (if ?x then _ else _) => destruct x
      | |- preserves (let (_, _) := ?x in _) => destruct x
      end ].

Ltac pr_bind := apply preserves_bind; [|intros ?].

Lemma preserves_scaling_needed : preserves scaling_needed.
Proof. unfold scaling_needed, py_assert. repeat first [pr_step | pr_bind]. Qed.

Lemma preserves_range_scale : preserves _range_scale.
Proof.
  unfold _range_scale, SlopeArrayWriter_range_scale, SlopeInterArrayWriter_range_scale.
  repeat first [pr_step | pr_bind].
Qed.

Lemma preserves_do_scaling : preserves _do_scaling.
Proof.
  unfold _do_scaling, SlopeArrayWriter_do_scaling, SlopeInterArrayWriter_do_scaling,
    py_assert.
  repeat first [apply preserves_range_scale | pr_step | pr_bind].
Qed.

Lemma preserves_calc_scale force : preserves (calc_scale force).
Proof.
  unfold calc_scale.
  repeat first [apply preserves_scaling_needed | apply preserves_do_scaling
               | pr_step | pr_bind].
Qed.

Lemma exec_preserves {A} (m : M A) self self' :
  preserves m -> exec m self = Ok self' -> same_object self self'.
Proof.
  intros Hm. unfold exec. destruct (m self) as [[a s]|e] eqn:E; [|discriminate].
  intros H. injection H as <-. apply (Hm _ _ _ E).
Qed.

(** What the slope constructor returns is an object of the class asked for,
    on the array and types given, with a sound cache. *)
Lemma SlopeArrayWriter_init_as_class k a d calc sc w :
  SlopeArrayWriter_init_as k a d calc sc = Ok w ->
  cls w = k /\ _array w = a /\ _out_dtype w = resolve_out_dtype a d
  /\ scaler_dtype w = sc /\ cache_ok w.
Proof.
  unfold SlopeArrayWriter_init_as. unfold exec at 1. unfold bind at 1.
  destruct (scaling_needed _) as [[needed s1]|e] eqn:E1; [|discriminate].
  apply preserves_scaling_needed in E1. destruct E1 as (A1 & A2 & A3 & A4 & A5).
  cbn in A1, A2, A3, A4. specialize (A5 I).
  unfold bind at 1. cbn [set_needs_scale]. unfold bind at 1. cbn [set_scaler_dtype].
  match goal with
  | |- context [bind ?m ?k ?s] =>
      destruct (bind m k s) as [[u s2]|e] eqn:E2; [|discriminate];
      assert (Hp : preserves (bind m k))
  end.
  { repeat first [apply preserves_calc_scale | pr_step | pr_bind]. }
  apply Hp in E2. destruct E2 as (B1 & B2 & B3 & B4 & B5). cbn in B1, B2, B3, B4.
  intros H. injection H as <-. repeat split; try congruence. apply B5. exact A5.
Qed.

Lemma SlopeInterArrayWriter_init_class a d calc sc w :
  SlopeInterArrayWriter_init a d calc sc = Ok w ->
  cls w = SlopeInterArrayWriter /\ _array w = a
  /\ _out_dtype w = resolve_out_dtype a d /\ scaler_dtype w = sc /\ cache_ok w.
Proof.
  unfold SlopeInterArrayWriter_init.
  destruct (SlopeArrayWriter_init_as _ _ _ _ _) as [w0|e] eqn:E; [|discriminate].
  apply SlopeArrayWriter_init_as_class in E. destruct E as (A1 & A2 & A3 & A4 & A5).
  intros H. apply exec_preserves in H.
  - destruct H as (B1 & B2 & B3 & B4 & B5). repeat split; try congruence. apply B5, A5.
  - repeat first [apply preserves_calc_scale | pr_step | pr_bind].
Qed.

(** ** The factory *)


(** C9: a truthy [has_intercept] that does not equal [True], together with
    [has_slope = False], passes the equality guard: the factory does not
    raise the capability error, it does what the [SlopeInterArrayWriter]
    constructor does, and a writer it returns has both a slope and an
    intercept. *)
Theorem C9_truthy_intercept_without_slope data out_type has_intercept kw :
  truthy has_intercept = true ->
  py_eq_bool has_intercept true = false ->
  make_array_writer data out_type has_intercept (PyBool false) kw
  = SlopeInterArrayWriter_init data out_type (kw_calc kw) (kw_scaler kw)
  /\ make_array_writer data out_type has_intercept (PyBool false) kw
     <> Raise capability_mismatch
  /\ forall w, make_array_writer data out_type has_intercept (PyBool false) kw = Ok w ->
       cls w = SlopeInterArrayWriter
       /\ has_slope_attr (cls w) = true /\ has_inter_attr (cls w) = true.
Proof.
  intros Ht He.
  assert (Hm : make_array_writer data out_type has_intercept (PyBool false) kw
               = SlopeInterArrayWriter_init data out_type (kw_calc kw) (kw_scaler kw)).
  { unfold make_array_writer. rewrite He, Ht. reflexivity. }
  split; [exact Hm|]. rewrite Hm. split.
  - intros H.
    apply (SlopeInterArrayWriter_init_raises (fun e => e <> capability_mismatch))
      in H; try discriminate.
    + apply H. reflexivity.
    + intros msg Hmsg. exact Hmsg.
  - intros w Hw. apply SlopeInterArrayWriter_init_class in Hw. destruct Hw as (Hw & _). rewrite Hw.
    repeat split.
Qed.

(** A run of C9 with the integer 2 as [has_intercept]. *)
Lemma C9_witness :
  make_array_writer arr_0_255 (Some (Int W8)) (PyInt 2) (PyBool false) (mkKwargs None None)
  = SlopeInterArrayWriter_init arr_0_255 (Some (Int W8)) true F32
  /\ make_array_writer arr_0_255 (Some (Int W8)) (PyInt 2) (PyBool false) (mkKwargs None None)
     <> Raise capability_mismatch
  /\ forall w, make_array_writer arr_0_255 (Some (Int W8)) (PyInt 2) (PyBool false)
                 (mkKwargs None None) = Ok w ->
       cls w = SlopeInterArrayWriter
       /\ has_slope_attr (cls w) = true /\ has_inter_attr (cls w) = true.
Proof.
  apply (C9_truthy_intercept_without_slope arr_0_255 (Some (Int W8)) (PyInt 2)
           (mkKwargs None None)); reflexivity.
Defined.

(** The guard does fire on the boolean [True] and on the integer 1. *)
Example factory_guard_fires data out_type kw :
  make_array_writer data out_type (PyBool true) (PyBool false) kw = Raise capability_mismatch
  /\ make_array_writer data out_type (PyInt 1) (PyInt 0) kw = Raise capability_mismatch.
Proof. split; reflexivity. Qed.

(** ** Writing *)

Lemma filter_none {A} (p : A -> bool) xs :
  forallb (fun x => negb (p x)) xs = true -> filter p xs = [].
Proof.
  induction xs as [|x xs IH]; cbn; [reflexivity|].
  intros H. apply andb_true_iff in H. destruct H as [Hx Hxs].
  apply negb_true_iff in Hx. rewrite Hx. apply IH, Hxs.
Qed.

Lemma writing_range_no_finite self f xs :
  _array self = FloatArray f xs ->
  in_str (kind (_out_dtype self)) "iu" = true ->
  cache_ok self ->
  forallb (fun x => negb (is_finite x)) xs = true ->
  exists self', _writing_range self = Ok ((Some (NInt 0), Some (NInt 0)), self')
                /\ same_object self self'.
Proof.
  intros Ha Ho Hc Hx.
  assert (Hr : finite_range_of (_array self) = Ok (np_inf, np_ninf)).
  { rewrite Ha. cbn. rewrite (filter_none _ _ Hx). reflexivity. }
  eexists. split.
  - pose proof (finite_range_value _ _ Hc Hr) as Hf.
    assert (Hk : Ascii.eqb (kind (dtype_of (_array self))) "f" = true)
      by (rewrite Ha; reflexivity).
    unfold _writing_range, bind, get_self. rewrite Ho, Hk. cbn [andb].
    rewrite Hf. reflexivity.
  - repeat split. intros _. exact Hr.
Qed.

(** C10: for a float array without a finite element and an integer target,
    [to_fileobj] of each of the three classes hands the bounds (0, 0) to
    [array_to_file], not the sentinel; with [nan2zero] on, the sink then
    replaces every element by zero. *)
Theorem C10_no_finite_values_bounds self f xs order nan2zero :
  _array self = FloatArray f xs ->
  in_str (kind (_out_dtype self)) "iu" = true ->
  cache_ok self ->
  forallb (fun x => negb (is_finite x)) xs = true ->
  exists call self',
    to_fileobj order nan2zero self = Ok (call, self')
    /\ atf_mn call = Some (NInt 0) /\ atf_mx call = Some (NInt 0)
    /\ (atf_mn call, atf_mx call) <> (Some np_inf, Some np_ninf)
    /\ atf_data call = FloatArray f xs
    /\ Forall (fun x => sink_substitute true (NInt 0) (NInt 0) x = S754_zero false) xs.
Proof.
  intros Ha Ho Hc Hx.
  destruct (writing_range_no_finite _ _ _ Ha Ho Hc Hx) as (self' & Hw & Hs).
  destruct Hs as (_ & Hs & _).
  assert (Hz : Forall (fun x => sink_substitute true (NInt 0) (NInt 0) x = S754_zero false) xs).
  { apply Forall_forall. intros x Hin.
    rewrite forallb_forall in Hx. specialize (Hx x Hin).
    apply negb_true_iff in Hx. unfold sink_substitute. rewrite Hx. reflexivity. }
  unfold to_fileobj, bind at 1, get_self.
  destruct (cls self);
    [unfold ArrayWriter_to_fileobj|unfold SlopeArrayWriter_to_fileobj
    |unfold SlopeInterArrayWriter_to_fileobj];
    unfold bind, get_self, ret; rewrite Hw; cbn [atf_mn atf_mx atf_data];
    do 2 eexists; (split; [reflexivity|]);
    cbn [atf_mn atf_mx atf_data]; rewrite Hs, Ha;
    repeat split; try exact Hz; discriminate.
Qed.

(** A run of C10: a float32 array of a NaN and two infinities, written as
    int16 by a plain writer. *)
Lemma C10_witness :
  exists call self',
    to_fileobj "F" true
      (mkWriter ArrayWriter
         (FloatArray F32 [S754_nan; S754_infinity false; S754_infinity true])
         (Int W16) None false F32 (of_int F32 1) false (S754_zero false))
    = Ok (call, self')
    /\ atf_mn call = Some (NInt 0) /\ atf_mx call = Some (NInt 0)
    /\ (atf_mn call, atf_mx call) <> (Some np_inf, Some np_ninf)
    /\ atf_data call = FloatArray F32 [S754_nan; S754_infinity false; S754_infinity true]
    /\ Forall (fun x => sink_substitute true (NInt 0) (NInt 0) x = S754_zero false)
         [S754_nan; S754_infinity false; S754_infinity true].
Proof.
  apply (C10_no_finite_values_bounds
           (mkWriter ArrayWriter
              (FloatArray F32 [S754_nan; S754_infinity false; S754_infinity true])
              (Int W16) None false F32 (of_int F32 1) false (S754_zero false))
           F32 [S754_nan; S754_infinity false; S754_infinity true] "F"%char true).
  - reflexivity.
  - reflexivity.
  - exact I.
  - reflexivity.
Defined.

(** ** The two worked examples: uint8 [0, 255] to int8 *)


(** C2, as the claim states it, fails: the slope of [0, 255] is not 2.0. *)
Lemma C2_counterexample :
  ~ (exists w, SlopeArrayWriter_init arr_0_255 (Some (Int W8)) true F32 = Ok w
               /\ num_eqb (NFlt (slope w)) (py_float 2) = true)
  /\ ~ (exists w, calc_scale_later
                    (fun c => SlopeArrayWriter_init arr_0_255 (Some (Int W8)) c F32) false
                  = Ok w
                  /\ num_eqb (NFlt (slope w)) (py_float 2) = true).
Proof.
  split; intros (w & Hw & Hs); vm_compute in Hw; injection Hw as <-;
    vm_compute in Hs; discriminate Hs.
Qed.

(** C2, amended: for uint8 [0, 255] written as int8 by a slope-only writer
    with the float32 scaler, [calc_scale] sets the slope to 255/127 rounded
    to float32, which is 8421634 * 2^-22 (about 2.007874); the slope is 2.0
    for the array [0, 254] of the docstring. *)
Theorem C2_slope_of_0_255 :
  (exists w, SlopeArrayWriter_init arr_0_255 (Some (Int W8)) true F32 = Ok w
             /\ slope w = cast F32 (ld_div (of_int FLD 255) (of_int FLD 127))
             /\ slope w = S754_finite false 8421634 (-22))
  /\ (exists w, calc_scale_later
                  (fun c => SlopeArrayWriter_init arr_0_255 (Some (Int W8)) c F32) false
                = Ok w
                /\ slope w = S754_finite false 8421634 (-22))
  /\ (exists w, SlopeArrayWriter_init arr_0_254 (Some (Int W8)) true F32 = Ok w
                /\ slope w = of_int F32 2
                /\ num_eqb (NFlt (slope w)) (py_float 2) = true).
Proof.
  split; [|split].
  - eexists. split; [vm_compute; reflexivity|].
    split; vm_compute; reflexivity.
  - eexists. split; vm_compute; reflexivity.
  - eexists. split; [vm_compute; reflexivity|].
    split; vm_compute; reflexivity.
Qed.

(** C8: for uint8 [0, 255] written as int8 by a slope-and-intercept writer
    with the float32 scaler, [calc_scale] sets the slope to 1.0 and the
    intercept to 128. *)
Theorem C8_slope_inter_of_0_255 :
  (exists w, SlopeInterArrayWriter_init arr_0_255 (Some (Int W8)) true F32 = Ok w
             /\ slope w = of_int F32 1 /\ inter w = of_int F32 128
             /\ num_eqb (NFlt (slope w)) (py_float 1) = true
             /\ num_eqb (NFlt (inter w)) (NInt 128) = true)
  /\ (exists w, calc_scale_later
                  (fun c => SlopeInterArrayWriter_init arr_0_255 (Some (Int W8)) c F32) false
                = Ok w
                /\ slope w = of_int F32 1 /\ inter w = of_int F32 128).
Proof.
  split.
  - eexists. split; [vm_compute; reflexivity|].
    repeat (split; [vm_compute; reflexivity|]). vm_compute; reflexivity.
  - eexists. split; [vm_compute; reflexivity|].
    split; vm_compute; reflexivity.
Qed.

(** ** Finite slope and intercept *)


(** C4 fails on the code: a float64 array holding the single value 2^1000,
    written as int16, takes the single-value exit of the range computation;
    the intercept overflows float32 and the constructor returns with an
    infinite intercept, no [ScalingError] raised. *)
Theorem C4_single_value_overflow :
  wf_array (FloatArray F64 [two_to_1000])
  /\ exists w, SlopeInterArrayWriter_init (FloatArray F64 [two_to_1000]) (Some (Int W16)) true F32
               = Ok w
               /\ inter w = S754_infinity false
               /\ is_finite (inter w) = false.
Proof.
  split.
  - repeat constructor.
  - eexists. split; [vm_compute; reflexivity|].
    split; vm_compute; reflexivity.
Qed.

(** ** The methods on an object whose range is cached *)

Lemma bind_ok {A B} (m : M A) (k : A -> M B) self a s :
  m self = Ok (a, s) -> bind m k self = k a s.
Proof. intros H. unfold bind. rewrite H. reflexivity. Qed.

Lemma bind_raise {A B} (m : M A) (k : A -> M B) self e :
  m self = Raise e -> bind m k self = Raise e.
Proof. intros H. unfold bind. rewrite H. reflexivity. Qed.

Lemma shared_range_int_kind sc d :
  in_str (kind d) "iu" = true ->
  exists smin smax, shared_range sc d = Ok (smin, smax).
Proof.
  destruct d; cbn; try discriminate; intros _; unfold shared_range; cbn;
    do 2 eexists; reflexivity.
Qed.

Lemma iinfo_int_kind d :
  in_str (kind d) "iu" = true -> exists tmin tmax, iinfo d = Ok (tmin, tmax).
Proof.
  destruct d; cbn; try discriminate; intros _; do 2 eexists; reflexivity.
Qed.

Section CachedRange.
Variables (s : writer) (mn mx : num) (smin smax : Z).
Hypothesis Hcache : _finite_range s = Some (mn, mx).
Hypothesis Hshared : shared_range (scaler_dtype s) (_out_dtype s) = Ok (smin, smax).

Lemma SlopeArrayWriter_range_scale_run :
  SlopeArrayWriter_range_scale s
  = if Ascii.eqb (kind (_out_dtype s)) "u" then
      if num_ltb mn (NInt 0) && num_gtb mx (NInt 0) then Raise unsigned_span_error
      else if num_leb mx (NInt 0) then
        set_slope (NFlt (ld_div (to_ld mn) (of_int FLD smax))) s
      else set_slope (NFlt (ld_div (to_ld mx) (of_int FLD smax))) s
    else
      set_slope (NFlt (np_max2 (ld_div (to_ld mx) (of_int FLD smax))
                               (ld_div (to_ld mn) (of_int FLD smin)))) s.
Proof.
  unfold SlopeArrayWriter_range_scale.
  rewrite (bind_ok _ _ s s s eq_refl).
  rewrite (bind_ok _ _ s _ s (finite_range_cached _ _ Hcache)).
  unfold lift. rewrite Hshared.
  rewrite (bind_ok _ _ s (smin, smax) s eq_refl).
  destruct (Ascii.eqb _ _); [|reflexivity].
  destruct (_ && _); [reflexivity|].
  destruct (num_leb _ _); reflexivity.
Qed.

Lemma SlopeInterArrayWriter_range_scale_single :
  num_eqb mx mn = true ->
  SlopeInterArrayWriter_range_scale s
  = Ok (tt, with_inter s (to_scaler (scaler_dtype s) mn)).
Proof.
  intros H. unfold SlopeInterArrayWriter_range_scale.
  rewrite (bind_ok _ _ s s s eq_refl).
  rewrite (bind_ok _ _ s _ s (finite_range_cached _ _ Hcache)).
  rewrite H. reflexivity.
Qed.

Lemma SlopeInterArrayWriter_range_scale_span mn2mx :
  num_eqb mx mn = false ->
  match mn with
  | NFlt _ => mn2mx = ld_sub (to_ld mx) (to_ld mn)
  | NInt a => exists b, mx = NInt b /\ mn2mx = of_int FLD (b - a)
  end ->
  SlopeInterArrayWriter_range_scale s
  = if is_finite (_slope (range_scaled s mn smin smax mn2mx))
       && is_finite (_inter (range_scaled s mn smin smax mn2mx))
    then Ok (tt, range_scaled s mn smin smax mn2mx)
    else Raise not_both_finite.
Proof.
  intros H Hspan. unfold SlopeInterArrayWriter_range_scale.
  rewrite (bind_ok _ _ s s s eq_refl).
  rewrite (bind_ok _ _ s _ s (finite_range_cached _ _ Hcache)).
  rewrite H. unfold lift at 1. rewrite Hshared.
  rewrite (bind_ok _ _ s (smin, smax) s eq_refl).
  assert (Hm : (match mn with
                | NFlt _ => ret (ld_sub (to_ld mx) (to_ld mn))
                | NInt _ =>
                    bind (lift (as_int mx)) (fun a =>
                    bind (lift (as_int mn)) (fun b =>
                    ret (int_to_float (a - b) FLD)))
                end) s = Ok (mn2mx, s)).
  { destruct mn as [a|x].
    - destruct Hspan as (b & -> & ->). reflexivity.
    - rewrite Hspan. reflexivity. }
  rewrite (bind_ok _ _ s _ s Hm).
  unfold bind, set_inter, set_slope, get_self, ret. cbn [scaler_dtype with_inter].
  change (with_slope _ _) with (range_scaled s mn smin smax mn2mx).
  destruct (is_finite _ && is_finite _); reflexivity.
Qed.

Hypothesis Hout : in_str (kind (_out_dtype s)) "iu" = true.

Lemma do_scaling_float :
  Ascii.eqb (kind (dtype_of (_array s))) "f" = true ->
  SlopeArrayWriter_do_scaling s = _range_scale s
  /\ (num_eqb mn np_inf = false ->
      pair_eqb (mn, mx) (py_float 0, py_float 0) = false ->
      SlopeInterArrayWriter_do_scaling s = _range_scale s).
Proof.
  intros Hk. split.
  - unfold SlopeArrayWriter_do_scaling.
    rewrite (bind_ok _ _ s s s eq_refl). rewrite Hout.
    rewrite (bind_ok _ _ s tt s eq_refl).
    rewrite (bind_ok _ _ s _ s (finite_range_cached _ _ Hcache)).
    rewrite Hk. reflexivity.
  - intros H1 H2. unfold SlopeInterArrayWriter_do_scaling.
    rewrite (bind_ok _ _ s s s eq_refl). rewrite Hout.
    rewrite (bind_ok _ _ s tt s eq_refl).
    rewrite (bind_ok _ _ s _ s (finite_range_cached _ _ Hcache)).
    rewrite H1, H2, Hk. reflexivity.
Qed.

Variables tmin tmax : Z.
Hypothesis Hinfo : iinfo (_out_dtype s) = Ok (tmin, tmax).
Hypothesis Hint : Ascii.eqb (kind (dtype_of (_array s))) "f" = false.

Lemma SlopeArrayWriter_do_scaling_int :
  SlopeArrayWriter_do_scaling s
  = if num_leb mx (NInt tmax) && num_geb mn (NInt tmin) then Ok (tt, s)
    else if Ascii.eqb (kind (_out_dtype s)) "u"
            && (num_leb mx (NInt 0)
                && num_leb (np_abs (dtype_of (_array s)) mn) (NInt smax))
    then Ok (tt, with_slope s (to_scaler (scaler_dtype s) (py_float (-1))))
    else _range_scale s.
Proof.
  unfold SlopeArrayWriter_do_scaling.
  rewrite (bind_ok _ _ s s s eq_refl). rewrite Hout.
  rewrite (bind_ok _ _ s tt s eq_refl).
  rewrite (bind_ok _ _ s _ s (finite_range_cached _ _ Hcache)).
  rewrite Hint. unfold lift at 1. rewrite Hinfo.
  rewrite (bind_ok _ _ s (tmin, tmax) s eq_refl).
  destruct (_ && _); [reflexivity|].
  destruct (Ascii.eqb _ "u"); [|reflexivity].
  unfold lift. rewrite Hshared.
  rewrite (bind_ok _ _ s (smin, smax) s eq_refl).
  cbn [andb]. destruct (_ && _); reflexivity.
Qed.

Lemma SlopeInterArrayWriter_do_scaling_int a b :
  mn = NInt a -> mx = NInt b ->
  SlopeInterArrayWriter_do_scaling s
  = if (a =? 0) && (b =? 0) then Ok (tt, s)
    else if (b <=? tmax) && (tmin <=? a) then Ok (tt, s)
    else if Ascii.eqb (kind (_out_dtype s)) "u" then
      match int_le_scalar (scaler_dtype s) (b - a) smax with
      | Raise e => Raise e
      | Ok offset_enough =>
          if offset_enough : bool
          then Ok (tt, with_inter s (of_int (scaler_dtype s) a))
          else if (b <=? 0) && num_leb (np_abs (dtype_of (_array s)) mn) (NInt smax)
          then Ok (tt, with_slope s (to_scaler (scaler_dtype s) (py_float (-1))))
          else _range_scale s
      end
    else _range_scale s.
Proof.
  intros Ha Hb. unfold SlopeInterArrayWriter_do_scaling.
  rewrite (bind_ok _ _ s s s eq_refl). rewrite Hout.
  rewrite (bind_ok _ _ s tt s eq_refl).
  rewrite (bind_ok _ _ s _ s (finite_range_cached _ _ Hcache)).
  rewrite Ha, Hb.
  change (num_eqb (NInt a) np_inf) with false. cbv iota.
  change (pair_eqb (NInt a, NInt b) (py_float 0, py_float 0))
    with (pair_eqb (NInt a, NInt b) (NInt 0, NInt 0)).
  rewrite pair_eqb_int_zero.
  destruct ((a =? 0) && (b =? 0)); [reflexivity|].
  rewrite Hint. unfold lift at 1. rewrite Hinfo.
  rewrite (bind_ok _ _ s (tmin, tmax) s eq_refl).
  rewrite num_leb_int, num_geb_int.
  destruct ((b <=? tmax) && (tmin <=? a)); [reflexivity|].
  destruct (Ascii.eqb _ "u"); [|reflexivity].
  unfold lift at 1. rewrite Hshared.
  rewrite (bind_ok _ _ s (smin, smax) s eq_refl).
  cbn [as_int lift]. rewrite (bind_ok _ _ s b s eq_refl).
  rewrite (bind_ok _ _ s a s eq_refl).
  destruct (int_le_scalar (scaler_dtype s) (b - a) smax) as [fits|e] eqn:E.
  - rewrite (bind_ok _ _ s fits s eq_refl).
    rewrite !num_leb_int. rewrite <- Ha.
    destruct fits; [rewrite Ha; reflexivity|].
    destruct (_ && _); reflexivity.
  - apply bind_raise. reflexivity.
Qed.

(** The comparison of the span with the shared maximum: exact where numpy
    makes it, and a [TypeError] for a longdouble scaler and a span that a
    C long long does not hold. *)
Lemma int_le_scalar_ok f z x :
  (f = FLD -> - 2 ^ 63 <= z < 2 ^ 63) -> int_le_scalar f z x = Ok (z <=? x).
Proof.
  intros H. destruct f; cbn [int_le_scalar]; try reflexivity.
  specialize (H eq_refl).
  replace ((- 2 ^ 63 <=? z) && (z <? 2 ^ 63)) with true; [reflexivity|].
  symmetry. apply andb_true_iff. rewrite Z.leb_le, Z.ltb_lt. exact H.
Qed.

Lemma int_le_scalar_value f z x c : int_le_scalar f z x = Ok c -> c = (z <=? x).
Proof.
  destruct f; cbn [int_le_scalar]; try (intros H; injection H as <-; reflexivity).
  destruct (_ && _); [|discriminate]. intros H; injection H as <-; reflexivity.
Qed.

End CachedRange.

(** ** The finiteness check of the range computation *)

(** Past the single-value exit, the slope-and-intercept range computation
    returns only with a finite slope and a finite intercept, and otherwise
    raises [ScalingError]. *)
Lemma SlopeInterArrayWriter_range_scale_checked s mn mx smin smax mn2mx :
  _finite_range s = Some (mn, mx) ->
  shared_range (scaler_dtype s) (_out_dtype s) = Ok (smin, smax) ->
  num_eqb mx mn = false ->
  match mn with
  | NFlt _ => mn2mx = ld_sub (to_ld mx) (to_ld mn)
  | NInt a => exists b, mx = NInt b /\ mn2mx = of_int FLD (b - a)
  end ->
  (forall w, SlopeInterArrayWriter_range_scale s = Ok (tt, w) ->
     is_finite (slope w) = true /\ is_finite (inter w) = true)
  /\ (forall e, SlopeInterArrayWriter_range_scale s = Raise e ->
        e = not_both_finite /\ is_ScalingError e = true).
Proof.
  intros Hc Hs Hne Hspan.
  rewrite (SlopeInterArrayWriter_range_scale_span s mn mx smin smax Hc Hs mn2mx Hne Hspan).
  destruct (is_finite _ && is_finite _) eqn:E.
  - split; [|discriminate]. intros w H. injection H as <-.
    apply andb_true_iff in E. exact E.
  - split; [discriminate|]. intros e H. injection H as <-. split; reflexivity.
Qed.

(** ** The decision, the computation and the constructors as equations *)

(** What [scaling_needed] answers once the casts and kinds leave the
    decision to the range. *)
Lemma scaling_needed_by_range self mn mx tmin tmax s' :
  finite_range self = Ok ((mn, mx), s') ->
  can_cast (dtype_of (_array self)) (_out_dtype self) = false ->
  in_str (kind (dtype_of (_array self))) "iuf" = true ->
  in_str (kind (_out_dtype self)) "iu" = true ->
  iinfo (_out_dtype self) = Ok (tmin, tmax) ->
  scaling_needed self
  = Ok (needed_by_range (_array self) (_out_dtype self) (mn, mx) tmin tmax, s').
Proof.
  intros Hf Hcast Ha Ho Hi.
  unfold needed_by_range. cbn [fst snd].
  unfold scaling_needed. rewrite (bind_ok _ _ self self self eq_refl).
  rewrite Hcast.
  assert (Hk : Ascii.eqb "V" (kind (dtype_of (_array self))) = false
               /\ Ascii.eqb "V" (kind (_out_dtype self)) = false
               /\ Ascii.eqb (kind (_out_dtype self)) "c" = false
               /\ Ascii.eqb (kind (dtype_of (_array self))) "c" = false
               /\ Ascii.eqb (kind (_out_dtype self)) "f" = false
               /\ in_str (kind (dtype_of (_array self))) "iu"
                  = negb (Ascii.eqb (kind (dtype_of (_array self))) "f")).
  { destruct (dtype_of (_array self)); cbn in Ha; try discriminate;
      destruct (_out_dtype self); cbn in Ho; try discriminate;
      repeat split. }
  destruct Hk as (-> & -> & -> & -> & -> & Hiu). cbn [orb].
  rewrite (bind_ok _ _ self _ s' Hf).
  destruct (_ || _); [reflexivity|].
  destruct (Ascii.eqb _ "f"); [reflexivity|].
  rewrite Hiu, Ho. cbn [negb andb py_assert].
  rewrite (bind_ok _ _ s' tt s' eq_refl).
  unfold lift. rewrite Hi. rewrite (bind_ok _ _ s' (tmin, tmax) s' eq_refl).
  destruct (_ && _); reflexivity.
Qed.

Lemma calc_scale_runs force self :
  force = true \/ _scale_calced self = false ->
  calc_scale force self
  = bind scaling_needed (fun needed => if negb needed then ret tt else _do_scaling)
      (with_scale_calced self true).
Proof.
  intros H. unfold calc_scale. rewrite (bind_ok _ _ self self self eq_refl).
  assert (E : negb force && _scale_calced self = false)
    by (destruct H as [-> | ->]; [reflexivity|apply andb_false_r]).
  rewrite E. reflexivity.
Qed.

(** The object on which the slope constructor runs [calc_scale]. *)
Lemma SlopeArrayWriter_init_as_runs k a d calc sc needed s1 :
  scaling_needed (new_writer k a d sc) = Ok (needed, s1) ->
  SlopeArrayWriter_init_as k a d calc sc
  = exec (if calc then calc_scale false else ret tt)
      (with_scale_calced
         (with_slope (with_scaler_dtype (with_needs_scale s1 needed) sc)
                     (to_scaler sc (py_float 1))) false).
Proof.
  intros H. unfold SlopeArrayWriter_init_as, exec.
  rewrite (bind_ok _ _ _ _ _ H). reflexivity.
Qed.

Lemma to_scaler_one sc : to_scaler sc (py_float 1) = of_int sc 1.
Proof. destruct sc; reflexivity. Qed.

Lemma to_scaler_zero sc : to_scaler sc (py_float 0) = S754_zero false.
Proof. destruct sc; reflexivity. Qed.

Section RangeDecides.
Variables (k : klass) (a : ndarray) (d : option dtype) (sc : fwidth).
Variables (r : num * num) (tmin tmax : Z).
Hypothesis Hrange : finite_range_of a = Ok r.
Hypothesis Hcast : can_cast (dtype_of a) (resolve_out_dtype a d) = false.
Hypothesis Harr : in_str (kind (dtype_of a)) "iuf" = true.
Hypothesis Hout : in_str (kind (resolve_out_dtype a d)) "iu" = true.
Hypothesis Hinfo : iinfo (resolve_out_dtype a d) = Ok (tmin, tmax).

#[local] Abbreviation needed := (needed_by_range a (resolve_out_dtype a d) r tmin tmax).

Lemma scaling_needed_new :
  scaling_needed (new_writer k a d sc)
  = Ok (needed, cached (new_writer k a d sc) r).
Proof.
  destruct r as [mn mx] eqn:Er.
  apply scaling_needed_by_range; try assumption.
  apply finite_range_value; [exact I|exact Hrange].
Qed.

Lemma scaling_needed_cached s :
  _array s = a -> _out_dtype s = resolve_out_dtype a d ->
  _finite_range s = Some r ->
  scaling_needed s = Ok (needed, s).
Proof.
  intros Ha Ho Hc. destruct r as [mn mx] eqn:Er.
  pose proof (scaling_needed_by_range s mn mx tmin tmax s
                (finite_range_cached _ _ Hc)) as H.
  rewrite Ho, Ha in H. apply H; assumption.
Qed.

Lemma SlopeArrayWriter_init_as_inited :
  SlopeArrayWriter_init_as k a d false sc = Ok (inited k a d sc r needed).
Proof.
  rewrite (SlopeArrayWriter_init_as_runs _ _ _ _ _ _ _ scaling_needed_new).
  rewrite to_scaler_one. reflexivity.
Qed.

Lemma calc_scale_inited force :
  exec (calc_scale force) (inited k a d sc r needed)
  = if needed then exec _do_scaling (ready k a d sc r needed)
    else Ok (ready k a d sc r needed).
Proof.
  unfold exec. rewrite calc_scale_runs by (right; reflexivity).
  fold (ready k a d sc r needed).
  rewrite (bind_ok _ _ _ _ _
             (scaling_needed_cached (ready k a d sc r needed) eq_refl eq_refl eq_refl)).
  destruct needed; reflexivity.
Qed.

Lemma SlopeArrayWriter_init_as_ready :
  SlopeArrayWriter_init_as k a d true sc
  = if needed then exec _do_scaling (ready k a d sc r needed)
    else Ok (ready k a d sc r needed).
Proof.
  rewrite (SlopeArrayWriter_init_as_runs _ _ _ _ _ _ _ scaling_needed_new).
  rewrite to_scaler_one. apply (calc_scale_inited false).
Qed.
End RangeDecides.

Lemma SlopeInterArrayWriter_init_inited a d sc r tmin tmax :
  finite_range_of a = Ok r ->
  can_cast (dtype_of a) (resolve_out_dtype a d) = false ->
  in_str (kind (dtype_of a)) "iuf" = true ->
  in_str (kind (resolve_out_dtype a d)) "iu" = true ->
  iinfo (resolve_out_dtype a d) = Ok (tmin, tmax) ->
  forall calc,
    SlopeInterArrayWriter_init a d calc sc
    = if calc then
        exec (calc_scale false)
          (inited SlopeInterArrayWriter a d sc r
             (needed_by_range a (resolve_out_dtype a d) r tmin tmax))
      else Ok (inited SlopeInterArrayWriter a d sc r
                 (needed_by_range a (resolve_out_dtype a d) r tmin tmax)).
Proof.
  intros Hr Hc Ha Ho Hi calc. unfold SlopeInterArrayWriter_init.
  rewrite (SlopeArrayWriter_init_as_inited SlopeInterArrayWriter a d sc r tmin tmax
             Hr Hc Ha Ho Hi).
  unfold exec at 1. rewrite (bind_ok _ _ _ tt _ eq_refl).
  cbn [scaler_dtype inited]. rewrite to_scaler_zero.
  change (with_inter _ _) with
    (inited SlopeInterArrayWriter a d sc r
       (needed_by_range a (resolve_out_dtype a d) r tmin tmax)).
  destruct calc; reflexivity.
Qed.

Lemma do_scaling_of_class s :
  _do_scaling s
  = match cls s with
    | SlopeInterArrayWriter => SlopeInterArrayWriter_do_scaling s
    | _ => SlopeArrayWriter_do_scaling s
    end.
Proof. unfold _do_scaling, bind, get_self. destruct (cls s); reflexivity. Qed.

Lemma range_scale_of_class s :
  _range_scale s
  = match cls s with
    | SlopeInterArrayWriter => SlopeInterArrayWriter_range_scale s
    | _ => SlopeArrayWriter_range_scale s
    end.
Proof. unfold _range_scale, bind, get_self. destruct (cls s); reflexivity. Qed.

Lemma num_ltb_zero_not_eq mn :
  num_ltb mn (NInt 0) = true ->
  num_eqb mn (NInt 0) = false /\ num_eqb mn np_inf = false
  /\ num_geb mn (NInt 0) = false.
Proof.
  unfold num_geb, num_leb, num_ltb, num_eqb, num_compare, np_inf.
  cbn [num_value].
  destruct (num_value mn) as [|s|m e]; try discriminate.
  - destruct s; [repeat split|discriminate].
  - rewrite (Z.min_comm 0 e), (Z.compare_antisym (m * 2 ^ (e - Z.min e 0))).
    destruct (Z.compare _ _); try discriminate. repeat split.
Qed.

Lemma num_gtb_zero_not_leb mx :
  num_gtb mx (NInt 0) = true -> num_leb mx (NInt 0) = false.
Proof.
  unfold num_gtb, num_ltb, num_leb, num_compare. cbn [num_value].
  destruct (num_value mx) as [|s|m e]; try discriminate.
  - destruct s; [discriminate|reflexivity].
  - rewrite (Z.min_comm 0 e), (Z.compare_antisym (m * 2 ^ (e - Z.min e 0))).
    destruct (Z.compare _ _); try discriminate. reflexivity.
Qed.

Lemma fold_min_lower (lo : Z) xs x :
  lo <= x -> Forall (fun z => lo <= z) xs -> lo <= fold_left Z.min xs x.
Proof.
  revert x. induction xs as [|y ys IH]; cbn; intros x Hx Hall; [exact Hx|].
  inversion Hall; subst. apply IH; [lia|assumption].
Qed.

(** C6: a slope-only writer with an unsigned target, on an array whose range
    has a negative minimum and a positive maximum, fails with the
    [WriterError] of the range computation, at construction and at a later
    [calc_scale] alike, so no slope is produced. *)
Theorem C6_unsigned_span_error a w sc mn mx :
  wf_array a ->
  finite_range_of a = Ok (mn, mx) ->
  num_ltb mn (NInt 0) = true ->
  num_gtb mx (NInt 0) = true ->
  SlopeArrayWriter_init a (Some (UInt w)) true sc = Raise unsigned_span_error
  /\ (forall force,
        calc_scale_later (fun c => SlopeArrayWriter_init a (Some (UInt w)) c sc) force
        = Raise unsigned_span_error)
  /\ is_WriterError unsigned_span_error = true.
Proof.
  intros Hwf Hr Hmn Hmx.
  destruct (num_ltb_zero_not_eq _ Hmn) as (Hz & Hi & Hge).
  pose proof (num_gtb_zero_not_leb _ Hmx) as Hle.
  destruct (shared_range_int_kind sc (UInt w) eq_refl) as (smin & smax & Hs).
  assert (Hp : pair_eqb (mn, mx) (NInt 0, NInt 0) = false)
    by (unfold pair_eqb; cbn [fst snd]; rewrite Hz; reflexivity).
  assert (Hq : pair_eqb (mn, mx) (np_inf, np_ninf) = false)
    by (unfold pair_eqb; cbn [fst snd]; rewrite Hi; reflexivity).
  assert (Hkind : in_str (kind (dtype_of a)) "iuf" = true
                  /\ can_cast (dtype_of a) (UInt w) = false).
  { destruct a as [w0 xs|w0 xs|f xs|c xs|n xs]; try discriminate Hr;
      [|split; reflexivity|split; reflexivity].
    (* an unsigned array has no negative minimum *)
    exfalso. cbn in Hr, Hwf. destruct xs as [|x r]; [discriminate|].
    injection Hr as <- <-. rewrite num_ltb_int in Hmn. apply Z.ltb_lt in Hmn.
    inversion Hwf; subst.
    assert (0 <= fold_left Z.min r x); [apply fold_min_lower; [lia|]|lia].
    eapply Forall_impl; [|eassumption]. cbn. intros; lia. }
  destruct Hkind as (Harr & Hcast).
  assert (Hneed : needed_by_range a (UInt w) (mn, mx) 0 (2 ^ bits w - 1) = true).
  { unfold needed_by_range. rewrite Hp, Hq. cbn [orb fst snd].
    destruct (Ascii.eqb _ "f"); [reflexivity|]. rewrite Hge. reflexivity. }
  set (s := ready SlopeArrayWriter a (Some (UInt w)) sc (mn, mx) true).
  assert (Hdo : exec _do_scaling s = Raise unsigned_span_error).
  { assert (Hrs : _range_scale s = Raise unsigned_span_error).
    { rewrite range_scale_of_class. cbn [cls s ready inited with_scale_calced].
      rewrite (SlopeArrayWriter_range_scale_run s mn mx smin smax eq_refl Hs).
      cbn [_out_dtype s ready inited with_scale_calced resolve_out_dtype kind Ascii.eqb Bool.eqb].
      rewrite Hmn, Hmx. reflexivity. }
    unfold exec. rewrite do_scaling_of_class. cbn [cls s ready inited with_scale_calced].
    destruct (Ascii.eqb (kind (dtype_of a)) "f") eqn:Ef.
    - destruct (do_scaling_float s mn mx eq_refl eq_refl Ef) as (-> & _).
      rewrite Hrs. reflexivity.
    - rewrite (SlopeArrayWriter_do_scaling_int s mn mx smin smax eq_refl Hs eq_refl
                 0 (2 ^ bits w - 1) eq_refl Ef).
      rewrite Hge, Hle, andb_false_r. cbn [andb]. rewrite andb_false_r.
      rewrite Hrs. reflexivity. }
  split; [|split; [intros force|reflexivity]].
  - unfold SlopeArrayWriter_init.
    rewrite (SlopeArrayWriter_init_as_ready SlopeArrayWriter a (Some (UInt w)) sc
               (mn, mx) 0 (2 ^ bits w - 1) Hr Hcast Harr eq_refl eq_refl).
    cbn [resolve_out_dtype]. rewrite Hneed. exact Hdo.
  - unfold calc_scale_later, SlopeArrayWriter_init.
    rewrite (SlopeArrayWriter_init_as_inited SlopeArrayWriter a (Some (UInt w)) sc
               (mn, mx) 0 (2 ^ bits w - 1) Hr Hcast Harr eq_refl eq_refl).
    rewrite (calc_scale_inited SlopeArrayWriter a (Some (UInt w)) sc
               (mn, mx) 0 (2 ^ bits w - 1) Hr Hcast Harr eq_refl eq_refl).
    cbn [resolve_out_dtype]. rewrite Hneed. exact Hdo.
Qed.

(** A run of C6: int16 values [-3, 200] and a uint8 target. *)
Lemma C6_witness :
  SlopeArrayWriter_init (IntArray W16 [-3; 200]) (Some (UInt W8)) true F32
  = Raise unsigned_span_error
  /\ (forall force,
        calc_scale_later
          (fun c => SlopeArrayWriter_init (IntArray W16 [-3; 200]) (Some (UInt W8)) c F32)
          force
        = Raise unsigned_span_error)
  /\ is_WriterError unsigned_span_error = true.
Proof.
  apply (C6_unsigned_span_error (IntArray W16 [-3; 200]) W8 F32 (NInt (-3)) (NInt 200)).
  - cbn. repeat constructor; lia.
  - reflexivity.
  - reflexivity.
  - reflexivity.
Defined.


(** ** Magnitudes of floats *)

Lemma digits2_pos_bounds m :
  2 ^ (Zpos (digits2_pos m) - 1) <= Zpos m < 2 ^ Zpos (digits2_pos m).
Proof.
  induction m as [m IH|m IH|]; cbn [digits2_pos].
  - rewrite Pos2Z.inj_succ.
    replace (Z.succ (Zpos (digits2_pos m)) - 1) with (Z.succ (Zpos (digits2_pos m) - 1)) by lia.
    rewrite !Z.pow_succ_r by lia. lia.
  - rewrite Pos2Z.inj_succ.
    replace (Z.succ (Zpos (digits2_pos m)) - 1) with (Z.succ (Zpos (digits2_pos m) - 1)) by lia.
    rewrite !Z.pow_succ_r by lia. lia.
  - cbn. lia.
Qed.

(** The number of bits of a positive integer is fixed by the powers of two
    around it. *)
Lemma digits2_pos_unique m k :
  2 ^ (k - 1) <= Zpos m < 2 ^ k -> Zpos (digits2_pos m) = k.
Proof.
  intros [Hlo Hhi]. pose proof (digits2_pos_bounds m) as [Blo Bhi].
  assert (0 < k).
  { destruct (Z.ltb_spec 0 k); [assumption|].
    exfalso. assert (2 ^ k <= 2 ^ 0) by (apply Z.pow_le_mono_r; lia). cbn in *. lia. }
  destruct (Z.lt_trichotomy (Zpos (digits2_pos m)) k) as [Hlt|[Heq|Hgt]];
    [exfalso|exact Heq|exfalso].
  - assert (2 ^ Zpos (digits2_pos m) <= 2 ^ (k - 1)) by (apply Z.pow_le_mono_r; lia). lia.
  - assert (2 ^ k <= 2 ^ (Zpos (digits2_pos m) - 1)) by (apply Z.pow_le_mono_r; lia). lia.
Qed.

Lemma digits2_pos_mono m n :
  (m <= n)%positive -> Zpos (digits2_pos m) <= Zpos (digits2_pos n).
Proof.
  intros H. pose proof (digits2_pos_bounds m) as [Blo _].
  pose proof (digits2_pos_bounds n) as [_ Bhi].
  destruct (Z.leb_spec (Zpos (digits2_pos m)) (Zpos (digits2_pos n))); [assumption|].
  exfalso.
  assert (2 ^ Zpos (digits2_pos n) <= 2 ^ (Zpos (digits2_pos m) - 1))
    by (apply Z.pow_le_mono_r; lia).
  lia.
Qed.

(** A lower bound on a positive integer bounds its number of bits. *)
Lemma digits2_pos_lower m t :
  0 <= t -> 2 ^ t <= Zpos m -> t + 1 <= Zpos (digits2_pos m).
Proof.
  intros Ht H. pose proof (digits2_pos_bounds m) as [_ Bhi].
  destruct (Z.leb_spec (t + 1) (Zpos (digits2_pos m))); [assumption|].
  exfalso.
  assert (2 ^ Zpos (digits2_pos m) <= 2 ^ t) by (apply Z.pow_le_mono_r; lia).
  lia.
Qed.

Lemma iter_xO_pow m d : Zpos (Pos.iter xO m d) = Zpos m * 2 ^ Zpos d.
Proof.
  revert m. induction d as [|d IH] using Pos.peano_ind; intros m.
  - cbn. lia.
  - rewrite Pos.iter_succ, Pos2Z.inj_succ, Z.pow_succ_r by lia.
    rewrite Pos2Z.inj_xO, IH. lia.
Qed.

Lemma digits2_pos_shift m d :
  Zpos (digits2_pos (Pos.iter xO m d)) = Zpos (digits2_pos m) + Zpos d.
Proof.
  apply digits2_pos_unique. rewrite iter_xO_pow.
  pose proof (digits2_pos_bounds m) as [Blo Bhi].
  replace (Zpos (digits2_pos m) + Zpos d - 1) with (Zpos (digits2_pos m) - 1 + Zpos d) by lia.
  rewrite !Z.pow_add_r by lia.
  assert (0 < 2 ^ Zpos d) by (apply Z.pow_pos_nonneg; lia).
  nia.
Qed.

Lemma Zdigits2_bounds m :
  0 < m -> 2 ^ (Zdigits2 m - 1) <= m < 2 ^ Zdigits2 m.
Proof.
  destruct m as [|p|p]; try lia. intros _. apply digits2_pos_bounds.
Qed.

Lemma Zdigits2_unique m k :
  2 ^ (k - 1) <= m < 2 ^ k -> 0 < m -> Zdigits2 m = k.
Proof.
  destruct m as [|p|p]; try lia. intros H _. apply digits2_pos_unique, H.
Qed.

Lemma Zdigits2_mono m n : 0 < m <= n -> Zdigits2 m <= Zdigits2 n.
Proof.
  destruct m as [|p|p]; try lia. destruct n as [|q|q]; try lia.
  intros [_ H]. apply digits2_pos_mono. exact H.
Qed.

Lemma Zdigits2_pos m : 0 < m -> 0 < Zdigits2 m.
Proof. destruct m; cbn; lia. Qed.

(** ** Right shifts of the rounding records *)

Lemma shr_m_shr_record_of_loc m l : shr_m (shr_record_of_loc m l) = m.
Proof. destruct l as [|[]]; reflexivity. Qed.

Lemma shr_m_shr_1 mrs :
  0 <= shr_m mrs -> shr_m (shr_1 mrs) = shr_m mrs / 2.
Proof.
  destruct mrs as [m r s]. cbn [shr_m]. intros H.
  destruct m as [|[p|p|]|p]; cbn [shr_1 shr_m]; try lia; try reflexivity.
  - apply Z.div_unique with 1; lia.
  - apply Z.div_unique with 0; lia.
Qed.

Lemma pow2_xI p : 2 ^ Zpos p~1 = 2 * 2 ^ Zpos p * 2 ^ Zpos p.
Proof.
  rewrite (Pos2Z.inj_xI p).
  replace (2 * Zpos p + 1) with (1 + Zpos p + Zpos p) by lia.
  rewrite !Z.pow_add_r by lia. reflexivity.
Qed.

Lemma pow2_xO p : 2 ^ Zpos p~0 = 2 ^ Zpos p * 2 ^ Zpos p.
Proof.
  rewrite (Pos2Z.inj_xO p).
  replace (2 * Zpos p) with (Zpos p + Zpos p) by lia.
  rewrite !Z.pow_add_r by lia. reflexivity.
Qed.

Lemma shr_m_iter p : forall mrs,
  0 <= shr_m mrs -> shr_m (iter_pos shr_1 p mrs) = shr_m mrs / 2 ^ Zpos p.
Proof.
  induction p as [p IH|p IH|]; intros mrs H; cbn [iter_pos].
  - assert (H1 : 0 <= shr_m (shr_1 mrs))
      by (rewrite shr_m_shr_1 by assumption; apply Z.div_pos; lia).
    assert (H2 : 0 <= shr_m (iter_pos shr_1 p (shr_1 mrs)))
      by (rewrite IH by assumption; apply Z.div_pos; [lia|apply Z.pow_pos_nonneg; lia]).
    rewrite IH, IH, shr_m_shr_1 by assumption.
    assert (0 < 2 ^ Zpos p) by (apply Z.pow_pos_nonneg; lia).
    rewrite pow2_xI, !Z.div_div by nia. f_equal. lia.
  - assert (H2 : 0 <= shr_m (iter_pos shr_1 p mrs))
      by (rewrite IH by assumption; apply Z.div_pos; [lia|apply Z.pow_pos_nonneg; lia]).
    rewrite IH, IH by assumption.
    assert (0 < 2 ^ Zpos p) by (apply Z.pow_pos_nonneg; lia).
    rewrite pow2_xO, !Z.div_div by nia. f_equal.
  - rewrite shr_m_shr_1 by assumption. reflexivity.
Qed.

Section Rounding.
Variables prc emx : Z.
Hypothesis prec_pos : 0 < prc.

(** Shifting to the format's exponent keeps a mantissa positive and keeps
    the magnitude, as long as the subnormal range is not reached. *)
Lemma shr_fexp_magnitude m e l :
  0 < m ->
  emin prc emx <= Zdigits2 m + e - prc ->
  0 < shr_m (fst (shr_fexp prc emx m e l))
  /\ Zdigits2 (shr_m (fst (shr_fexp prc emx m e l))) + snd (shr_fexp prc emx m e l)
     = Zdigits2 m + e.
Proof.
  intros Hm Hun. unfold shr_fexp, fexp. rewrite Z.max_l by lia.
  replace (Zdigits2 m + e - prc - e) with (Zdigits2 m - prc) by lia.
  unfold shr. destruct (Zdigits2 m - prc) as [|p|p] eqn:En; cbn [fst snd];
    rewrite ?shr_m_shr_record_of_loc; try (split; [assumption|reflexivity]).
  rewrite shr_m_iter by (rewrite shr_m_shr_record_of_loc; lia).
  rewrite shr_m_shr_record_of_loc.
  pose proof (Zdigits2_bounds m Hm) as [Blo Bhi].
  assert (Hp : 0 < 2 ^ Zpos p) by (apply Z.pow_pos_nonneg; lia).
  assert (Hq : 2 ^ (Zdigits2 m - Zpos p - 1) <= m / 2 ^ Zpos p < 2 ^ (Zdigits2 m - Zpos p)).
  { split.
    - apply Z.div_le_lower_bound; [assumption|].
      rewrite <- Z.pow_add_r by lia.
      replace (Zpos p + (Zdigits2 m - Zpos p - 1)) with (Zdigits2 m - 1) by lia.
      assumption.
    - apply Z.div_lt_upper_bound; [assumption|].
      rewrite <- Z.pow_add_r by lia.
      replace (Zpos p + (Zdigits2 m - Zpos p)) with (Zdigits2 m) by lia.
      assumption. }
  assert (Hq0 : 0 < m / 2 ^ Zpos p).
  { assert (0 < 2 ^ (Zdigits2 m - Zpos p - 1)) by (apply Z.pow_pos_nonneg; lia). lia. }
  split; [assumption|].
  rewrite (Zdigits2_unique _ (Zdigits2 m - Zpos p)) by assumption. lia.
Qed.

Lemma round_nearest_even_bounds m l :
  m <= round_nearest_even m l <= m + 1.
Proof.
  destruct l as [|[]]; cbn; try lia. destruct (Z.even m); lia.
Qed.

(** Rounding a positive mantissa outside the subnormal range gives a float
    of the same sign that is not zero and not smaller in magnitude. *)
Lemma binary_round_aux_big s m e l :
  0 < m ->
  emin prc emx <= Zdigits2 m + e - prc ->
  big s (Zdigits2 m + e) (binary_round_aux prc emx s m e l).
Proof.
  intros Hm Hun. unfold binary_round_aux.
  destruct (shr_fexp_magnitude m e l Hm Hun) as [H1 E1].
  destruct (shr_fexp prc emx m e l) as [mrs1 e1]. cbn [fst snd] in H1, E1.
  pose proof (round_nearest_even_bounds (shr_m mrs1) (loc_of_shr_record mrs1)) as Hr.
  set (m2 := round_nearest_even (shr_m mrs1) (loc_of_shr_record mrs1)) in *.
  assert (Hm2 : 0 < m2) by lia.
  assert (Hd2 : Zdigits2 (shr_m mrs1) <= Zdigits2 m2) by (apply Zdigits2_mono; lia).
  destruct (shr_fexp_magnitude m2 e1 loc_Exact Hm2 ltac:(lia)) as [H3 E3].
  destruct (shr_fexp prc emx m2 e1 loc_Exact) as [mrs3 e3]. cbn [fst snd] in H3, E3.
  destruct (shr_m mrs3) as [|m3|m3] eqn:Em3; try lia.
  destruct (e3 <=? emx - prc); cbn [big]; [|reflexivity].
  split; [reflexivity|]. cbn [Zdigits2] in E3. lia.
Qed.

Lemma big_weaken s k k' x : k <= k' -> big s k' x -> big s k x.
Proof.
  intros H. destruct x; cbn; try tauto. intros [-> ?]. split; [reflexivity|lia].
Qed.

Lemma big_not_zero s k x : big s k x -> is_zero x = false.
Proof. destruct x; cbn; tauto. Qed.

Lemma binary_round_big s m e :
  emin prc emx <= Zpos (digits2_pos m) + e - prc ->
  big s (Zpos (digits2_pos m) + e) (binary_round prc emx s m e).
Proof.
  intros Hun. unfold binary_round, shl_align.
  destruct (fexp prc emx (Zpos (digits2_pos m) + e) - e) as [|d|d] eqn:Ed;
    try (apply (binary_round_aux_big s (Zpos m) e loc_Exact); [lia|assumption]).
  pose proof (digits2_pos_shift m d) as Hs.
  assert (Hf : fexp prc emx (Zpos (digits2_pos m) + e) = e - Zpos d) by lia.
  rewrite Hf.
  replace (Zpos (digits2_pos m) + e)
    with (Zdigits2 (Zpos (Pos.iter xO m d)) + (e - Zpos d)) by (cbn [Zdigits2]; lia).
  apply binary_round_aux_big; [lia|]. cbn [Zdigits2]. lia.
Qed.

Lemma binary_normalize_big z e sz :
  z <> 0 ->
  emin prc emx <= Zdigits2 z + e - prc ->
  big (z <? 0) (Zdigits2 z + e) (binary_normalize prc emx z e sz).
Proof.
  destruct z as [|p|p]; [lia| |]; intros _ Hun; cbn [binary_normalize Zdigits2 Z.ltb Z.compare];
    apply binary_round_big; exact Hun.
Qed.
End Rounding.

Section Division.
Variables prc emx : Z.
Hypothesis prec_pos : 0 < prc.

(** The quotient of the division core has at least the magnitude of the
    exact quotient's lower bound. *)
Lemma SFdiv_core_binary_magnitude m1 e1 m2 e2 :
  emin prc emx
  <= Zpos (digits2_pos m1) + e1 - (Zpos (digits2_pos m2) + e2) - prc ->
  let '(q, e', _) := SFdiv_core_binary prc emx (Zpos m1) e1 (Zpos m2) e2 in
  0 < q
  /\ Zpos (digits2_pos m1) + e1 - (Zpos (digits2_pos m2) + e2) <= Zdigits2 q + e'.
Proof.
  intros Hun. unfold SFdiv_core_binary. cbn [Zdigits2].
  set (d1 := Zpos (digits2_pos m1)) in *. set (d2 := Zpos (digits2_pos m2)) in *.
  set (D := d1 + e1 - (d2 + e2)) in *.
  assert (HD : fexp prc emx D = D - prc) by (unfold fexp; lia).
  rewrite HD.
  set (e' := Z.min (D - prc) (e1 - e2)).
  set (sh := e1 - e2 - e').
  assert (Hsh : 0 <= sh) by (unfold sh, e'; lia).
  set (m' := match sh with
             | 0 => Zpos m1
             | Zpos _ => Z.shiftl (Zpos m1) sh
             | Zneg _ => 0
             end).
  assert (Hm' : m' = Zpos m1 * 2 ^ sh).
  { unfold m'. destruct sh as [|p|p]; [cbn; lia| |lia].
    rewrite Z.shiftl_mul_pow2 by lia. reflexivity. }
  pose proof (Z_div_mod m' (Zpos m2) ltac:(lia)) as Hdm.
  destruct (Z.div_eucl m' (Zpos m2)) as [q r].
  destruct Hdm as [Hq Hr].
  pose proof (digits2_pos_bounds m1) as [B1 _]. fold d1 in B1.
  pose proof (digits2_pos_bounds m2) as [_ B2]. fold d2 in B2.
  set (t := D - e' - 1).
  assert (Ht : 0 <= t) by (unfold t, e'; lia).
  assert (Hpow : 2 ^ (t + d2) <= m').
  { rewrite Hm'. replace (t + d2) with (d1 - 1 + sh) by (unfold t, sh, D; lia).
    rewrite Z.pow_add_r by (unfold d1; lia).
    assert (0 < 2 ^ sh) by (apply Z.pow_pos_nonneg; lia). nia. }
  assert (Hqt : 2 ^ t <= q).
  { rewrite Z.pow_add_r in Hpow by (unfold d2; lia).
    assert (0 < 2 ^ t) by (apply Z.pow_pos_nonneg; lia).
    destruct (Z.leb_spec (2 ^ t) q); [assumption|]. exfalso. nia. }
  assert (0 < 2 ^ t) by (apply Z.pow_pos_nonneg; lia).
  split; [lia|].
  destruct q as [|qp|qp]; try lia.
  pose proof (digits2_pos_lower qp t Ht Hqt). cbn [Zdigits2]. unfold t in *. lia.
Qed.

(** Dividing a nonzero float by a finite nonzero one, outside the subnormal
    range, gives a nonzero float whose magnitude is at least the difference
    of the magnitudes. *)
Lemma SFdiv_big sx sy k ky x y :
  big sx k x -> small sy ky y ->
  emin prc emx <= k - ky - prc ->
  big (xorb sx sy) (k - ky) (SFdiv prc emx x y).
Proof.
  intros Hx Hy Hun.
  destruct y as [| | |sy' my ey]; cbn [small] in Hy; try contradiction.
  destruct Hy as [-> Hky].
  destruct x as [| sx' | |sx' mx ex]; cbn [big] in Hx; try contradiction.
  - subst. reflexivity.
  - destruct Hx as [-> Hk]. cbn [SFdiv].
    pose proof (SFdiv_core_binary_magnitude mx ex my ey ltac:(lia)) as Hc.
    destruct (SFdiv_core_binary prc emx (Zpos mx) ex (Zpos my) ey) as [[q e'] l].
    destruct Hc as [Hq Hmag].
    apply (big_weaken _ _ (Zdigits2 q + e')); [lia|].
    apply binary_round_aux_big; [assumption|assumption|lia].
Qed.
End Division.

(** ** Conversions *)

Lemma cast_big f s k x :
  big s k x -> emin (prec f) (emax f) <= k - prec f -> big s k (cast f x).
Proof.
  intros Hx Hun.
  assert (Hp : 0 < prec f) by (destruct f; reflexivity).
  destruct x as [| s' | |s' m e]; cbn [big] in Hx; try contradiction.
  - exact Hx.
  - destruct Hx as [-> Hk]. cbn [cast].
    apply (big_weaken _ _ (Zpos (digits2_pos m) + e)); [lia|].
    destruct s; cbn [cond_Zopp Z.opp binary_normalize];
      apply binary_round_big; try assumption; lia.
Qed.

Lemma of_int_big f z :
  z <> 0 -> big (z <? 0) 1 (of_int f z).
Proof.
  intros Hz. unfold of_int.
  assert (Hp : 0 < prec f) by (destruct f; reflexivity).
  assert (Hd : 1 <= Zdigits2 z) by (destruct z; cbn; lia).
  apply (big_weaken _ _ (Zdigits2 z + 0)); [lia|].
  apply binary_normalize_big; [assumption|assumption|].
  destruct f; cbn; lia.
Qed.

Lemma of_int_zero f : of_int f 0 = S754_zero false.
Proof. reflexivity. Qed.

Lemma smallb_small s k x : smallb s k x = true -> small s k x.
Proof.
  destruct x as [| | |s' m e]; cbn [smallb small]; try discriminate.
  intros H. apply andb_true_iff in H. destruct H as [H1 H2].
  apply Bool.eqb_prop in H1. apply Z.leb_le in H2. split; assumption.
Qed.

(** The divisors of the range computations are finite, nonzero and below
    2^66, whatever the scaler and the integer target. *)
Lemma shared_range_small sc d smin smax :
  shared_range sc d = Ok (smin, smax) ->
  small false 65 (of_int FLD smax)
  /\ small false 66 (ld_sub (of_int FLD smax) (of_int FLD smin))
  /\ (kind d = "i"%char -> small true 65 (of_int FLD smin)).
Proof.
  intros H.
  destruct sc, d as [[]|[]|f|c|n]; vm_compute in H; try discriminate H;
    injection H as <- <-;
    (split; [|split; [|intros Hk; try discriminate Hk]]);
    apply smallb_small; vm_compute; reflexivity.
Qed.

(** ** Quotients of an integer by a divisor *)

Lemma ld_div_int_zero sy ky y :
  small sy ky y -> ld_div (of_int FLD 0) y = S754_zero sy.
Proof.
  destruct y as [| | |s m e]; cbn [small]; try contradiction.
  intros [-> _]. reflexivity.
Qed.

Lemma ld_div_int_big z sy ky y :
  z <> 0 -> small sy ky y -> ky <= 66 ->
  big (xorb (z <? 0) sy) (1 - ky) (ld_div (of_int FLD z) y).
Proof.
  intros Hz Hy Hk. unfold ld_div.
  apply (SFdiv_big (prec FLD) (emax FLD) eq_refl (z <? 0) sy 1 ky);
    [apply of_int_big; assumption|assumption|].
  unfold emin, prec, emax. lia.
Qed.

(** Coercion of such a quotient to float32, float64 or longdouble does not
    underflow. *)
Lemma to_scaler_quotient_nonzero sc s ky x :
  sc <> F16 -> ky <= 66 -> big s (1 - ky) x ->
  is_zero (to_scaler sc (NFlt x)) = false.
Proof.
  intros Hsc Hk Hx. cbn [to_scaler].
  apply (big_not_zero s (1 - ky)). apply cast_big; [assumption|].
  destruct sc; unfold emin, prec, emax; try lia. congruence.
Qed.

(** ** The larger of two quotients *)

Lemma num_compare_antisym a b :
  num_compare b a = option_map CompOpp (num_compare a b).
Proof.
  unfold num_compare.
  destruct (num_value a) as [|sa|ma ea], (num_value b) as [|sb|mb eb];
    try reflexivity; cbn [option_map].
  - destruct sa, sb; reflexivity.
  - destruct sa; reflexivity.
  - destruct sb; reflexivity.
  - rewrite (Z.min_comm eb ea), (Z.compare_antisym (ma * _)). reflexivity.
Qed.

Lemma Zdigits2_shift m a :
  0 <= a -> Zdigits2 (Zpos m * 2 ^ a) = Zpos (digits2_pos m) + a.
Proof.
  intros Ha. pose proof (digits2_pos_bounds m) as [Blo Bhi].
  assert (0 < 2 ^ a) by (apply Z.pow_pos_nonneg; lia).
  apply Zdigits2_unique; [|nia].
  replace (Zpos (digits2_pos m) + a - 1) with (Zpos (digits2_pos m) - 1 + a) by lia.
  rewrite !Z.pow_add_r by lia. nia.
Qed.

(** What is not below a positive float of magnitude [k] is one too. *)
Lemma big_le k p x :
  big false k p -> num_leb (NFlt p) (NFlt x) = true -> big false k x.
Proof.
  unfold num_leb, num_compare.
  destruct p as [|sp| |sp mp ep]; cbn [big]; try contradiction.
  - intros ->. cbn [num_value].
    destruct x as [sx|sx| |sx mx ex]; cbn [num_value big]; try discriminate.
    destruct sx; [discriminate|reflexivity].
  - intros [-> Hk]. cbn [num_value cond_Zopp].
    destruct x as [sx|sx| |sx mx ex]; cbn [num_value big].
    + set (e := Z.min ep 0).
      assert (0 < 2 ^ (ep - e)) by (apply Z.pow_pos_nonneg; lia).
      destruct (Z.compare_spec (Zpos mp * 2 ^ (ep - e)) (0 * 2 ^ (0 - e)));
        try discriminate; nia.
    + destruct sx; [discriminate|reflexivity].
    + discriminate.
    + set (e := Z.min ep ex).
      assert (Ha : 0 <= ep - e) by lia. assert (Hb : 0 <= ex - e) by lia.
      assert (0 < 2 ^ (ep - e)) by (apply Z.pow_pos_nonneg; lia).
      assert (0 < 2 ^ (ex - e)) by (apply Z.pow_pos_nonneg; lia).
      intros Hc.
      assert (Hle : Zpos mp * 2 ^ (ep - e) <= cond_Zopp sx (Zpos mx) * 2 ^ (ex - e)).
      { destruct (Z.compare_spec (Zpos mp * 2 ^ (ep - e))
                    (cond_Zopp sx (Zpos mx) * 2 ^ (ex - e))); try discriminate; lia. }
      destruct sx; cbn [cond_Zopp] in Hle; [exfalso; nia|].
      split; [reflexivity|].
      assert (Hd : Zdigits2 (Zpos mp * 2 ^ (ep - e)) <= Zdigits2 (Zpos mx * 2 ^ (ex - e)))
        by (apply Zdigits2_mono; nia).
      rewrite !Zdigits2_shift in Hd by assumption. lia.
Qed.

Lemma num_compare_none a b :
  num_compare (NFlt a) (NFlt b) = None -> a = S754_nan \/ b = S754_nan.
Proof.
  unfold num_compare.
  destruct a as [sa|sa| |sa ma ea]; cbn [num_value]; try (left; reflexivity);
    destruct b as [sb|sb| |sb mb eb]; cbn [num_value]; try (right; reflexivity);
    try discriminate; try (destruct sa; discriminate); destruct sb; discriminate.
Qed.

Lemma np_max2_big k a b :
  (big false k a /\ b <> S754_nan) \/ (big false k b /\ a <> S754_nan) ->
  big false k (np_max2 a b).
Proof.
  intros H. unfold np_max2.
  pose proof (num_compare_antisym (NFlt a) (NFlt b)) as Hanti.
  destruct (num_compare (NFlt a) (NFlt b)) as [c|] eqn:E.
  - cbn [option_map] in Hanti.
    destruct H as [[Ha _]|[Hb _]].
    + destruct c; try exact Ha.
      apply (big_le k a); [exact Ha|]. unfold num_leb. rewrite E. reflexivity.
    + destruct c; try exact Hb;
        (apply (big_le k b); [exact Hb|]; unfold num_leb; rewrite Hanti; reflexivity).
  - exfalso. apply num_compare_none in E.
    assert (Hn : forall x, big false k x -> x <> S754_nan)
      by (intros x Hx ->; exact Hx).
    destruct H as [[Ha Hb]|[Hb Ha]], E as [-> | ->];
      try (apply (Hn _ Ha); reflexivity); try (apply (Hn _ Hb); reflexivity);
      try (apply Ha; reflexivity); apply Hb; reflexivity.
Qed.

(** ** Rounding into the subnormal range *)

Section RoundingSubnormal.
Variables prc emx : Z.
Hypothesis prec_pos : 0 < prc.

(** Shifting to the format's exponent keeps a mantissa positive and keeps
    the magnitude as long as the number is not below the smallest subnormal
    one. *)
Lemma shr_fexp_magnitude_sub m e l :
  0 < m ->
  emin prc emx < Zdigits2 m + e ->
  0 < shr_m (fst (shr_fexp prc emx m e l))
  /\ Zdigits2 (shr_m (fst (shr_fexp prc emx m e l))) + snd (shr_fexp prc emx m e l)
     = Zdigits2 m + e.
Proof.
  intros Hm Hun. unfold shr_fexp, fexp.
  set (n := Z.max (Zdigits2 m + e - prc) (emin prc emx) - e).
  assert (Hn : n <= Zdigits2 m - 1) by (unfold n; lia).
  unfold shr. destruct n as [|p|p] eqn:En; cbn [fst snd];
    rewrite ?shr_m_shr_record_of_loc; try (split; [assumption|reflexivity]).
  rewrite shr_m_iter by (rewrite shr_m_shr_record_of_loc; lia).
  rewrite shr_m_shr_record_of_loc.
  pose proof (Zdigits2_bounds m Hm) as [Blo Bhi].
  assert (Hp : 0 < 2 ^ Zpos p) by (apply Z.pow_pos_nonneg; lia).
  assert (Hq : 2 ^ (Zdigits2 m - Zpos p - 1) <= m / 2 ^ Zpos p < 2 ^ (Zdigits2 m - Zpos p)).
  { split.
    - apply Z.div_le_lower_bound; [assumption|].
      rewrite <- Z.pow_add_r by lia.
      replace (Zpos p + (Zdigits2 m - Zpos p - 1)) with (Zdigits2 m - 1) by lia.
      assumption.
    - apply Z.div_lt_upper_bound; [assumption|].
      rewrite <- Z.pow_add_r by lia.
      replace (Zpos p + (Zdigits2 m - Zpos p)) with (Zdigits2 m) by lia.
      assumption. }
  assert (Hq0 : 0 < m / 2 ^ Zpos p).
  { assert (0 < 2 ^ (Zdigits2 m - Zpos p - 1)) by (apply Z.pow_pos_nonneg; lia). lia. }
  split; [assumption|].
  rewrite (Zdigits2_unique _ (Zdigits2 m - Zpos p)) by assumption. lia.
Qed.

(** Rounding a positive mantissa of a number that is not below the smallest
    subnormal one gives a float of the same sign that is not zero and not
    smaller in magnitude. *)
Lemma binary_round_aux_big_sub s m e l :
  0 < m ->
  emin prc emx < Zdigits2 m + e ->
  big s (Zdigits2 m + e) (binary_round_aux prc emx s m e l).
Proof.
  intros Hm Hun. unfold binary_round_aux.
  destruct (shr_fexp_magnitude_sub m e l Hm Hun) as [H1 E1].
  destruct (shr_fexp prc emx m e l) as [mrs1 e1]. cbn [fst snd] in H1, E1.
  pose proof (round_nearest_even_bounds (shr_m mrs1) (loc_of_shr_record mrs1)) as Hr.
  set (m2 := round_nearest_even (shr_m mrs1) (loc_of_shr_record mrs1)) in *.
  assert (Hm2 : 0 < m2) by lia.
  assert (Hd2 : Zdigits2 (shr_m mrs1) <= Zdigits2 m2) by (apply Zdigits2_mono; lia).
  destruct (shr_fexp_magnitude_sub m2 e1 loc_Exact Hm2 ltac:(lia)) as [H3 E3].
  destruct (shr_fexp prc emx m2 e1 loc_Exact) as [mrs3 e3]. cbn [fst snd] in H3, E3.
  destruct (shr_m mrs3) as [|m3|m3] eqn:Em3; try lia.
  destruct (e3 <=? emx - prc); cbn [big]; [|reflexivity].
  split; [reflexivity|]. cbn [Zdigits2] in E3. lia.
Qed.

Lemma binary_round_big_sub s m e :
  emin prc emx < Zpos (digits2_pos m) + e ->
  big s (Zpos (digits2_pos m) + e) (binary_round prc emx s m e).
Proof.
  intros Hun. unfold binary_round, shl_align.
  destruct (fexp prc emx (Zpos (digits2_pos m) + e) - e) as [|d|d] eqn:Ed;
    try (apply (binary_round_aux_big_sub s (Zpos m) e loc_Exact); [lia|assumption]).
  pose proof (digits2_pos_shift m d) as Hs.
  assert (Hf : fexp prc emx (Zpos (digits2_pos m) + e) = e - Zpos d) by lia.
  rewrite Hf.
  replace (Zpos (digits2_pos m) + e)
    with (Zdigits2 (Zpos (Pos.iter xO m d)) + (e - Zpos d)) by (cbn [Zdigits2]; lia).
  apply binary_round_aux_big_sub; [lia|]. cbn [Zdigits2]. lia.
Qed.
End RoundingSubnormal.

(** Coercion to a narrower format keeps a number nonzero, with its sign, as
    long as it is not below the smallest subnormal number of the format. *)
Lemma cast_big_sub f s k x :
  big s k x -> emin (prec f) (emax f) < k -> big s k (cast f x).
Proof.
  intros Hx Hun.
  assert (Hp : 0 < prec f) by (destruct f; reflexivity).
  destruct x as [| s' | |s' m e]; cbn [big] in Hx; try contradiction.
  - exact Hx.
  - destruct Hx as [-> Hk]. cbn [cast].
    apply (big_weaken _ _ (Zpos (digits2_pos m) + e)); [lia|].
    destruct s; cbn [cond_Zopp Z.opp binary_normalize];
      apply binary_round_big_sub; try assumption; lia.
Qed.

Lemma to_scaler_nonzero sc s k x :
  big s k x -> emin (prec sc) (emax sc) < k ->
  is_zero (to_scaler sc (NFlt x)) = false.
Proof.
  intros Hx Hk. cbn [to_scaler]. apply (big_not_zero s k).
  apply cast_big_sub; assumption.
Qed.

(** The divisors of the range computations, by scaler: with a float16 scaler
    the shared range stays within the 16 bits of the largest float16, so the
    quotients stay above the smallest float16; with the wider scalers the
    divisors are below 2^66. *)
Lemma divisor_bits_bounds sc :
  divisor_bits sc <= 66
  /\ emin (prec sc) (emax sc) < 1 - divisor_bits sc.
Proof. destruct sc; unfold divisor_bits, emin, prec, emax; lia. Qed.

Lemma shared_range_small_by_scaler sc d smin smax :
  shared_range sc d = Ok (smin, smax) ->
  small false (divisor_bits sc - 1) (of_int FLD smax)
  /\ small false (divisor_bits sc) (ld_sub (of_int FLD smax) (of_int FLD smin))
  /\ (kind d = "i"%char -> small true (divisor_bits sc - 1) (of_int FLD smin)).
Proof.
  intros H.
  destruct sc; try exact (shared_range_small _ _ _ _ H).
  destruct d as [[]|[]|f|c|n]; vm_compute in H; try discriminate H;
    injection H as <- <-;
    (split; [apply smallb_small; vm_compute; reflexivity|]);
    (split; [apply smallb_small; vm_compute; reflexivity|]);
    first [intros _; apply smallb_small; vm_compute; reflexivity
          | intros E; discriminate E].
Qed.

(** ** Slopes of integer arrays *)

Lemma quotient_not_nan z sy ky y :
  small sy ky y -> ky <= 66 -> ld_div (of_int FLD z) y <> S754_nan.
Proof.
  intros Hy Hk. destruct (Z.eq_dec z 0) as [->|Hz].
  - rewrite (ld_div_int_zero _ _ _ Hy). discriminate.
  - pose proof (ld_div_int_big z sy ky y Hz Hy Hk) as Hb. intros E.
    rewrite E in Hb. exact Hb.
Qed.

Lemma sign_flip_nonzero sc : is_zero (to_scaler sc (py_float (-1))) = false.
Proof. destruct sc; reflexivity. Qed.

Lemma one_nonzero sc : is_zero (of_int sc 1) = false.
Proof. destruct sc; reflexivity. Qed.

Section IntegerRange.
Variables (s : writer) (mn mx : Z).
Hypothesis Hcache : _finite_range s = Some (NInt mn, NInt mx).
Hypothesis Hout : in_str (kind (_out_dtype s)) "iu" = true.
Hypothesis Hint : Ascii.eqb (kind (dtype_of (_array s))) "f" = false.
Hypothesis Hslope : is_zero (_slope s) = false.

(** The slope-only range computation, reached with the range outside the
    target's, leaves a nonzero slope. *)
Lemma SlopeArrayWriter_range_scale_nonzero tmin tmax w :
  iinfo (_out_dtype s) = Ok (tmin, tmax) ->
  (mx <=? tmax) && (tmin <=? mn) = false ->
  SlopeArrayWriter_range_scale s = Ok (tt, w) ->
  is_zero (slope w) = false.
Proof.
  intros Hinfo Hrange.
  destruct (shared_range_int_kind (scaler_dtype s) _ Hout) as (smin & smax & Hs).
  destruct (shared_range_small_by_scaler _ _ _ _ Hs) as (Hmax & _ & Hmin).
  destruct (divisor_bits_bounds (scaler_dtype s)) as (Hb & He).
  set (ky := divisor_bits (scaler_dtype s)) in *.
  rewrite (SlopeArrayWriter_range_scale_run s (NInt mn) (NInt mx) smin smax Hcache Hs).
  rewrite num_ltb_int, num_gtb_int, num_leb_int. cbn [to_ld].
  apply andb_false_iff in Hrange. rewrite !Z.leb_gt in Hrange.
  destruct (_out_dtype s) as [w'|w'|f|c|n] eqn:Eout; cbn in Hout; try discriminate;
    cbn [kind Ascii.eqb Bool.eqb]; cbn [iinfo] in Hinfo; injection Hinfo as <- <-.
  - (* unsigned target *)
    assert (0 <= 2 ^ bits w' - 1) by (destruct w'; cbn; lia).
    destruct ((mn <? 0) && (0 <? mx)); [discriminate|].
    destruct (Z.leb_spec mx 0); unfold set_slope; intros E; injection E as <-;
      cbn [slope _slope with_slope].
    + apply (to_scaler_nonzero _ (xorb (mn <? 0) false) (1 - (ky - 1))); [|lia].
      apply ld_div_int_big; try assumption; lia.
    + apply (to_scaler_nonzero _ (xorb (mx <? 0) false) (1 - (ky - 1))); [|lia].
      apply ld_div_int_big; try assumption; lia.
  - (* signed target *)
    assert (0 <= 2 ^ (bits w' - 1) - 1) by (destruct w'; cbn; lia).
    specialize (Hmin eq_refl).
    unfold set_slope. intros E; injection E as <-. cbn [slope _slope with_slope].
    apply (to_scaler_nonzero _ false (1 - (ky - 1))); [|lia].
    apply np_max2_big.
    destruct (Z.ltb_spec 0 mx) as [Hpos|Hneg].
    + left. split; [|apply (quotient_not_nan _ true (ky - 1)); [assumption|lia]].
      replace false with (xorb (mx <? 0) false)
        by (destruct (Z.ltb_spec mx 0); [lia|reflexivity]).
      apply ld_div_int_big; try assumption; lia.
    + right. split; [|apply (quotient_not_nan _ false (ky - 1)); [assumption|lia]].
      replace false with (xorb (mn <? 0) true)
        by (destruct (Z.ltb_spec mn 0); [reflexivity|lia]).
      apply ld_div_int_big; try assumption; lia.
Qed.

(** So does the slope-and-intercept range computation. *)
Lemma SlopeInterArrayWriter_range_scale_nonzero w :
  SlopeInterArrayWriter_range_scale s = Ok (tt, w) ->
  is_zero (slope w) = false.
Proof.
  destruct (shared_range_int_kind (scaler_dtype s) _ Hout) as (smin & smax & Hs).
  destruct (shared_range_small_by_scaler _ _ _ _ Hs) as (_ & Hspan & _).
  destruct (divisor_bits_bounds (scaler_dtype s)) as (Hb & He).
  set (ky := divisor_bits (scaler_dtype s)) in *.
  destruct (num_eqb (NInt mx) (NInt mn)) eqn:E.
  - rewrite (SlopeInterArrayWriter_range_scale_single s _ _ Hcache E).
    intros H; injection H as <-. exact Hslope.
  - rewrite (SlopeInterArrayWriter_range_scale_span s (NInt mn) (NInt mx) smin smax
               Hcache Hs (of_int FLD (mx - mn)) E) by (exists mx; split; reflexivity).
    destruct (_ && _); [|discriminate]. intros H; injection H as <-.
    cbn [slope _slope range_scaled with_slope].
    rewrite num_eqb_int in E. apply Z.eqb_neq in E.
    change (cast (scaler_dtype s) (range_slope smin smax (of_int FLD (mx - mn))))
      with (to_scaler (scaler_dtype s)
              (NFlt (range_slope smin smax (of_int FLD (mx - mn))))).
    apply (to_scaler_nonzero _ (xorb (mx - mn <? 0) false) (1 - ky)); [|lia].
    apply ld_div_int_big; try assumption; lia.
Qed.

Lemma do_scaling_nonzero w :
  exec _do_scaling s = Ok w -> is_zero (slope w) = false.
Proof.
  destruct (shared_range_int_kind (scaler_dtype s) _ Hout) as (smin & smax & Hs).
  destruct (iinfo_int_kind _ Hout) as (tmin & tmax & Hi).
  unfold exec. rewrite do_scaling_of_class.
  destruct (cls s) eqn:Ecls.
  - rewrite (SlopeArrayWriter_do_scaling_int s (NInt mn) (NInt mx) smin smax Hcache Hs
               Hout tmin tmax Hi Hint).
    rewrite num_leb_int, num_geb_int.
    destruct ((mx <=? tmax) && (tmin <=? mn)) eqn:Er;
      [cbv beta iota; intros H; injection H as <-; exact Hslope|].
    destruct (Ascii.eqb _ _ && _); [cbv beta iota; intros H; injection H as <-; apply sign_flip_nonzero|].
    rewrite range_scale_of_class, Ecls.
    destruct (SlopeArrayWriter_range_scale s) as [[[] w']|e] eqn:E; [|discriminate].
    intros H; injection H as <-.
    apply (SlopeArrayWriter_range_scale_nonzero tmin tmax w' Hi Er E).
  - rewrite (SlopeArrayWriter_do_scaling_int s (NInt mn) (NInt mx) smin smax Hcache Hs
               Hout tmin tmax Hi Hint).
    rewrite num_leb_int, num_geb_int.
    destruct ((mx <=? tmax) && (tmin <=? mn)) eqn:Er;
      [cbv beta iota; intros H; injection H as <-; exact Hslope|].
    destruct (Ascii.eqb _ _ && _); [cbv beta iota; intros H; injection H as <-; apply sign_flip_nonzero|].
    rewrite range_scale_of_class, Ecls.
    destruct (SlopeArrayWriter_range_scale s) as [[[] w']|e] eqn:E; [|discriminate].
    intros H; injection H as <-.
    apply (SlopeArrayWriter_range_scale_nonzero tmin tmax w' Hi Er E).
  - rewrite (SlopeInterArrayWriter_do_scaling_int s (NInt mn) (NInt mx) smin smax Hcache Hs
               Hout tmin tmax Hi Hint mn mx eq_refl eq_refl).
    destruct ((mn =? 0) && (mx =? 0)); [cbv beta iota; intros H; injection H as <-; exact Hslope|].
    destruct ((mx <=? tmax) && (tmin <=? mn)); [cbv beta iota; intros H; injection H as <-; exact Hslope|].
    rewrite range_scale_of_class, Ecls.
    assert (Hrs : forall w0, match SlopeInterArrayWriter_range_scale s with
                             | Ok (_, self') => Ok self'
                             | Raise e => Raise e
                             end = Ok w0 -> is_zero (slope w0) = false).
    { intros w0.
      destruct (SlopeInterArrayWriter_range_scale s) as [[[] w']|e] eqn:E; [|discriminate].
      intros H; injection H as <-. apply (SlopeInterArrayWriter_range_scale_nonzero w' E). }
    destruct (Ascii.eqb _ "u"); [|apply Hrs].
    destruct (int_le_scalar _ _ _) as [offset_enough|e]; [|discriminate].
    destruct offset_enough; [cbv beta iota; intros H; injection H as <-; exact Hslope|].
    destruct (_ && _); [cbv beta iota; intros H; injection H as <-; apply sign_flip_nonzero|].
    apply Hrs.
Qed.
End IntegerRange.

Lemma finite_range_of_int a r :
  in_str (kind (dtype_of a)) "iu" = true -> finite_range_of a = Ok r ->
  exists mn mx, r = (NInt mn, NInt mx).
Proof.
  destruct a as [w xs|w xs|f xs|c xs|n xs]; cbn; try discriminate; intros _;
    (destruct xs as [|x xs]; [discriminate|]); intros H; injection H as <-;
    do 2 eexists; reflexivity.
Qed.

Lemma int_kinds a :
  in_str (kind (dtype_of a)) "iu" = true ->
  in_str (kind (dtype_of a)) "iuf" = true
  /\ Ascii.eqb (kind (dtype_of a)) "f" = false.
Proof. destruct (dtype_of a); cbn; try discriminate; split; reflexivity. Qed.

(** [calc_scale] leaves a nonzero slope nonzero on an integer array,
    whatever the scaler. *)
Lemma calc_scale_nonzero force s w :
  cache_ok s ->
  in_str (kind (dtype_of (_array s))) "iu" = true ->
  in_str (kind (_out_dtype s)) "iu" = true ->
  is_zero (_slope s) = false ->
  exec (calc_scale force) s = Ok w ->
  is_zero (slope w) = false.
Proof.
  intros Hc Ha Ho Hz.
  destruct (int_kinds _ Ha) as (Hiuf & Hf).
  destruct (negb force && _scale_calced s) eqn:Ef.
  - unfold exec, calc_scale. rewrite (bind_ok _ _ s s s eq_refl), Ef.
    intros H. injection H as <-. exact Hz.
  - unfold exec. rewrite calc_scale_runs
      by (apply andb_false_iff in Ef; destruct Ef as [Ef|Ef];
          [left; apply negb_false_iff, Ef|right; exact Ef]).
    set (s1 := with_scale_calced s true).
    destruct (can_cast (dtype_of (_array s1)) (_out_dtype s1)) eqn:Ecast.
    + rewrite (bind_ok _ _ _ _ _ (scaling_needed_can_cast s1 Ecast)).
      intros H. injection H as <-. exact Hz.
    + destruct (finite_range_of (_array s1)) as [r|e] eqn:Er.
      * destruct (finite_range_of_int _ _ Ha Er) as (mn & mx & ->).
        destruct (iinfo_int_kind _ Ho) as (tmin & tmax & Hi).
        rewrite (bind_ok _ _ _ _ _
                   (scaling_needed_by_range s1 (NInt mn) (NInt mx) tmin tmax _
                      (finite_range_value s1 _ Hc Er) Ecast Hiuf Ho Hi)).
        destruct (needed_by_range _ _ _ _ _); cbn [negb].
        -- apply (do_scaling_nonzero (cached s1 (NInt mn, NInt mx)) mn mx);
             try assumption; reflexivity.
        -- intros H. injection H as <-. exact Hz.
      * assert (Hraise : scaling_needed s1 = Raise e).
        { unfold scaling_needed. rewrite (bind_ok _ _ s1 s1 s1 eq_refl), Ecast.
          assert (Hk : Ascii.eqb "V" (kind (dtype_of (_array s1))) = false
                       /\ Ascii.eqb "V" (kind (_out_dtype s1)) = false
                       /\ Ascii.eqb (kind (_out_dtype s1)) "c" = false
                       /\ Ascii.eqb (kind (dtype_of (_array s1))) "c" = false
                       /\ Ascii.eqb (kind (_out_dtype s1)) "f" = false).
          { cbn [s1 with_scale_calced _array _out_dtype].
            destruct (dtype_of (_array s)); cbn in Ha; try discriminate;
              destruct (_out_dtype s); cbn in Ho; try discriminate;
              repeat split. }
          destruct Hk as (-> & -> & -> & -> & ->). cbn [orb].
          apply bind_raise. unfold finite_range.
          rewrite (bind_ok _ _ s1 s1 s1 eq_refl).
          destruct (_finite_range s1) as [r|] eqn:Ec.
          - exfalso. unfold cache_ok in Hc.
            change (_finite_range s1) with (_finite_range s) in Ec. rewrite Ec in Hc.
            change (_array s1) with (_array s) in Er. congruence.
          - apply bind_raise. unfold lift. rewrite Er. reflexivity. }
        rewrite (bind_raise _ _ _ _ Hraise). discriminate.
Qed.

(** The same for the constructor of the slope writers. *)
Lemma SlopeArrayWriter_init_as_nonzero k a d calc sc w :
  in_str (kind (dtype_of a)) "iu" = true ->
  in_str (kind (resolve_out_dtype a d)) "iu" = true ->
  SlopeArrayWriter_init_as k a d calc sc = Ok w ->
  is_zero (slope w) = false.
Proof.
  intros Ha Ho.
  destruct (scaling_needed (new_writer k a d sc)) as [[needed s1]|e] eqn:E.
  - rewrite (SlopeArrayWriter_init_as_runs _ _ _ calc _ _ _ E).
    destruct (preserves_scaling_needed _ _ _ E) as (A1 & A2 & A3 & A4 & A5).
    cbn [new_writer cls _array _out_dtype scaler_dtype] in A1, A2, A3, A4.
    specialize (A5 I). rewrite to_scaler_one.
    destruct calc.
    + apply calc_scale_nonzero.
      * exact A5.
      * cbn [with_scale_calced with_slope with_scaler_dtype with_needs_scale _array].
        rewrite A2. exact Ha.
      * cbn [with_scale_calced with_slope with_scaler_dtype with_needs_scale _out_dtype].
        rewrite A3. exact Ho.
      * apply one_nonzero.
    + intros H. injection H as <-. apply one_nonzero.
  - unfold SlopeArrayWriter_init_as, exec. rewrite (bind_raise _ _ _ _ E). discriminate.
Qed.

(** C1, as the claim states it, fails: a float64 array holding 2^-200,
    written as int8, gets the slope 2^-200/127, which underflows to zero in
    float32; both writers complete and store a zero slope (the
    slope-and-intercept writer on [0, 2^-200]). *)
Lemma C1_counterexample :
  (exists w, SlopeArrayWriter_init
               (FloatArray F64 [S754_finite false 4503599627370496 (-252)])
               (Some (Int W8)) true F32 = Ok w
             /\ is_zero (slope w) = true)
  /\ (exists w, SlopeInterArrayWriter_init
                  (FloatArray F64 [S754_zero false;
                                   S754_finite false 4503599627370496 (-252)])
                  (Some (Int W8)) true F32 = Ok w
                /\ is_zero (slope w) = true).
Proof.
  split; eexists; (split; [vm_compute; reflexivity|]); vm_compute; reflexivity.
Qed.

(** C1, amended: for every array of integer element kind and integer target
    kind, and every scaler type, whenever the constructor of a slope writer
    or a later [calc_scale] completes, the stored slope is not zero. *)
Theorem C1_integer_slope_nonzero a d sc w :
  in_str (kind (dtype_of a)) "iu" = true ->
  in_str (kind (resolve_out_dtype a d)) "iu" = true ->
  (exists calc, SlopeArrayWriter_init a d calc sc = Ok w)
  \/ (exists calc, SlopeInterArrayWriter_init a d calc sc = Ok w)
  \/ (exists force,
        calc_scale_later (fun c => SlopeArrayWriter_init a d c sc) force = Ok w)
  \/ (exists force,
        calc_scale_later (fun c => SlopeInterArrayWriter_init a d c sc) force = Ok w) ->
  is_zero (slope w) = false.
Proof.
  intros Ha Ho.
  assert (Hlater : forall w0 force,
            _array w0 = a -> _out_dtype w0 = resolve_out_dtype a d ->
            scaler_dtype w0 = sc -> cache_ok w0 -> is_zero (slope w0) = false ->
            exec (calc_scale force) w0 = Ok w -> is_zero (slope w) = false).
  { intros w0 force E1 E2 E3 Hc Hz. apply calc_scale_nonzero; try assumption.
    - rewrite E1. exact Ha.
    - rewrite E2. exact Ho. }
  assert (Hinter : forall calc w1,
            SlopeInterArrayWriter_init a d calc sc = Ok w1 -> is_zero (slope w1) = false).
  { intros calc w1. unfold SlopeInterArrayWriter_init.
    destruct (SlopeArrayWriter_init_as _ _ _ _ _) as [w0|e] eqn:E; [|discriminate].
    pose proof (SlopeArrayWriter_init_as_nonzero _ _ _ _ _ _ Ha Ho E) as Hz.
    destruct (SlopeArrayWriter_init_as_class _ _ _ _ _ _ E) as (_ & E1 & E2 & E3 & Hc).
    unfold exec at 1. rewrite (bind_ok _ _ _ tt _ eq_refl).
    destruct calc.
    - apply calc_scale_nonzero.
      + exact Hc.
      + cbn [with_inter _array]. rewrite E1. exact Ha.
      + cbn [with_inter _out_dtype]. rewrite E2. exact Ho.
      + exact Hz.
    - intros H. injection H as <-. exact Hz. }
  intros [[calc H]|[[calc H]|[[force H]|[force H]]]].
  - apply (SlopeArrayWriter_init_as_nonzero _ _ _ _ _ _ Ha Ho H).
  - apply (Hinter _ _ H).
  - unfold calc_scale_later, SlopeArrayWriter_init in H.
    destruct (SlopeArrayWriter_init_as _ _ _ _ _) as [w0|e] eqn:E; [|discriminate].
    destruct (SlopeArrayWriter_init_as_class _ _ _ _ _ _ E) as (_ & E1 & E2 & E3 & Hc).
    apply (Hlater w0 force E1 E2 E3 Hc); [|exact H].
    apply (SlopeArrayWriter_init_as_nonzero _ _ _ _ _ _ Ha Ho E).
  - unfold calc_scale_later in H.
    destruct (SlopeInterArrayWriter_init _ _ _ _) as [w0|e] eqn:E; [|discriminate].
    destruct (SlopeInterArrayWriter_init_class _ _ _ _ _ E) as (_ & E1 & E2 & E3 & Hc).
    apply (Hlater w0 force E1 E2 E3 Hc); [|exact H].
    apply (Hinter _ _ E).
Qed.

(** A run of C1: int16 values [-3, 200] written as int8 with a float16
    scaler. *)
Lemma C1_witness :
  exists w, SlopeArrayWriter_init (IntArray W16 [-3; 200]) (Some (Int W8)) true F16 = Ok w
            /\ is_zero (slope w) = false.
Proof.
  eexists. split; [vm_compute; reflexivity|].
  apply (C1_integer_slope_nonzero (IntArray W16 [-3; 200]) (Some (Int W8)) F16).
  - reflexivity.
  - reflexivity.
  - left. exists true. vm_compute. reflexivity.
Defined.

(** ** Integers that the scaler type represents exactly *)

Lemma binary_round_aux_exact prc emx s m e :
  Zpos (digits2_pos m) = prc ->
  emin prc emx <= e -> e <= emx - prc ->
  binary_round_aux prc emx s (Zpos m) e loc_Exact = S754_finite s m e.
Proof.
  intros Hd Hlo Hhi.
  assert (Hs : shr_fexp prc emx (Zpos m) e loc_Exact
               = (Build_shr_record (Zpos m) false false, e)).
  { unfold shr_fexp, fexp. cbn [Zdigits2]. rewrite Hd, Z.max_l by lia.
    replace (prc + e - prc - e) with 0 by lia. reflexivity. }
  unfold binary_round_aux. rewrite Hs.
  cbn [shr_m loc_of_shr_record round_nearest_even]. rewrite Hs. cbn [shr_m].
  apply Z.leb_le in Hhi. rewrite Hhi. reflexivity.
Qed.

Lemma binary_round_exact prc emx s m e :
  Zpos (digits2_pos m) <= prc ->
  emin prc emx <= Zpos (digits2_pos m) + e - prc ->
  Zpos (digits2_pos m) + e <= emx ->
  exists m' e',
    binary_round prc emx s m e = S754_finite s m' e'
    /\ e' <= e /\ Zpos m' = Zpos m * 2 ^ (e - e').
Proof.
  intros Hd Hlo Hhi. unfold binary_round, shl_align.
  assert (Hf : fexp prc emx (Zpos (digits2_pos m) + e) = Zpos (digits2_pos m) + e - prc)
    by (unfold fexp; lia).
  rewrite Hf.
  destruct (Zpos (digits2_pos m) + e - prc - e) as [|k|k] eqn:Ek; try lia.
  - exists m, e. rewrite binary_round_aux_exact by lia.
    rewrite Z.sub_diag. cbn. split; [reflexivity|]. split; lia.
  - exists (Pos.iter xO m k), (Zpos (digits2_pos m) + e - prc).
    rewrite binary_round_aux_exact; rewrite ?digits2_pos_shift; try lia.
    split; [reflexivity|]. split; [lia|].
    rewrite iter_xO_pow. f_equal. f_equal. lia.
Qed.

(** An integer below [2 ^ prec] converts to a float of the same value. *)
Lemma of_int_exact f z :
  Z.abs z < 2 ^ prec f -> num_eqb (NFlt (of_int f z)) (NInt z) = true.
Proof.
  intros Hz. destruct z as [|p|p]; [reflexivity| |];
    unfold of_int; cbn [binary_normalize].
  - assert (Hd : Zpos (digits2_pos p) <= prec f).
    { pose proof (digits2_pos_bounds p) as [Blo _].
      destruct (Z.leb_spec (Zpos (digits2_pos p)) (prec f)); [assumption|].
      exfalso.
      assert (2 ^ prec f <= 2 ^ (Zpos (digits2_pos p) - 1))
        by (apply Z.pow_le_mono_r; lia).
      lia. }
    destruct (binary_round_exact (prec f) (emax f) false p 0 Hd) as (m' & e' & -> & He & Hm).
    + destruct f; unfold emin, prec, emax in *; lia.
    + destruct f; unfold prec, emax in *; lia.
    + unfold num_eqb, num_compare. cbn [num_value cond_Zopp].
      rewrite Z.min_l by lia. rewrite Z.sub_diag, Z.mul_1_r, Hm, Z.compare_refl.
      reflexivity.
  - assert (Hd : Zpos (digits2_pos p) <= prec f).
    { pose proof (digits2_pos_bounds p) as [Blo _].
      destruct (Z.leb_spec (Zpos (digits2_pos p)) (prec f)); [assumption|].
      exfalso.
      assert (2 ^ prec f <= 2 ^ (Zpos (digits2_pos p) - 1))
        by (apply Z.pow_le_mono_r; lia).
      lia. }
    destruct (binary_round_exact (prec f) (emax f) true p 0 Hd) as (m' & e' & -> & He & Hm).
    + destruct f; unfold emin, prec, emax in *; lia.
    + destruct f; unfold prec, emax in *; lia.
    + unfold num_eqb, num_compare. cbn [num_value cond_Zopp].
      rewrite Z.min_l by lia. rewrite Z.sub_diag, Z.mul_1_r.
      replace (Z.neg m') with (- Zpos m') by reflexivity.
      replace (Z.neg p * 2 ^ (0 - e')) with (- (Zpos p * 2 ^ (0 - e')))
        by (change (Z.neg p) with (- Zpos p); lia).
      rewrite Hm, Z.compare_refl. reflexivity.
Qed.

(** ** The pure offset *)

Lemma offset_only_holds sc mn s :
  scaler_dtype s = sc -> _slope s = of_int sc 1 ->
  offset_only sc mn (with_inter s (of_int sc mn)).
Proof.
  intros Hsc Hs. unfold offset_only. cbn [inter slope _inter _slope with_inter to_scaler].
  split; [reflexivity|]. split; [apply of_int_exact|]. split; [exact Hs|].
  rewrite Hs. apply of_int_exact. destruct sc; cbn; lia.
Qed.

Lemma fold_min_max_ordered r x :
  fold_left Z.min r x <= x <= fold_left Z.max r x.
Proof.
  assert (Hmin : forall r x, fold_left Z.min r x <= x).
  { clear. induction r as [|y r IH]; intros x; cbn [fold_left]; [lia|].
    specialize (IH (Z.min x y)). lia. }
  assert (Hmax : forall r x, x <= fold_left Z.max r x).
  { clear. induction r as [|y r IH]; intros x; cbn [fold_left]; [lia|].
    specialize (IH (Z.max x y)). lia. }
  split; [apply Hmin|apply Hmax].
Qed.

Lemma finite_range_of_ordered a mn mx :
  finite_range_of a = Ok (NInt mn, NInt mx) -> mn <= mx.
Proof.
  destruct a as [w xs|w xs|f xs|c xs|n xs]; cbn [finite_range_of]; try discriminate.
  - destruct xs as [|x r]; [discriminate|]. intros H; injection H as <- <-.
    pose proof (fold_min_max_ordered r x). lia.
  - destruct xs as [|x r]; [discriminate|]. intros H; injection H as <- <-.
    pose proof (fold_min_max_ordered r x). lia.
  - destruct (filter is_finite xs); discriminate.
Qed.

(** C5, as the claim states it, fails in two ways.  With a longdouble scaler
    the test [mn2mx <= shared_max] compares a Python integer with a
    longdouble scalar, and raises [TypeError] when the span is 2^63 or more:
    int64 values [-1, 2^63 - 1] written as uint64 meet every condition of
    the claim, and neither the constructor nor a later [calc_scale] sets an
    intercept.  And the intercept is [mn] in scaler precision, not [mn]:
    int32 values [-16777217, -16777200] written as uint8 with a float32
    scaler get the intercept -16777216. *)
Lemma C5_counterexample :
  (in_str (kind (dtype_of (IntArray W64 [-1; 9223372036854775807]))) "iu" = true
   /\ finite_range_of (IntArray W64 [-1; 9223372036854775807])
      = Ok (NInt (-1), NInt 9223372036854775807)
   /\ can_cast (dtype_of (IntArray W64 [-1; 9223372036854775807])) (UInt W64) = false
   /\ ~ (0 <= -1 /\ 9223372036854775807 <= 2 ^ bits W64 - 1)
   /\ shared_range FLD (UInt W64) = Ok (0, 18446744073709551615)
   /\ 9223372036854775807 - -1 <= 18446744073709551615
   /\ SlopeInterArrayWriter_init (IntArray W64 [-1; 9223372036854775807])
        (Some (UInt W64)) true FLD = Raise comparison_error
   /\ (forall force,
         calc_scale_later
           (fun c => SlopeInterArrayWriter_init (IntArray W64 [-1; 9223372036854775807])
                       (Some (UInt W64)) c FLD) force
         = Raise comparison_error))
  /\ (exists wr,
        SlopeInterArrayWriter_init (IntArray W32 [-16777217; -16777200])
          (Some (UInt W8)) true F32 = Ok wr
        /\ inter wr = of_int F32 (-16777216)
        /\ num_eqb (NFlt (inter wr)) (NInt (-16777217)) = false).
Proof.
  split.
  - split; [reflexivity|]. split; [reflexivity|]. split; [reflexivity|].
    split; [lia|]. split; [vm_compute; reflexivity|]. split; [lia|].
    split; [vm_compute; reflexivity|].
    intros force. destruct force; vm_compute; reflexivity.
  - eexists. split; [vm_compute; reflexivity|]. split; vm_compute; reflexivity.
Qed.

(** C5, amended: an integer array that needs scaling for an unsigned target
    and does not already lie in its range, and whose exact span [mx - mn] is
    at most the shared maximum and, with a longdouble scaler, below 2^63,
    gets a pure offset from the slope-and-intercept writer: the intercept is
    [mn] as the setter stores it (equal to [mn] whenever the scaler type
    represents [mn]) and the slope stays 1, whether or not a sign flip would
    also do. *)
Theorem C5_offset_preferred a w sc mn mx smin smax :
  in_str (kind (dtype_of a)) "iu" = true ->
  finite_range_of a = Ok (NInt mn, NInt mx) ->
  can_cast (dtype_of a) (UInt w) = false ->
  ~ (0 <= mn /\ mx <= 2 ^ bits w - 1) ->
  shared_range sc (UInt w) = Ok (smin, smax) ->
  mx - mn <= smax ->
  (sc = FLD -> mx - mn < 2 ^ 63) ->
  (exists wr, SlopeInterArrayWriter_init a (Some (UInt w)) true sc = Ok wr
              /\ offset_only sc mn wr)
  /\ (forall force, exists wr,
        calc_scale_later (fun c => SlopeInterArrayWriter_init a (Some (UInt w)) c sc) force
        = Ok wr
        /\ offset_only sc mn wr).
Proof.
  intros Ha Hr Hcast Hout Hs Hspan Hlong.
  pose proof (finite_range_of_ordered a mn mx Hr) as Hord.
  assert (Hf : Ascii.eqb (kind (dtype_of a)) "f" = false
               /\ in_str (kind (dtype_of a)) "iuf" = true)
    by (destruct (dtype_of a); cbn in Ha; try discriminate; split; reflexivity).
  destruct Hf as (Hf & Harr).
  assert (Hmax : 0 <= 2 ^ bits w - 1) by (destruct w; cbn; lia).
  assert (Hz : (mn =? 0) && (mx =? 0) = false).
  { apply andb_false_iff.
    destruct (Z.eqb_spec mn 0) as [->|]; [right|left; reflexivity].
    destruct (Z.eqb_spec mx 0) as [->|]; [|reflexivity].
    exfalso. apply Hout. lia. }
  assert (Hin : (mx <=? 2 ^ bits w - 1) && (0 <=? mn) = false).
  { apply andb_false_iff. rewrite !Z.leb_gt. lia. }
  assert (Hneed : needed_by_range a (UInt w) (NInt mn, NInt mx) 0 (2 ^ bits w - 1) = true).
  { unfold needed_by_range. rewrite pair_eqb_int_zero, pair_eqb_int_sentinel, Hz, Hf.
    cbn [orb fst snd]. rewrite num_geb_int, num_leb_int, andb_comm, Hin. reflexivity. }
  set (s := ready SlopeInterArrayWriter a (Some (UInt w)) sc (NInt mn, NInt mx) true).
  assert (Hdo : exec _do_scaling s = Ok (with_inter s (of_int sc mn))).
  { unfold exec. rewrite do_scaling_of_class. cbn [cls s ready inited with_scale_calced].
    rewrite (SlopeInterArrayWriter_do_scaling_int s (NInt mn) (NInt mx) smin smax
               eq_refl Hs eq_refl 0 (2 ^ bits w - 1) eq_refl Hf mn mx eq_refl eq_refl).
    rewrite Hz, Hin.
    cbn [_out_dtype scaler_dtype s ready inited with_scale_calced resolve_out_dtype kind
         Ascii.eqb Bool.eqb].
    rewrite int_le_scalar_ok by (intros E; specialize (Hlong E); lia).
    apply Z.leb_le in Hspan. rewrite Hspan. reflexivity. }
  pose proof (SlopeInterArrayWriter_init_inited a (Some (UInt w)) sc (NInt mn, NInt mx)
                0 (2 ^ bits w - 1) Hr Hcast Harr eq_refl eq_refl) as Hinit.
  pose proof (calc_scale_inited SlopeInterArrayWriter a (Some (UInt w)) sc
                (NInt mn, NInt mx) 0 (2 ^ bits w - 1) Hr Hcast Harr eq_refl eq_refl) as Hcalc.
  cbn [resolve_out_dtype] in Hinit, Hcalc. rewrite Hneed in Hinit, Hcalc.
  split; [|intros force]; exists (with_inter s (of_int sc mn));
    (split; [|apply offset_only_holds; reflexivity]).
  - rewrite (Hinit true), (Hcalc false). exact Hdo.
  - unfold calc_scale_later. rewrite (Hinit false), (Hcalc force). exact Hdo.
Qed.

(** A run of C5: int16 values [-200, -3] written as uint8 with a longdouble
    scaler get the offset -200, where a sign flip would do as well. *)
Lemma C5_witness :
  (exists wr, SlopeInterArrayWriter_init (IntArray W16 [-200; -3]) (Some (UInt W8)) true FLD
              = Ok wr
              /\ offset_only FLD (-200) wr)
  /\ (forall force, exists wr,
        calc_scale_later
          (fun c => SlopeInterArrayWriter_init (IntArray W16 [-200; -3]) (Some (UInt W8)) c FLD)
          force
        = Ok wr
        /\ offset_only FLD (-200) wr).
Proof.
  apply (C5_offset_preferred (IntArray W16 [-200; -3]) W8 FLD (-200) (-3) 0 255).
  - reflexivity.
  - reflexivity.
  - reflexivity.
  - lia.
  - reflexivity.
  - lia.
  - intros _. lia.
Defined.

(** * More of the writers *)

(** ** Decisions taken on the types alone *)

Lemma can_cast_refl d : can_cast d d = true.
Proof.
  destruct d as [w|w|f|c|n]; cbn [can_cast];
    try (destruct w; reflexivity); try (destruct f; reflexivity);
    try (destruct c; reflexivity).
  cbn [itemsize]. rewrite Nat.leb_refl. apply orb_true_r.
Qed.

Lemma ArrayWriter_init_runs a d needed s1 :
  scaling_needed (new_writer ArrayWriter a d F32) = Ok (needed, s1) ->
  ArrayWriter_init a d = if needed then Raise cannot_scale else Ok s1.
Proof.
  intros H. unfold ArrayWriter_init, exec. rewrite (bind_ok _ _ _ _ _ H).
  destruct needed; reflexivity.
Qed.

Section TypesDecide.
Variables (a : ndarray) (d : option dtype).
Hypothesis Hfalse : forall s,
  _array s = a -> _out_dtype s = resolve_out_dtype a d ->
  scaling_needed s = Ok (false, s).

Lemma ArrayWriter_init_plain :
  ArrayWriter_init a d = Ok (new_writer ArrayWriter a d F32).
Proof.
  apply (ArrayWriter_init_runs a d false). apply Hfalse; reflexivity.
Qed.

Lemma SlopeArrayWriter_init_as_plain k calc sc :
  SlopeArrayWriter_init_as k a d calc sc = Ok (plain k a d sc calc).
Proof.
  rewrite (SlopeArrayWriter_init_as_runs k a d calc sc false (new_writer k a d sc))
    by (apply Hfalse; reflexivity).
  rewrite to_scaler_one. destruct calc; [|reflexivity].
  unfold exec. rewrite calc_scale_runs by (right; reflexivity).
  erewrite bind_ok by (apply Hfalse; reflexivity). reflexivity.
Qed.

Lemma SlopeInterArrayWriter_init_plain calc sc :
  SlopeInterArrayWriter_init a d calc sc
  = Ok (plain SlopeInterArrayWriter a d sc calc).
Proof.
  unfold SlopeInterArrayWriter_init. rewrite SlopeArrayWriter_init_as_plain.
  unfold exec. rewrite (bind_ok _ _ _ tt _ eq_refl).
  cbn [scaler_dtype plain]. rewrite to_scaler_zero.
  change (with_inter _ _) with (plain SlopeInterArrayWriter a d sc false).
  destruct calc; [|reflexivity].
  rewrite calc_scale_runs by (right; reflexivity).
  erewrite bind_ok by (apply Hfalse; reflexivity). reflexivity.
Qed.
End TypesDecide.

Section TypesRefuse.
Variables (a : ndarray) (d : option dtype) (e : exn).
Hypothesis Hraise : forall s,
  _array s = a -> _out_dtype s = resolve_out_dtype a d ->
  scaling_needed s = Raise e.

Lemma constructors_refuse :
  ArrayWriter_init a d = Raise e
  /\ (forall calc sc, SlopeArrayWriter_init a d calc sc = Raise e)
  /\ (forall calc sc, SlopeInterArrayWriter_init a d calc sc = Raise e).
Proof.
  assert (H : forall k calc sc, SlopeArrayWriter_init_as k a d calc sc = Raise e).
  { intros k calc sc. unfold SlopeArrayWriter_init_as, exec.
    erewrite bind_raise by (apply Hraise; reflexivity). reflexivity. }
  split; [|split]; intros.
  - unfold ArrayWriter_init, exec.
    erewrite bind_raise by (apply Hraise; reflexivity). reflexivity.
  - apply H.
  - unfold SlopeInterArrayWriter_init. rewrite H. reflexivity.
Qed.
End TypesRefuse.

Lemma plain_is_identity k a d sc calced :
  num_eqb (fst (get_slope_inter (plain k a d sc calced))) (NInt 1) = true
  /\ num_eqb (snd (get_slope_inter (plain k a d sc calced))) (NInt 0) = true.
Proof.
  unfold get_slope_inter. cbn [fst snd cls plain slope inter _slope _inter].
  split.
  - destruct (has_slope_attr k); [|reflexivity].
    apply of_int_exact. destruct sc; cbn; lia.
  - destruct (has_inter_attr k); reflexivity.
Qed.

(** X1: when numpy casts the array's type safely to the output type, no
    constructor looks at the data: each returns its writer with nothing
    cached, and the slope writers hold slope 1 and intercept 0. *)
Theorem castable_types_need_no_scaling a d :
  can_cast (dtype_of a) (resolve_out_dtype a d) = true ->
  ArrayWriter_init a d = Ok (new_writer ArrayWriter a d F32)
  /\ (forall calc sc,
        SlopeArrayWriter_init a d calc sc = Ok (plain SlopeArrayWriter a d sc calc)
        /\ SlopeInterArrayWriter_init a d calc sc
           = Ok (plain SlopeInterArrayWriter a d sc calc)).
Proof.
  intros Hc.
  assert (Hfalse : forall s, _array s = a -> _out_dtype s = resolve_out_dtype a d ->
                             scaling_needed s = Ok (false, s)).
  { intros s Ha Ho. apply scaling_needed_can_cast. rewrite Ha, Ho. exact Hc. }
  split; [apply ArrayWriter_init_plain; exact Hfalse|].
  intros calc sc. split.
  - apply SlopeArrayWriter_init_as_plain; exact Hfalse.
  - apply SlopeInterArrayWriter_init_plain; exact Hfalse.
Qed.

(** A run of X1: uint8 data written as int16, whatever the data. *)
Lemma castable_types_need_no_scaling_witness :
  ArrayWriter_init (UIntArray W8 []) (Some (Int W16))
  = Ok (new_writer ArrayWriter (UIntArray W8 []) (Some (Int W16)) F32)
  /\ (forall calc sc,
        SlopeArrayWriter_init (UIntArray W8 []) (Some (Int W16)) calc sc
        = Ok (plain SlopeArrayWriter (UIntArray W8 []) (Some (Int W16)) sc calc)
        /\ SlopeInterArrayWriter_init (UIntArray W8 []) (Some (Int W16)) calc sc
           = Ok (plain SlopeInterArrayWriter (UIntArray W8 []) (Some (Int W16)) sc calc)).
Proof.
  apply (castable_types_need_no_scaling (UIntArray W8 []) (Some (Int W16))).
  reflexivity.
Defined.

Lemma make_array_writer_class data out_type hi hs kw :
  py_eq_bool hi true && py_eq_bool hs false = false ->
  make_array_writer data out_type hi hs kw
  = match class_for hi hs with
    | SlopeInterArrayWriter =>
        SlopeInterArrayWriter_init data out_type (kw_calc kw) (kw_scaler kw)
    | SlopeArrayWriter =>
        SlopeArrayWriter_init data out_type (kw_calc kw) (kw_scaler kw)
    | ArrayWriter => ArrayWriter_init data out_type
    end.
Proof.
  intros H. unfold make_array_writer, class_for. rewrite H.
  destruct (truthy hi); [reflexivity|]. destruct (truthy hs); reflexivity.
Qed.

(** X2: with no output type given the array is written as its own type, and
    the factory then succeeds for every array and every admissible pair of
    flags; the writer is of the class the flags select, and its slope and
    intercept, as [get_slope_inter] reports them, are exactly 1 and 0. *)
Theorem own_type_writer_is_identity data hi hs kw :
  py_eq_bool hi true && py_eq_bool hs false = false ->
  exists w,
    make_array_writer data None hi hs kw = Ok w
    /\ cls w = class_for hi hs
    /\ _array w = data /\ _out_dtype w = dtype_of data
    /\ _finite_range w = None
    /\ num_eqb (fst (get_slope_inter w)) (NInt 1) = true
    /\ num_eqb (snd (get_slope_inter w)) (NInt 0) = true.
Proof.
  intros Hg. rewrite (make_array_writer_class _ _ _ _ _ Hg).
  assert (Hfalse : forall s, _array s = data ->
                             _out_dtype s = resolve_out_dtype data None ->
                             scaling_needed s = Ok (false, s)).
  { intros s Ha Ho. apply scaling_needed_can_cast. rewrite Ha, Ho.
    apply can_cast_refl. }
  destruct (class_for hi hs); eexists.
  - split; [apply ArrayWriter_init_plain; exact Hfalse|].
    repeat split; reflexivity.
  - split; [apply SlopeArrayWriter_init_as_plain; exact Hfalse|].
    repeat split; try reflexivity; apply plain_is_identity.
  - split; [apply SlopeInterArrayWriter_init_plain; exact Hfalse|].
    repeat split; try reflexivity; apply plain_is_identity.
Qed.

(** A run of X2: a void array through the slope-and-intercept writer. *)
Lemma own_type_writer_is_identity_witness :
  exists w,
    make_array_writer (VoidArray 4 [[1; 2; 3; 4]]) None (PyInt 2) (PyBool false)
      (mkKwargs None None) = Ok w
    /\ cls w = class_for (PyInt 2) (PyBool false)
    /\ _array w = VoidArray 4 [[1; 2; 3; 4]]
    /\ _out_dtype w = dtype_of (VoidArray 4 [[1; 2; 3; 4]])
    /\ _finite_range w = None
    /\ num_eqb (fst (get_slope_inter w)) (NInt 1) = true
    /\ num_eqb (snd (get_slope_inter w)) (NInt 0) = true.
Proof.
  apply (own_type_writer_is_identity (VoidArray 4 [[1; 2; 3; 4]]) (PyInt 2)
           (PyBool false) (mkKwargs None None)).
  reflexivity.
Defined.

Lemma scaling_needed_float_target s :
  kind (dtype_of (_array s)) <> "V"%char ->
  in_str (kind (_out_dtype s)) "fc" = true ->
  (kind (dtype_of (_array s)) = "c"%char -> kind (_out_dtype s) = "c"%char) ->
  scaling_needed s = Ok (false, s).
Proof.
  intros Hv Ho Hc. unfold scaling_needed.
  rewrite (bind_ok _ _ s s s eq_refl).
  destruct (can_cast _ _); [reflexivity|].
  destruct (dtype_of (_array s)) as [w|w|f|c|n]; cbn [kind] in *;
    try (exfalso; apply Hv; reflexivity);
    destruct (_out_dtype s) as [w'|w'|f'|c'|n']; cbn [kind] in *;
    try discriminate Ho; try reflexivity.
  specialize (Hc eq_refl). discriminate Hc.
Qed.

(** X3: a floating point or complex output type never needs scaling: for a
    numeric array (and not a complex one written as a real float) every
    constructor succeeds without looking at the data, with slope 1 and
    intercept 0, whether or not numpy regards the cast as safe. *)
Theorem float_target_needs_no_scaling a d :
  kind (dtype_of a) <> "V"%char ->
  in_str (kind (resolve_out_dtype a d)) "fc" = true ->
  (kind (dtype_of a) = "c"%char -> kind (resolve_out_dtype a d) = "c"%char) ->
  ArrayWriter_init a d = Ok (new_writer ArrayWriter a d F32)
  /\ (forall calc sc,
        SlopeArrayWriter_init a d calc sc = Ok (plain SlopeArrayWriter a d sc calc)
        /\ SlopeInterArrayWriter_init a d calc sc
           = Ok (plain SlopeInterArrayWriter a d sc calc)).
Proof.
  intros Hv Ho Hc.
  assert (Hfalse : forall s, _array s = a -> _out_dtype s = resolve_out_dtype a d ->
                             scaling_needed s = Ok (false, s)).
  { intros s Ha Hd. apply scaling_needed_float_target; rewrite ?Ha, ?Hd; assumption. }
  split; [apply ArrayWriter_init_plain; exact Hfalse|].
  intros calc sc. split.
  - apply SlopeArrayWriter_init_as_plain; exact Hfalse.
  - apply SlopeInterArrayWriter_init_plain; exact Hfalse.
Qed.

(** A run of X3: float64 data, infinities included, written as float16. *)
Lemma float_target_needs_no_scaling_witness :
  ArrayWriter_init (FloatArray F64 [two_to_1000; S754_infinity true]) (Some (Float F16))
  = Ok (new_writer ArrayWriter (FloatArray F64 [two_to_1000; S754_infinity true])
          (Some (Float F16)) F32)
  /\ (forall calc sc,
        SlopeArrayWriter_init (FloatArray F64 [two_to_1000; S754_infinity true])
          (Some (Float F16)) calc sc
        = Ok (plain SlopeArrayWriter (FloatArray F64 [two_to_1000; S754_infinity true])
                (Some (Float F16)) sc calc)
        /\ SlopeInterArrayWriter_init (FloatArray F64 [two_to_1000; S754_infinity true])
             (Some (Float F16)) calc sc
           = Ok (plain SlopeInterArrayWriter
                   (FloatArray F64 [two_to_1000; S754_infinity true])
                   (Some (Float F16)) sc calc)).
Proof.
  apply (float_target_needs_no_scaling
           (FloatArray F64 [two_to_1000; S754_infinity true]) (Some (Float F16))).
  - discriminate.
  - reflexivity.
  - discriminate.
Defined.

Lemma scaling_needed_complex_to_real s :
  kind (dtype_of (_array s)) = "c"%char ->
  in_str (kind (_out_dtype s)) "iuf" = true ->
  scaling_needed s = Raise complex_to_real.
Proof.
  intros Ha Ho. unfold scaling_needed.
  rewrite (bind_ok _ _ s s s eq_refl).
  destruct (dtype_of (_array s)) as [w|w|f|c|n]; cbn [kind] in Ha;
    try discriminate Ha.
  destruct (_out_dtype s) as [w'|w'|f'|c'|n']; cbn [kind] in Ho;
    try discriminate Ho; reflexivity.
Qed.

(** X4: a complex array cannot be written as an integer or real floating
    point type: every constructor, and the factory with any admissible
    flags, raises the [WriterError] that says so, whatever the data. *)
Theorem complex_to_real_refused a d :
  kind (dtype_of a) = "c"%char ->
  in_str (kind (resolve_out_dtype a d)) "iuf" = true ->
  ArrayWriter_init a d = Raise complex_to_real
  /\ (forall calc sc, SlopeArrayWriter_init a d calc sc = Raise complex_to_real)
  /\ (forall calc sc, SlopeInterArrayWriter_init a d calc sc = Raise complex_to_real)
  /\ (forall hi hs kw,
        py_eq_bool hi true && py_eq_bool hs false = false ->
        make_array_writer a d hi hs kw = Raise complex_to_real)
  /\ is_WriterError complex_to_real = true
  /\ is_ScalingError complex_to_real = false.
Proof.
  intros Ha Ho.
  assert (Hraise : forall s, _array s = a -> _out_dtype s = resolve_out_dtype a d ->
                             scaling_needed s = Raise complex_to_real).
  { intros s Hs Hd. apply scaling_needed_complex_to_real; rewrite ?Hs, ?Hd; assumption. }
  destruct (constructors_refuse a d complex_to_real Hraise) as (H1 & H2 & H3).
  split; [exact H1|]. split; [exact H2|]. split; [exact H3|].
  split; [|split; reflexivity].
  intros hi hs kw Hg. rewrite (make_array_writer_class _ _ _ _ _ Hg).
  destruct (class_for hi hs); [apply H1|apply H2|apply H3].
Qed.

(** A run of X4: complex64 data written as float64. *)
Lemma complex_to_real_refused_witness :
  ArrayWriter_init (ComplexArray C64 []) (Some (Float F64)) = Raise complex_to_real
  /\ (forall calc sc,
        SlopeArrayWriter_init (ComplexArray C64 []) (Some (Float F64)) calc sc
        = Raise complex_to_real)
  /\ (forall calc sc,
        SlopeInterArrayWriter_init (ComplexArray C64 []) (Some (Float F64)) calc sc
        = Raise complex_to_real)
  /\ (forall hi hs kw,
        py_eq_bool hi true && py_eq_bool hs false = false ->
        make_array_writer (ComplexArray C64 []) (Some (Float F64)) hi hs kw
        = Raise complex_to_real)
  /\ is_WriterError complex_to_real = true
  /\ is_ScalingError complex_to_real = false.
Proof.
  apply (complex_to_real_refused (ComplexArray C64 []) (Some (Float F64)));
    reflexivity.
Defined.

(** ** Ranges and elements *)

Lemma fold_min_glb lo r x :
  (lo <=? fold_left Z.min r x) = (lo <=? x) && forallb (fun z => lo <=? z) r.
Proof.
  revert x. induction r as [|y r IH]; intros x; cbn [fold_left forallb].
  - rewrite andb_true_r. reflexivity.
  - rewrite IH, andb_assoc. f_equal.
    destruct (Z.leb_spec lo (Z.min x y)), (Z.leb_spec lo x), (Z.leb_spec lo y);
      try reflexivity; lia.
Qed.

Lemma fold_max_lub hi r x :
  (fold_left Z.max r x <=? hi) = (x <=? hi) && forallb (fun z => z <=? hi) r.
Proof.
  revert x. induction r as [|y r IH]; intros x; cbn [fold_left forallb].
  - rewrite andb_true_r. reflexivity.
  - rewrite IH, andb_assoc. f_equal.
    destruct (Z.leb_spec (Z.max x y) hi), (Z.leb_spec x hi), (Z.leb_spec y hi);
      try reflexivity; lia.
Qed.

Lemma forallb_andb {A} (p q : A -> bool) xs :
  forallb (fun z => p z && q z) xs = forallb p xs && forallb q xs.
Proof.
  induction xs as [|x xs IH]; cbn [forallb]; [reflexivity|].
  rewrite IH. destruct (p x), (q x), (forallb p xs); reflexivity.
Qed.

(** The range of an integer array lies in [lo, hi] exactly when every
    element does. *)
Lemma int_range_elements a r lo hi :
  in_str (kind (dtype_of a)) "iu" = true ->
  finite_range_of a = Ok r ->
  exists mn mx, r = (NInt mn, NInt mx)
    /\ mn <= mx
    /\ (lo <=? mn) && (mx <=? hi) = all_within lo hi a.
Proof.
  intros Hk Hr. unfold all_within.
  assert (H : exists x xs, int_elements a = x :: xs
              /\ r = (NInt (fold_left Z.min xs x), NInt (fold_left Z.max xs x))).
  { destruct a as [w xs|w xs|f xs|c xs|n xs]; cbn in Hk; try discriminate;
      cbn in Hr; destruct xs as [|x xs]; try discriminate;
      injection Hr as <-; exists x, xs; split; reflexivity. }
  destruct H as (x & xs & -> & ->). do 2 eexists. split; [reflexivity|].
  split.
  - pose proof (fold_min_glb (fold_left Z.min xs x) xs x) as H1.
    pose proof (fold_max_lub (fold_left Z.max xs x) xs x) as H2.
    rewrite Z.leb_refl in H1, H2. symmetry in H1, H2.
    apply andb_true_iff in H1, H2. destruct H1 as [H1 _], H2 as [H2 _].
    apply Z.leb_le in H1, H2. lia.
  - rewrite fold_min_glb, fold_max_lub, forallb_andb. cbn [forallb].
    destruct (lo <=? x), (x <=? hi), (forallb (fun z => lo <=? z) xs);
      reflexivity.
Qed.

Lemma iinfo_bounds d tmin tmax :
  iinfo d = Ok (tmin, tmax) ->
  in_str (kind d) "iu" = true /\ tmin <= 0 <= tmax.
Proof.
  destruct d as [w|w|f|c|n]; cbn [iinfo]; try discriminate;
    intros H; injection H as <- <-; (split; [reflexivity|]).
  - assert (0 < 2 ^ bits w) by (destruct w; reflexivity). lia.
  - assert (0 < 2 ^ (bits w - 1)) by (destruct w; reflexivity). lia.
Qed.

Lemma needed_by_range_int a out mn mx tmin tmax :
  in_str (kind (dtype_of a)) "iu" = true ->
  tmin <= 0 <= tmax ->
  needed_by_range a out (NInt mn, NInt mx) tmin tmax
  = negb ((tmin <=? mn) && (mx <=? tmax)).
Proof.
  intros Hk Hb. unfold needed_by_range.
  rewrite pair_eqb_int_zero, pair_eqb_int_sentinel, orb_false_r.
  assert (Hf : Ascii.eqb (kind (dtype_of a)) "f" = false)
    by (destruct (dtype_of a); cbn in Hk; try discriminate; reflexivity).
  rewrite Hf. cbn [fst snd]. rewrite num_geb_int, num_leb_int.
  destruct (Z.eqb_spec mn 0) as [->|]; [|reflexivity].
  destruct (Z.eqb_spec mx 0) as [->|]; [|reflexivity].
  cbn [andb]. destruct (Z.leb_spec tmin 0), (Z.leb_spec 0 tmax); try reflexivity; lia.
Qed.

Lemma int_kind_iuf a :
  in_str (kind (dtype_of a)) "iu" = true -> in_str (kind (dtype_of a)) "iuf" = true.
Proof. destruct (dtype_of a); cbn; try discriminate; reflexivity. Qed.

(** X5: between integer types that numpy does not cast safely, the plain
    writer can be built exactly when every element of the array lies in the
    range of the output type; otherwise construction raises [WriterError]
    "Scaling needed but cannot scale". *)
Theorem ArrayWriter_init_integers a d r tmin tmax :
  in_str (kind (dtype_of a)) "iu" = true ->
  finite_range_of a = Ok r ->
  can_cast (dtype_of a) (resolve_out_dtype a d) = false ->
  iinfo (resolve_out_dtype a d) = Ok (tmin, tmax) ->
  ArrayWriter_init a d
  = if all_within tmin tmax a
    then Ok (cached (new_writer ArrayWriter a d F32) r)
    else Raise cannot_scale.
Proof.
  intros Hk Hr Hcast Hi.
  destruct (iinfo_bounds _ _ _ Hi) as (Ho & Hb).
  destruct (int_range_elements a r tmin tmax Hk Hr) as (mn & mx & -> & _ & <-).
  rewrite (ArrayWriter_init_runs a d _ _
             (scaling_needed_new ArrayWriter a d F32 _ tmin tmax Hr Hcast
                (int_kind_iuf a Hk) Ho Hi)).
  rewrite (needed_by_range_int a _ mn mx tmin tmax Hk Hb).
  destruct ((tmin <=? mn) && (mx <=? tmax)); reflexivity.
Qed.

(** A run of X5: int16 values [-3, 200] do not fit uint8. *)
Lemma ArrayWriter_init_integers_witness :
  ArrayWriter_init (IntArray W16 [-3; 200]) (Some (UInt W8))
  = if all_within 0 (2 ^ bits W8 - 1) (IntArray W16 [-3; 200])
    then Ok (cached (new_writer ArrayWriter (IntArray W16 [-3; 200]) (Some (UInt W8)) F32)
               (NInt (-3), NInt 200))
    else Raise cannot_scale.
Proof.
  apply (ArrayWriter_init_integers (IntArray W16 [-3; 200]) (Some (UInt W8))
           (NInt (-3), NInt 200) 0 (2 ^ bits W8 - 1)); reflexivity.
Defined.

Section NotNeeded.
Variables (a : ndarray) (d : option dtype) (sc : fwidth).
Variables (r : num * num) (tmin tmax : Z).
Hypothesis Hrange : finite_range_of a = Ok r.
Hypothesis Hcast : can_cast (dtype_of a) (resolve_out_dtype a d) = false.
Hypothesis Harr : in_str (kind (dtype_of a)) "iuf" = true.
Hypothesis Hinfo : iinfo (resolve_out_dtype a d) = Ok (tmin, tmax).
Hypothesis Hneed : needed_by_range a (resolve_out_dtype a d) r tmin tmax = false.

Lemma SlopeArrayWriter_init_as_not_needed k calc :
  SlopeArrayWriter_init_as k a d calc sc
  = Ok (with_scale_calced (inited k a d sc r false) calc).
Proof.
  destruct (iinfo_bounds _ _ _ Hinfo) as (Hout & _).
  destruct calc.
  - rewrite (SlopeArrayWriter_init_as_ready k a d sc r tmin tmax Hrange Hcast Harr
               Hout Hinfo).
    rewrite Hneed. reflexivity.
  - rewrite (SlopeArrayWriter_init_as_inited k a d sc r tmin tmax Hrange Hcast Harr
               Hout Hinfo).
    rewrite Hneed. reflexivity.
Qed.

Lemma SlopeInterArrayWriter_init_not_needed calc :
  SlopeInterArrayWriter_init a d calc sc
  = Ok (with_scale_calced (inited SlopeInterArrayWriter a d sc r false) calc).
Proof.
  destruct (iinfo_bounds _ _ _ Hinfo) as (Hout & _).
  rewrite (SlopeInterArrayWriter_init_inited a d sc r tmin tmax Hrange Hcast Harr
             Hout Hinfo).
  rewrite Hneed. destruct calc; [|reflexivity].
  pose proof (calc_scale_inited SlopeInterArrayWriter a d sc r tmin tmax Hrange Hcast
                Harr Hout Hinfo false) as H.
  rewrite Hneed in H. exact H.
Qed.
End NotNeeded.

Lemma inited_is_identity k a d sc r calced :
  num_eqb (fst (get_slope_inter (with_scale_calced (inited k a d sc r false) calced)))
          (NInt 1) = true
  /\ num_eqb (snd (get_slope_inter (with_scale_calced (inited k a d sc r false) calced)))
             (NInt 0) = true.
Proof.
  unfold get_slope_inter.
  cbn [fst snd cls inited with_scale_calced slope inter _slope _inter].
  split.
  - destruct (has_slope_attr k); [|reflexivity].
    apply of_int_exact. destruct sc; cbn; lia.
  - destruct (has_inter_attr k); reflexivity.
Qed.

(** X6: when every element of an integer array lies in the range of an
    integer output type, the slope writers compute no scaling even though
    numpy does not cast the types safely: both constructors succeed for any
    scaler and either value of [calc_scale], record that no scaling is
    needed, and leave slope 1 and intercept 0. *)
Theorem integers_in_range_are_not_scaled a d r tmin tmax calc sc :
  in_str (kind (dtype_of a)) "iu" = true ->
  finite_range_of a = Ok r ->
  can_cast (dtype_of a) (resolve_out_dtype a d) = false ->
  iinfo (resolve_out_dtype a d) = Ok (tmin, tmax) ->
  all_within tmin tmax a = true ->
    (exists w, SlopeArrayWriter_init a d calc sc = Ok w
       /\ needs_scale w = false /\ slope w = of_int sc 1
       /\ num_eqb (fst (get_slope_inter w)) (NInt 1) = true
       /\ num_eqb (snd (get_slope_inter w)) (NInt 0) = true)
    /\ (exists w, SlopeInterArrayWriter_init a d calc sc = Ok w
       /\ needs_scale w = false /\ slope w = of_int sc 1
       /\ inter w = S754_zero false
       /\ num_eqb (fst (get_slope_inter w)) (NInt 1) = true
       /\ num_eqb (snd (get_slope_inter w)) (NInt 0) = true).
Proof.
  intros Hk Hr Hcast Hi Hall.
  destruct (iinfo_bounds _ _ _ Hi) as (Ho & Hb).
  destruct (int_range_elements a r tmin tmax Hk Hr) as (mn & mx & -> & _ & Hin).
  rewrite Hall in Hin.
  assert (Hneed : needed_by_range a (resolve_out_dtype a d) (NInt mn, NInt mx) tmin tmax
                  = false)
    by (rewrite (needed_by_range_int a _ mn mx tmin tmax Hk Hb), Hin; reflexivity).
  split; eexists.
  - split; [apply (SlopeArrayWriter_init_as_not_needed a d sc _ tmin tmax Hr Hcast
                     (int_kind_iuf a Hk) Hi Hneed)|].
    split; [reflexivity|]. split; [reflexivity|]. apply inited_is_identity.
  - split; [apply (SlopeInterArrayWriter_init_not_needed a d sc _ tmin tmax Hr Hcast
                     (int_kind_iuf a Hk) Hi Hneed)|].
    split; [reflexivity|]. split; [reflexivity|]. split; [reflexivity|].
    apply inited_is_identity.
Qed.

(** A run of X6: uint16 values [3, 200] written as uint8. *)
Lemma integers_in_range_are_not_scaled_witness :
  (exists w, SlopeArrayWriter_init (UIntArray W16 [3; 200]) (Some (UInt W8)) true F32 = Ok w
     /\ needs_scale w = false /\ slope w = of_int F32 1
     /\ num_eqb (fst (get_slope_inter w)) (NInt 1) = true
     /\ num_eqb (snd (get_slope_inter w)) (NInt 0) = true)
  /\ (exists w, SlopeInterArrayWriter_init (UIntArray W16 [3; 200]) (Some (UInt W8)) true F32
                = Ok w
     /\ needs_scale w = false /\ slope w = of_int F32 1
     /\ inter w = S754_zero false
     /\ num_eqb (fst (get_slope_inter w)) (NInt 1) = true
     /\ num_eqb (snd (get_slope_inter w)) (NInt 0) = true).
Proof.
  apply (integers_in_range_are_not_scaled (UIntArray W16 [3; 200]) (Some (UInt W8))
           (NInt 3, NInt 200) 0 (2 ^ bits W8 - 1) true F32); reflexivity.
Defined.

(** ** Float arrays without a value to scale *)

Ltac sign_cmp :=
  cbn [num_value cond_Zopp];
  match goal with
  | |- context [Z.compare (?x * 2 ^ ?k1) (?y * 2 ^ ?k2)] =>
      let H1 := fresh in
      let H2 := fresh in
      assert (H1 : 0 < 2 ^ k1) by (apply Z.pow_pos_nonneg; lia);
      assert (H2 : 0 < 2 ^ k2) by (apply Z.pow_pos_nonneg; lia);
      destruct (Z.compare_spec (x * 2 ^ k1) (y * 2 ^ k2));
      try reflexivity; exfalso; nia
  end.

Lemma fmax_positive a b :
  is_finite a = true -> is_finite b = true ->
  positive (fmax a b) = positive a || positive b.
Proof.
  intros Ha Hb. unfold fmax, num_ltb, num_compare.
  destruct a as [sa|sa| |[] ma ea]; try discriminate Ha;
    destruct b as [sb|sb| |[] mb eb]; try discriminate Hb;
    try (cbn [num_value cond_Zopp];
         match goal with
         | |- context [Z.compare ?x ?y] => destruct (Z.compare x y); reflexivity
         end);
    sign_cmp.
Qed.

Lemma fmin_negative a b :
  is_finite a = true -> is_finite b = true ->
  negative (fmin a b) = negative a || negative b.
Proof.
  intros Ha Hb. unfold fmin, num_ltb, num_compare.
  destruct a as [sa|sa| |[] ma ea]; try discriminate Ha;
    destruct b as [sb|sb| |[] mb eb]; try discriminate Hb;
    try (cbn [num_value cond_Zopp];
         match goal with
         | |- context [Z.compare ?x ?y] => destruct (Z.compare x y); reflexivity
         end);
    sign_cmp.
Qed.

Lemma fmin_cases a b : fmin a b = a \/ fmin a b = b.
Proof. unfold fmin. destruct (num_ltb _ _); [right|left]; reflexivity. Qed.

Lemma fmax_cases a b : fmax a b = a \/ fmax a b = b.
Proof. unfold fmax. destruct (num_ltb _ _); [right|left]; reflexivity. Qed.

Lemma fold_fmin_in r x : In (fold_left fmin r x) (x :: r).
Proof.
  revert x. induction r as [|y r IH]; intros x; cbn [fold_left]; [left; reflexivity|].
  destruct (IH (fmin x y)) as [H|H].
  - rewrite <- H. destruct (fmin_cases x y) as [-> | ->];
      [left; reflexivity|right; left; reflexivity].
  - right; right; exact H.
Qed.

Lemma fold_fmax_in r x : In (fold_left fmax r x) (x :: r).
Proof.
  revert x. induction r as [|y r IH]; intros x; cbn [fold_left]; [left; reflexivity|].
  destruct (IH (fmax x y)) as [H|H].
  - rewrite <- H. destruct (fmax_cases x y) as [-> | ->];
      [left; reflexivity|right; left; reflexivity].
  - right; right; exact H.
Qed.

Lemma fold_fmax_positive r x :
  is_finite x = true -> forallb is_finite r = true ->
  positive (fold_left fmax r x) = positive x || existsb positive r.
Proof.
  revert x. induction r as [|y r IH]; intros x Hx Hr; cbn [fold_left existsb].
  - rewrite orb_false_r. reflexivity.
  - cbn [forallb] in Hr. apply andb_true_iff in Hr. destruct Hr as [Hy Hr].
    rewrite IH; [|destruct (fmax_cases x y) as [-> | ->]; assumption|exact Hr].
    rewrite fmax_positive by assumption. symmetry. apply orb_assoc.
Qed.

Lemma fold_fmin_negative r x :
  is_finite x = true -> forallb is_finite r = true ->
  negative (fold_left fmin r x) = negative x || existsb negative r.
Proof.
  revert x. induction r as [|y r IH]; intros x Hx Hr; cbn [fold_left existsb].
  - rewrite orb_false_r. reflexivity.
  - cbn [forallb] in Hr. apply andb_true_iff in Hr. destruct Hr as [Hy Hr].
    rewrite IH; [|destruct (fmin_cases x y) as [-> | ->]; assumption|exact Hr].
    rewrite fmin_negative by assumption. symmetry. apply orb_assoc.
Qed.

Lemma finite_filter xs : forallb is_finite (filter is_finite xs) = true.
Proof.
  induction xs as [|x xs IH]; cbn [filter]; [reflexivity|].
  destruct (is_finite x) eqn:E; [cbn [forallb]; rewrite E|]; exact IH.
Qed.

Lemma no_nonzero_finite_filter xs :
  no_nonzero_finite xs = forallb is_zero (filter is_finite xs).
Proof.
  unfold no_nonzero_finite.
  induction xs as [|x xs IH]; cbn [filter forallb]; [reflexivity|].
  rewrite IH. destruct (is_finite x); reflexivity.
Qed.

Lemma finite_num_eqb x :
  is_finite x = true ->
  num_eqb (NFlt x) (NInt 0) = is_zero x /\ num_eqb (NFlt x) np_inf = false.
Proof.
  intros Hx. unfold num_eqb, num_compare.
  destruct x as [s|s| |[] m e]; try discriminate Hx; split; try reflexivity;
    sign_cmp.
Qed.

Lemma all_zero_signs l :
  forallb is_finite l = true ->
  forallb is_zero l = negb (existsb positive l) && negb (existsb negative l).
Proof.
  induction l as [|x l IH]; cbn [forallb existsb]; [reflexivity|].
  intros H. apply andb_true_iff in H. destruct H as [Hx Hl].
  rewrite (IH Hl).
  destruct x as [s|s| |[] m e]; try discriminate Hx; cbn [is_zero positive negative orb andb negb];
    try reflexivity.
  destruct (existsb positive l); reflexivity.
Qed.

(** The range of a float array is (0, 0) or the sentinel exactly when no
    element is finite and different from zero. *)
Lemma float_range_without_values f xs :
  exists r, finite_range_of (FloatArray f xs) = Ok r
    /\ pair_eqb r (NInt 0, NInt 0) || pair_eqb r (np_inf, np_ninf)
       = no_nonzero_finite xs.
Proof.
  rewrite no_nonzero_finite_filter. cbn [finite_range_of].
  pose proof (finite_filter xs) as Hfin.
  destruct (filter is_finite xs) as [|y r]; eexists; (split; [reflexivity|]);
    [reflexivity|].
  assert (Hmn : is_finite (fold_left fmin r y) = true).
  { rewrite forallb_forall in Hfin. apply Hfin, fold_fmin_in. }
  assert (Hmx : is_finite (fold_left fmax r y) = true).
  { rewrite forallb_forall in Hfin. apply Hfin, fold_fmax_in. }
  unfold pair_eqb. cbn [fst snd].
  destruct (finite_num_eqb _ Hmn) as (-> & ->).
  destruct (finite_num_eqb _ Hmx) as (-> & _).
  cbn [andb]. rewrite orb_false_r.
  destruct (forallb is_zero (y :: r)) eqn:Ez.
  - rewrite forallb_forall in Ez.
    rewrite (Ez _ (fold_fmin_in r y)), (Ez _ (fold_fmax_in r y)). reflexivity.
  - rewrite (all_zero_signs _ Hfin) in Ez.
    cbn [forallb] in Hfin. apply andb_true_iff in Hfin. destruct Hfin as [Hy Hr].
    pose proof (fold_fmax_positive r y Hy Hr) as Hp.
    pose proof (fold_fmin_negative r y Hy Hr) as Hn.
    cbn [existsb] in Ez.
    destruct (positive y || existsb positive r).
    + destruct (fold_left fmax r y) as [s|s| |[] m e]; try discriminate Hp.
      apply andb_false_r.
    + cbn [negb andb] in Ez. apply negb_false_iff in Ez. rewrite Ez in Hn.
      destruct (fold_left fmin r y) as [s|s| |[] m e]; try discriminate Hn.
      reflexivity.
Qed.

Lemma float_to_int_kinds f xs d :
  in_str (kind (resolve_out_dtype (FloatArray f xs) d)) "iu" = true ->
  can_cast (dtype_of (FloatArray f xs)) (resolve_out_dtype (FloatArray f xs) d) = false
  /\ exists tmin tmax, iinfo (resolve_out_dtype (FloatArray f xs) d) = Ok (tmin, tmax).
Proof.
  intros Ho. split; [|apply iinfo_int_kind; exact Ho].
  destruct (resolve_out_dtype _ _); cbn in Ho; try discriminate; reflexivity.
Qed.

Lemma needed_by_range_float f xs out r tmin tmax :
  needed_by_range (FloatArray f xs) out r tmin tmax
  = negb (pair_eqb r (NInt 0, NInt 0) || pair_eqb r (np_inf, np_ninf)).
Proof. unfold needed_by_range. destruct (_ || _); reflexivity. Qed.

(** X7: the plain writer can write a float array as an integer type exactly
    when the array has no finite element other than zero (all zeros, NaNs and
    infinities); with any other finite element construction raises
    [WriterError] "Scaling needed but cannot scale". *)
Theorem ArrayWriter_init_floats f xs d :
  in_str (kind (resolve_out_dtype (FloatArray f xs) d)) "iu" = true ->
  exists r,
    finite_range_of (FloatArray f xs) = Ok r
    /\ ArrayWriter_init (FloatArray f xs) d
       = if no_nonzero_finite xs
         then Ok (cached (new_writer ArrayWriter (FloatArray f xs) d F32) r)
         else Raise cannot_scale.
Proof.
  intros Ho. destruct (float_range_without_values f xs) as (r & Hr & Hz).
  destruct (float_to_int_kinds f xs d Ho) as (Hcast & tmin & tmax & Hi).
  exists r. split; [exact Hr|].
  rewrite (ArrayWriter_init_runs _ d _ _
             (scaling_needed_new ArrayWriter _ d F32 r tmin tmax Hr Hcast eq_refl Ho Hi)).
  rewrite needed_by_range_float, Hz.
  destruct (no_nonzero_finite xs); reflexivity.
Qed.

(** A run of X7: a float32 array of a NaN and a zero, written as int16. *)
Lemma ArrayWriter_init_floats_witness :
  exists r,
    finite_range_of (FloatArray F32 [S754_nan; S754_zero true]) = Ok r
    /\ ArrayWriter_init (FloatArray F32 [S754_nan; S754_zero true]) (Some (Int W16))
       = if no_nonzero_finite [S754_nan; S754_zero true]
         then Ok (cached (new_writer ArrayWriter (FloatArray F32 [S754_nan; S754_zero true])
                            (Some (Int W16)) F32) r)
         else Raise cannot_scale.
Proof.
  apply (ArrayWriter_init_floats F32 [S754_nan; S754_zero true] (Some (Int W16))).
  reflexivity.
Defined.

(** X8: on a float array without a finite element other than zero the slope
    writers, asked for an integer type, compute no scaling: both
    constructors succeed for any scaler and either value of [calc_scale],
    record that no scaling is needed, and leave slope 1 and intercept 0. *)
Theorem floats_without_values_are_not_scaled f xs d calc sc :
  in_str (kind (resolve_out_dtype (FloatArray f xs) d)) "iu" = true ->
  no_nonzero_finite xs = true ->
    (exists w, SlopeArrayWriter_init (FloatArray f xs) d calc sc = Ok w
       /\ needs_scale w = false /\ slope w = of_int sc 1
       /\ num_eqb (fst (get_slope_inter w)) (NInt 1) = true
       /\ num_eqb (snd (get_slope_inter w)) (NInt 0) = true)
    /\ (exists w, SlopeInterArrayWriter_init (FloatArray f xs) d calc sc = Ok w
       /\ needs_scale w = false /\ slope w = of_int sc 1
       /\ inter w = S754_zero false
       /\ num_eqb (fst (get_slope_inter w)) (NInt 1) = true
       /\ num_eqb (snd (get_slope_inter w)) (NInt 0) = true).
Proof.
  intros Ho Hall.
  destruct (float_range_without_values f xs) as (r & Hr & Hz).
  destruct (float_to_int_kinds f xs d Ho) as (Hcast & tmin & tmax & Hi).
  assert (Hneed : needed_by_range (FloatArray f xs)
                    (resolve_out_dtype (FloatArray f xs) d) r tmin tmax = false)
    by (rewrite needed_by_range_float, Hz, Hall; reflexivity).
  split; eexists.
  - split; [apply (SlopeArrayWriter_init_as_not_needed _ d sc r tmin tmax Hr Hcast
                     eq_refl Hi Hneed)|].
    split; [reflexivity|]. split; [reflexivity|]. apply inited_is_identity.
  - split; [apply (SlopeInterArrayWriter_init_not_needed _ d sc r tmin tmax Hr Hcast
                     eq_refl Hi Hneed)|].
    split; [reflexivity|]. split; [reflexivity|]. split; [reflexivity|].
    apply inited_is_identity.
Qed.

(** A run of X8: a float64 array of an infinity and a NaN, written as
    uint8. *)
Lemma floats_without_values_are_not_scaled_witness :
  (exists w, SlopeArrayWriter_init (FloatArray F64 [S754_infinity false; S754_nan])
               (Some (UInt W8)) true F32 = Ok w
     /\ needs_scale w = false /\ slope w = of_int F32 1
     /\ num_eqb (fst (get_slope_inter w)) (NInt 1) = true
     /\ num_eqb (snd (get_slope_inter w)) (NInt 0) = true)
  /\ (exists w, SlopeInterArrayWriter_init (FloatArray F64 [S754_infinity false; S754_nan])
                  (Some (UInt W8)) true F32 = Ok w
     /\ needs_scale w = false /\ slope w = of_int F32 1
     /\ inter w = S754_zero false
     /\ num_eqb (fst (get_slope_inter w)) (NInt 1) = true
     /\ num_eqb (snd (get_slope_inter w)) (NInt 0) = true).
Proof.
  apply (floats_without_values_are_not_scaled F64 [S754_infinity false; S754_nan]
           (Some (UInt W8)) true F32); reflexivity.
Defined.

(** ** The shared range lies within the output type *)

Lemma floor_exact_le f n : 0 <= n -> 0 <= floor_exact f n <= n.
Proof.
  intros Hn. unfold floor_exact.
  destruct (Z.leb_spec (Z.log2 n + 1) (prec f)) as [|Hd]; [lia|].
  rewrite Z.shiftl_mul_pow2, Z.shiftr_div_pow2 by lia.
  assert (Hp : 0 < 2 ^ (Z.log2 n + 1 - prec f)) by (apply Z.pow_pos_nonneg; lia).
  pose proof (Z.mul_div_le n _ Hp). pose proof (Z.div_pos n _ Hn Hp). nia.
Qed.

Lemma shared_range_within sc d smin smax tmin tmax :
  shared_range sc d = Ok (smin, smax) -> iinfo d = Ok (tmin, tmax) ->
  tmin <= smin <= 0 /\ 0 <= smax <= tmax.
Proof.
  intros Hs Hi. destruct (iinfo_bounds _ _ _ Hi) as (_ & Hb).
  unfold shared_range in Hs. rewrite Hi in Hs. injection Hs as <- <-.
  assert (Hf : 0 < finfo_max sc) by (destruct sc; reflexivity).
  pose proof (floor_exact_le sc (- tmin) ltac:(lia)).
  pose proof (floor_exact_le sc tmax ltac:(lia)).
  destruct (Z.ltb_spec (finfo_max sc) (floor_exact sc (- tmin))),
           (Z.ltb_spec (finfo_max sc) (floor_exact sc tmax)); lia.
Qed.

Lemma elements_within_range a mn mx :
  in_str (kind (dtype_of a)) "iu" = true ->
  finite_range_of a = Ok (NInt mn, NInt mx) ->
  mn <= mx /\ Forall (fun z => mn <= z <= mx) (int_elements a).
Proof.
  intros Hk Hr.
  destruct (int_range_elements a _ mn mx Hk Hr) as (mn' & mx' & E & Hle & Hall).
  injection E as <- <-. split; [exact Hle|].
  rewrite !Z.leb_refl in Hall. symmetry in Hall. unfold all_within in Hall.
  rewrite forallb_forall in Hall. apply Forall_forall. intros z Hz.
  specialize (Hall z Hz). apply andb_true_iff in Hall.
  rewrite !Z.leb_le in Hall. exact Hall.
Qed.

Lemma to_scaler_minus_one sc : to_scaler sc (py_float (-1)) = of_int sc (-1).
Proof. destruct sc; reflexivity. Qed.

Lemma minus_one_exact sc : num_eqb (NFlt (of_int sc (-1))) (NInt (-1)) = true.
Proof. destruct sc; reflexivity. Qed.

(** ** The sign flip of the slope-only writer *)

(** X9: a signed integer array without a positive element, written as an
    unsigned type whose shared maximum is at least the magnitude of the
    array's minimum, gets slope -1 from the slope-only writer and no range
    scaling: the negated elements then all lie in the output range. *)
Theorem SlopeArrayWriter_sign_flip w0 xs w sc mn mx smin smax :
  finite_range_of (IntArray w0 xs) = Ok (NInt mn, NInt mx) ->
  shared_range sc (UInt w) = Ok (smin, smax) ->
  mn < 0 -> mx <= 0 ->
  - 2 ^ (bits w0 - 1) < mn ->
  - mn <= smax ->
  (exists wr,
     SlopeArrayWriter_init (IntArray w0 xs) (Some (UInt w)) true sc = Ok wr
     /\ slope wr = of_int sc (-1)
     /\ num_eqb (NFlt (slope wr)) (NInt (-1)) = true)
  /\ Forall (fun z => 0 <= - z <= 2 ^ bits w - 1) xs.
Proof.
  intros Hr Hs Hmn Hmx Hwrap Hfit.
  set (a := IntArray w0 xs) in *.
  destruct (shared_range_within sc (UInt w) smin smax 0 (2 ^ bits w - 1) Hs eq_refl)
    as (_ & Hs0 & Hsmax).
  destruct (elements_within_range a mn mx eq_refl Hr) as (Hle & Hall).
  split.
  - assert (Hneed : needed_by_range a (UInt w) (NInt mn, NInt mx) 0 (2 ^ bits w - 1)
                    = true).
    { rewrite (needed_by_range_int a _ mn mx 0 (2 ^ bits w - 1) eq_refl) by lia.
      destruct (Z.leb_spec 0 mn); [lia|reflexivity]. }
    set (s := ready SlopeArrayWriter a (Some (UInt w)) sc (NInt mn, NInt mx) true).
    exists (with_slope s (of_int sc (-1))).
    split; [|split; [reflexivity|apply minus_one_exact]].
    unfold SlopeArrayWriter_init.
    rewrite (SlopeArrayWriter_init_as_ready SlopeArrayWriter a (Some (UInt w)) sc
               (NInt mn, NInt mx) 0 (2 ^ bits w - 1) Hr eq_refl eq_refl eq_refl eq_refl).
    cbn [resolve_out_dtype]. rewrite Hneed. fold s.
    unfold exec. rewrite do_scaling_of_class. cbn [cls s ready inited with_scale_calced].
    rewrite (SlopeArrayWriter_do_scaling_int s (NInt mn) (NInt mx) smin smax eq_refl Hs
               eq_refl 0 (2 ^ bits w - 1) eq_refl eq_refl).
    rewrite !num_leb_int, num_geb_int.
    replace (0 <=? mn) with false by (symmetry; apply Z.leb_gt; lia).
    rewrite andb_false_r.
    cbn [_out_dtype _array s ready inited with_scale_calced resolve_out_dtype kind
         Ascii.eqb Bool.eqb dtype_of a np_abs andb].
    replace (mn =? - 2 ^ (bits w0 - 1)) with false by (symmetry; apply Z.eqb_neq; lia).
    rewrite num_leb_int.
    replace (mx <=? 0) with true by (symmetry; apply Z.leb_le; lia).
    replace (Z.abs mn <=? smax) with true by (symmetry; apply Z.leb_le; lia).
    cbn [andb scaler_dtype]. rewrite to_scaler_minus_one. reflexivity.
  - cbn [int_elements a] in Hall. eapply Forall_impl; [|exact Hall].
    cbn beta. intros z Hz. lia.
Qed.

(** A run of X9: int16 values [-200, -3] written as uint8. *)
Lemma SlopeArrayWriter_sign_flip_witness :
  (exists wr,
     SlopeArrayWriter_init (IntArray W16 [-200; -3]) (Some (UInt W8)) true F32 = Ok wr
     /\ slope wr = of_int F32 (-1)
     /\ num_eqb (NFlt (slope wr)) (NInt (-1)) = true)
  /\ Forall (fun z => 0 <= - z <= 2 ^ bits W8 - 1) [-200; -3].
Proof.
  apply (SlopeArrayWriter_sign_flip W16 [-200; -3] W8 F32 (-200) (-3) 0 255).
  - reflexivity.
  - reflexivity.
  - lia.
  - lia.
  - cbn. lia.
  - lia.
Defined.

(** ** The most negative value *)




(** ** The slope of the slope-and-intercept writer *)

Lemma big_positive k x : big false k x -> num_gtb (NFlt x) (NInt 0) = true.
Proof.
  unfold num_gtb, num_ltb, num_compare.
  destruct x as [s|s| |s m e]; cbn [big]; try contradiction.
  - intros ->. reflexivity.
  - intros [-> _]. sign_cmp.
Qed.

Lemma one_positive sc : num_gtb (NFlt (of_int sc 1)) (NInt 0) = true.
Proof. destruct sc; reflexivity. Qed.

Lemma range_slope_positive sc d smin smax span :
  shared_range sc d = Ok (smin, smax) -> sc <> F16 -> 0 < span ->
  num_gtb (NFlt (cast sc (range_slope smin smax (of_int FLD span)))) (NInt 0) = true.
Proof.
  intros Hs Hsc Hspan.
  destruct (shared_range_small _ _ _ _ Hs) as (_ & Hsmall & _).
  apply (big_positive (1 - 66)). apply cast_big.
  - unfold range_slope.
    replace false with (xorb (span <? 0) false)
      by (destruct (Z.ltb_spec span 0); [lia|reflexivity]).
    apply ld_div_int_big; [lia|exact Hsmall|lia].
  - destruct sc; unfold emin, prec, emax; try lia. congruence.
Qed.

(** X11: on an integer array the slope-and-intercept writer never stores a
    negative or zero slope for an integer output type (float32, float64 or
    longdouble scaler), unless the array's minimum is the most negative
    value of its signed type: an offset, where it suffices, is taken before
    a sign flip, and the range computation divides two positive spans. *)
Theorem SlopeInterArrayWriter_slope_positive a d sc mn mx calc wr :
  in_str (kind (dtype_of a)) "iu" = true ->
  in_str (kind (resolve_out_dtype a d)) "iu" = true ->
  finite_range_of a = Ok (NInt mn, NInt mx) ->
  sc <> F16 ->
  ~ most_negative (dtype_of a) mn ->
  SlopeInterArrayWriter_init a d calc sc = Ok wr ->
  num_gtb (NFlt (slope wr)) (NInt 0) = true.
Proof.
  intros Hk Ho Hr Hsc Hwrap.
  destruct (can_cast (dtype_of a) (resolve_out_dtype a d)) eqn:Hcast.
  { rewrite (SlopeInterArrayWriter_init_plain a d) by
      (intros s Ha Hd; apply scaling_needed_can_cast; rewrite Ha, Hd; exact Hcast).
    intros H; injection H as <-. apply one_positive. }
  destruct (iinfo_int_kind _ Ho) as (tmin & tmax & Hi).
  destruct (iinfo_bounds _ _ _ Hi) as (_ & Hb).
  destruct (shared_range_int_kind sc _ Ho) as (smin & smax & Hs).
  destruct (shared_range_within sc _ smin smax tmin tmax Hs Hi) as (_ & Hs0 & Hsmax).
  destruct (elements_within_range a mn mx Hk Hr) as (Hle & _).
  destruct (int_kinds a Hk) as (Harr & Hf).
  rewrite (SlopeInterArrayWriter_init_inited a d sc (NInt mn, NInt mx) tmin tmax
             Hr Hcast Harr Ho Hi calc).
  set (needed := needed_by_range a (resolve_out_dtype a d) (NInt mn, NInt mx) tmin tmax).
  destruct calc; [|intros H; injection H as <-; apply one_positive].
  unfold needed.
  rewrite (calc_scale_inited SlopeInterArrayWriter a d sc (NInt mn, NInt mx) tmin tmax
             Hr Hcast Harr Ho Hi false).
  fold needed.
  destruct needed; [|intros H; injection H as <-; apply one_positive].
  set (s := ready SlopeInterArrayWriter a d sc (NInt mn, NInt mx) true).
  unfold exec. rewrite do_scaling_of_class. cbn [cls s ready inited with_scale_calced].
  rewrite (SlopeInterArrayWriter_do_scaling_int s (NInt mn) (NInt mx) smin smax
             eq_refl Hs Ho tmin tmax Hi Hf mn mx eq_refl eq_refl).
  assert (Hrs : forall w0,
            match _range_scale s with
            | Ok (_, self') => Ok self'
            | Raise e => Raise e
            end = Ok w0 -> num_gtb (NFlt (slope w0)) (NInt 0) = true).
  { intros w0. rewrite range_scale_of_class. cbn [cls s ready inited with_scale_calced].
    destruct (num_eqb (NInt mx) (NInt mn)) eqn:E.
    - rewrite (SlopeInterArrayWriter_range_scale_single s _ _ eq_refl E).
      intros H; injection H as <-. apply one_positive.
    - rewrite (SlopeInterArrayWriter_range_scale_span s (NInt mn) (NInt mx) smin smax
                 eq_refl Hs (of_int FLD (mx - mn)) E)
        by (exists mx; split; reflexivity).
      destruct (_ && _); [|discriminate]. intros H; injection H as <-.
      cbn [slope _slope range_scaled with_slope].
      rewrite num_eqb_int in E. apply Z.eqb_neq in E.
      apply (range_slope_positive _ _ _ _ _ Hs Hsc). lia. }
  destruct ((mn =? 0) && (mx =? 0));
    [intros H; injection H as <-; apply one_positive|].
  destruct ((mx <=? tmax) && (tmin <=? mn));
    [intros H; injection H as <-; apply one_positive|].
  destruct (Ascii.eqb _ "u"); [|apply Hrs].
  destruct (int_le_scalar _ (mx - mn) smax) as [offset_enough|e] eqn:Ele;
    [|discriminate].
  apply int_le_scalar_value in Ele. subst offset_enough.
  destruct (Z.leb_spec (mx - mn) smax) as [_|Hspan];
    [intros H; injection H as <-; apply one_positive|].
  destruct (Z.leb_spec mx 0) as [Hmx|_]; [|apply Hrs].
  cbn [andb].
  destruct (num_leb (np_abs (dtype_of (_array s)) (NInt mn)) (NInt smax)) eqn:Eabs;
    [|apply Hrs].
  exfalso. change (_array s) with a in Eabs.
  assert (Hnp : np_abs (dtype_of a) (NInt mn) = NInt (Z.abs mn)).
  { cbn [np_abs]. destruct (dtype_of a) as [w'|w'| | |]; try reflexivity.
    destruct (Z.eqb_spec mn (- 2 ^ (bits w' - 1))) as [E|]; [|reflexivity].
    exfalso. apply Hwrap. exact E. }
  rewrite Hnp, num_leb_int in Eabs. apply Z.leb_le in Eabs. lia.
Qed.

(** A run of X11: int16 values [-3, 1000] written as uint8. *)
Lemma SlopeInterArrayWriter_slope_positive_witness :
  exists wr,
    SlopeInterArrayWriter_init (IntArray W16 [-3; 1000]) (Some (UInt W8)) true F32 = Ok wr
    /\ num_gtb (NFlt (slope wr)) (NInt 0) = true.
Proof.
  eexists. split; [vm_compute; reflexivity|].
  apply (SlopeInterArrayWriter_slope_positive (IntArray W16 [-3; 1000])
           (Some (UInt W8)) F32 (-3) 1000 true).
  - reflexivity.
  - reflexivity.
  - reflexivity.
  - discriminate.
  - cbn. lia.
  - vm_compute. reflexivity.
Defined.

(** ** Writing integers without loss *)

(** X12: when numpy does not cast an integer array safely to an unsigned
    type but the span of the array fits the shared range (and, with a
    longdouble scaler, is below 2^63, so that the comparison of the span
    with the shared maximum can be made), the slope-and-intercept writer
    needs no scale factor: the slope stays 1, the
    intercept is [c] as the setter stores it, where [c] is zero when the
    data fit as they are and the minimum otherwise, and [z - c] lies in the
    output range for every element [z]. *)
Theorem span_within_shared_range_is_lossless a w sc mn mx smin smax :
  in_str (kind (dtype_of a)) "iu" = true ->
  finite_range_of a = Ok (NInt mn, NInt mx) ->
  can_cast (dtype_of a) (UInt w) = false ->
  shared_range sc (UInt w) = Ok (smin, smax) ->
  mx - mn <= smax ->
  (sc = FLD -> mx - mn < 2 ^ 63) ->
  let c := if all_within 0 (2 ^ bits w - 1) a then 0 else mn in
  exists wr,
    SlopeInterArrayWriter_init a (Some (UInt w)) true sc = Ok wr
    /\ slope wr = of_int sc 1
    /\ inter wr = of_int sc c
    /\ Forall (fun z => 0 <= z - c <= 2 ^ bits w - 1) (int_elements a).
Proof.
  intros Hk Hr Hcast Hs Hspan Hlong.
  destruct (int_kinds a Hk) as (Harr & Hf).
  destruct (shared_range_within sc (UInt w) smin smax 0 (2 ^ bits w - 1) Hs eq_refl)
    as (_ & Hs0 & Hsmax).
  destruct (elements_within_range a mn mx Hk Hr) as (Hle & Hall).
  pose proof (SlopeInterArrayWriter_init_inited a (Some (UInt w)) sc (NInt mn, NInt mx)
                0 (2 ^ bits w - 1) Hr Hcast Harr eq_refl eq_refl true) as Hinit.
  pose proof (calc_scale_inited SlopeInterArrayWriter a (Some (UInt w)) sc
                (NInt mn, NInt mx) 0 (2 ^ bits w - 1) Hr Hcast Harr eq_refl eq_refl
                false) as Hcalc.
  cbn [resolve_out_dtype] in Hinit, Hcalc.
  rewrite (needed_by_range_int a _ mn mx 0 (2 ^ bits w - 1) Hk) in Hinit, Hcalc by lia.
  destruct (int_range_elements a _ 0 (2 ^ bits w - 1) Hk Hr)
    as (mn' & mx' & E & _ & Hwithin).
  injection E as <- <-. rewrite <- Hwithin. clear Hwithin.
  rewrite Hinit, Hcalc.
  destruct ((0 <=? mn) && (mx <=? 2 ^ bits w - 1)) eqn:Ein; cbn [negb]; cbv zeta.
  - (* the data fit as they are *)
    eexists. split; [reflexivity|]. split; [reflexivity|].
    split; [reflexivity|].
    apply andb_true_iff in Ein. rewrite !Z.leb_le in Ein.
    eapply Forall_impl; [|exact Hall]. cbn beta. intros z Hz. lia.
  - (* the minimum is taken off *)
    set (s := ready SlopeInterArrayWriter a (Some (UInt w)) sc (NInt mn, NInt mx) true).
    exists (with_inter s (of_int sc mn)).
    split; [|split; [reflexivity|split; [reflexivity|]]].
    + unfold exec. rewrite do_scaling_of_class.
      cbn [cls s ready inited with_scale_calced].
      rewrite (SlopeInterArrayWriter_do_scaling_int s (NInt mn) (NInt mx) smin smax
                 eq_refl Hs eq_refl 0 (2 ^ bits w - 1) eq_refl Hf mn mx eq_refl eq_refl).
      rewrite (andb_comm (mx <=? 2 ^ bits w - 1)), Ein.
      replace ((mn =? 0) && (mx =? 0)) with false.
      * cbn [_out_dtype s ready inited with_scale_calced resolve_out_dtype kind
             Ascii.eqb Bool.eqb].
        rewrite (int_le_scalar_ok (scaler_dtype s))
          by (intros E; specialize (Hlong E); lia).
        apply Z.leb_le in Hspan. rewrite Hspan. reflexivity.
      * symmetry. apply andb_false_iff. apply andb_false_iff in Ein.
        rewrite !Z.leb_gt in Ein.
        destruct (Z.eqb_spec mn 0), (Z.eqb_spec mx 0); auto. lia.
    + eapply Forall_impl; [|exact Hall]. cbn beta. intros z Hz. lia.
Qed.

(** A run of X12: int16 values [-200, -3] written as uint8 with offset
    -200, with a longdouble scaler. *)
Lemma span_within_shared_range_is_lossless_witness :
  exists wr,
    SlopeInterArrayWriter_init (IntArray W16 [-200; -3]) (Some (UInt W8)) true FLD = Ok wr
    /\ slope wr = of_int FLD 1
    /\ inter wr = of_int FLD (-200)
    /\ Forall (fun z => 0 <= z - -200 <= 2 ^ bits W8 - 1)
              (int_elements (IntArray W16 [-200; -3])).
Proof.
  apply (span_within_shared_range_is_lossless (IntArray W16 [-200; -3]) W8 FLD
           (-200) (-3) 0 255).
  - reflexivity.
  - reflexivity.
  - reflexivity.
  - reflexivity.
  - lia.
  - intros _. lia.
Defined.

(** ** Float arrays written as integers *)

Lemma float_range_shape f xs mn mx :
  finite_range_of (FloatArray f xs) = Ok (mn, mx) ->
  (mn = np_inf /\ mx = np_ninf)
  \/ (exists a b, mn = NFlt a /\ mx = NFlt b
        /\ is_finite a = true /\ is_finite b = true).
Proof.
  cbn [finite_range_of]. pose proof (finite_filter xs) as Hfin.
  destruct (filter is_finite xs) as [|y r]; intros H; injection H as <- <-.
  - left. split; reflexivity.
  - right. do 2 eexists. split; [reflexivity|]. split; [reflexivity|].
    rewrite forallb_forall in Hfin.
    split; apply Hfin; [apply fold_fmin_in|apply fold_fmax_in].
Qed.

Lemma one_finite sc : is_finite (of_int sc 1) = true.
Proof. destruct sc; reflexivity. Qed.

Section FloatsToIntegers.
Variables (f : fwidth) (xs : list spec_float) (d : option dtype) (sc : fwidth).
Variables (mn mx : num).
Hypothesis Hout : in_str (kind (resolve_out_dtype (FloatArray f xs) d)) "iu" = true.
Hypothesis Hrange : finite_range_of (FloatArray f xs) = Ok (mn, mx).
Hypothesis Hvalues : no_nonzero_finite xs = false.

(** With a finite element other than zero, the constructor hands the object
    to the range computation. *)
Lemma SlopeInterArrayWriter_init_float_range :
  SlopeInterArrayWriter_init (FloatArray f xs) d true sc
  = exec SlopeInterArrayWriter_range_scale
      (ready SlopeInterArrayWriter (FloatArray f xs) d sc (mn, mx) true)
  /\ pair_eqb (mn, mx) (NInt 0, NInt 0) = false
  /\ exists a b, mn = NFlt a /\ mx = NFlt b
       /\ is_finite a = true /\ is_finite b = true.
Proof.
  destruct (float_range_without_values f xs) as (r & Hr & Hz).
  rewrite Hrange in Hr. injection Hr as <-. rewrite Hvalues in Hz.
  apply orb_false_iff in Hz. destruct Hz as (Hz & Hsent).
  destruct (float_to_int_kinds f xs d Hout) as (Hcast & tmin & tmax & Hi).
  assert (Hshape : exists a b, mn = NFlt a /\ mx = NFlt b
                     /\ is_finite a = true /\ is_finite b = true).
  { destruct (float_range_shape f xs mn mx Hrange) as [(-> & ->)|H]; [|exact H].
    discriminate Hsent. }
  split; [|split; assumption].
  rewrite (SlopeInterArrayWriter_init_inited _ d sc (mn, mx) tmin tmax Hrange Hcast
             eq_refl Hout Hi true).
  rewrite (calc_scale_inited SlopeInterArrayWriter _ d sc (mn, mx) tmin tmax Hrange
             Hcast eq_refl Hout Hi false).
  rewrite needed_by_range_float, Hz, Hsent. cbn [orb negb].
  set (s := ready SlopeInterArrayWriter (FloatArray f xs) d sc (mn, mx) true).
  unfold exec. rewrite do_scaling_of_class. cbn [cls s ready inited with_scale_calced].
  destruct Hshape as (a & b & Ha & Hb & Hfa & Hfb).
  destruct (do_scaling_float s mn mx eq_refl Hout eq_refl) as (_ & ->).
  - rewrite range_scale_of_class. reflexivity.
  - rewrite Ha. apply (finite_num_eqb a Hfa).
  - exact Hz.
Qed.
End FloatsToIntegers.








(** X14: on a float array with two different finite values and an integer
    output type, the slope-and-intercept constructor either returns a writer
    whose slope and intercept are both finite or raises [ScalingError]
    "Slope / inter not both finite"; it raises nothing else. *)
Theorem float_range_scaling_is_finite_or_refused f xs d sc mn mx :
  in_str (kind (resolve_out_dtype (FloatArray f xs) d)) "iu" = true ->
  finite_range_of (FloatArray f xs) = Ok (mn, mx) ->
  num_eqb mx mn = false ->
  (forall wr,
     SlopeInterArrayWriter_init (FloatArray f xs) d true sc = Ok wr ->
     is_finite (slope wr) = true /\ is_finite (inter wr) = true)
  /\ (forall e,
        SlopeInterArrayWriter_init (FloatArray f xs) d true sc = Raise e ->
        e = not_both_finite /\ is_ScalingError e = true).
Proof.
  intros Ho Hr Hne.
  destruct (no_nonzero_finite xs) eqn:Hv.
  - (* nothing to scale *)
    destruct (float_range_without_values f xs) as (r & Hr' & Hz).
    rewrite Hr in Hr'. injection Hr' as <-. rewrite Hv in Hz.
    destruct (float_to_int_kinds f xs d Ho) as (Hcast & tmin & tmax & Hi).
    assert (Hneed : needed_by_range (FloatArray f xs)
                      (resolve_out_dtype (FloatArray f xs) d) (mn, mx) tmin tmax = false)
      by (rewrite needed_by_range_float, Hz; reflexivity).
    rewrite (SlopeInterArrayWriter_init_not_needed _ d sc (mn, mx) tmin tmax Hr Hcast
               eq_refl Hi Hneed true).
    split; [|discriminate]. intros wr H. injection H as <-.
    split; [apply one_finite|reflexivity].
  - destruct (SlopeInterArrayWriter_init_float_range f xs d sc mn mx Ho Hr Hv)
      as (-> & _ & a & b & Ha & Hb & _).
    set (s := ready SlopeInterArrayWriter (FloatArray f xs) d sc (mn, mx) true).
    destruct (shared_range_int_kind sc _ Ho) as (smin & smax & Hs).
    assert (Hspan : match mn with
                    | NFlt _ => ld_sub (to_ld mx) (to_ld mn) = ld_sub (to_ld mx) (to_ld mn)
                    | NInt a0 => exists b0, mx = NInt b0
                                   /\ ld_sub (to_ld mx) (to_ld mn) = of_int FLD (b0 - a0)
                    end) by (rewrite Ha; reflexivity).
    destruct (SlopeInterArrayWriter_range_scale_checked s mn mx smin smax _ eq_refl Hs
                Hne Hspan) as (Hok & Hraise).
    unfold exec.
    destruct (SlopeInterArrayWriter_range_scale s) as [[[] w']|e'] eqn:E.
    + split; [|discriminate]. intros wr H. injection H as <-. apply Hok. reflexivity.
    + split; [discriminate|]. intros e H. injection H as <-. apply Hraise. reflexivity.
Qed.

(** A run of X14: the float64 array [0.5, 2^1000] written as int16 with a
    float32 scaler is refused. *)
Lemma float_range_scaling_is_finite_or_refused_witness :
  (forall wr,
     SlopeInterArrayWriter_init (FloatArray F64 [S754_finite false 4503599627370496 (-53); two_to_1000])
       (Some (Int W16)) true F32 = Ok wr ->
     is_finite (slope wr) = true /\ is_finite (inter wr) = true)
  /\ (forall e,
        SlopeInterArrayWriter_init (FloatArray F64 [S754_finite false 4503599627370496 (-53); two_to_1000])
          (Some (Int W16)) true F32 = Raise e ->
        e = not_both_finite /\ is_ScalingError e = true).
Proof.
  apply (float_range_scaling_is_finite_or_refused F64
           [S754_finite false 4503599627370496 (-53); two_to_1000] (Some (Int W16)) F32
           (NFlt (S754_finite false 4503599627370496 (-53))) (NFlt two_to_1000)).
  - reflexivity.
  - reflexivity.
  - reflexivity.
Defined.

(** ** What the methods leave alone *)

Section Keeps.
Context {X : Type}.
Variable fld : writer -> X.

Lemma keeps_ret {A} (a : A) : keeps fld (ret a).
Proof. intros self a' self' H. injection H as _ <-. reflexivity. Qed.

Lemma keeps_get_self : keeps fld get_self.
Proof. intros self a' self' H. injection H as _ <-. reflexivity. Qed.

Lemma keeps_raise {A} e : keeps fld (@raise A e).
Proof. intros self a' self' H. discriminate H. Qed.

Lemma keeps_lift {A} (r : result A) : keeps fld (lift r).
Proof.
  intros self a' self'. unfold lift. destruct r; [|discriminate].
  intros H. injection H as _ <-. reflexivity.
Qed.

Lemma keeps_bind {A B} (m : M A) (k : A -> M B) :
  keeps fld m -> (forall a, keeps fld (k a)) -> keeps fld (bind m k).
Proof.
  intros Hm Hk self b self'. unfold bind.
  destruct (m self) as [[a s1]|e] eqn:E; [|discriminate].
  intros H. rewrite (Hk a _ _ _ H). apply (Hm _ _ _ E).
Qed.

Hypothesis Hcached : forall s r, fld (cached s r) = fld s.

Lemma keeps_finite_range : keeps fld finite_range.
Proof.
  intros self r self'. unfold finite_range, bind, get_self, lift, set_finite_range, ret.
  destruct (_finite_range self); [intros H; injection H as _ <-; reflexivity|].
  destruct (finite_range_of (_array self)); [|discriminate].
  intros H; injection H as _ <-. apply Hcached.
Qed.

Ltac kp_step :=
  first
    [ apply keeps_ret
    | apply keeps_get_self
    | apply keeps_raise
    | apply keeps_lift
    | apply keeps_finite_range
    | match goal with
      | |- keeps _ (match ?x with _ => _ end) => destruct x
      | |- keeps _ (if ?x then _ else _) => destruct x
      | |- keeps _ (let (_, _) := ?x in _) => destruct x
      end ].

Ltac kp_bind := apply keeps_bind; [|intros ?].

Lemma keeps_scaling_needed : keeps fld scaling_needed.
Proof. unfold scaling_needed, py_assert. repeat first [kp_step | kp_bind]. Qed.

Lemma keeps_writing_range : keeps fld _writing_range.
Proof. unfold _writing_range. repeat first [kp_step | kp_bind]. Qed.

Hypothesis Hslope : forall s x, fld (with_slope s x) = fld s.
Hypothesis Hinter : forall s x, fld (with_inter s x) = fld s.

Lemma keeps_set_slope v : keeps fld (set_slope v).
Proof. intros self a self' H. injection H as _ <-. apply Hslope. Qed.

Lemma keeps_set_inter v : keeps fld (set_inter v).
Proof. intros self a self' H. injection H as _ <-. apply Hinter. Qed.

Lemma keeps_range_scale : keeps fld _range_scale.
Proof.
  unfold _range_scale, SlopeArrayWriter_range_scale, SlopeInterArrayWriter_range_scale.
  repeat first [apply keeps_set_slope | apply keeps_set_inter | kp_step | kp_bind].
Qed.

Lemma keeps_do_scaling : keeps fld _do_scaling.
Proof.
  unfold _do_scaling, SlopeArrayWriter_do_scaling, SlopeInterArrayWriter_do_scaling,
    py_assert.
  repeat first [apply keeps_range_scale | apply keeps_set_slope | apply keeps_set_inter
               | kp_step | kp_bind].
Qed.
End Keeps.

(** ** The cached range *)

Lemma finite_range_again self r self' :
  finite_range self = Ok (r, self') ->
  (self' = self \/ (_finite_range self = None /\ self' = cached self r))
  /\ finite_range self' = Ok (r, self').
Proof.
  unfold finite_range at 1. unfold bind, get_self, lift, set_finite_range, ret.
  destruct (_finite_range self) as [r0|] eqn:E.
  - intros H. injection H as <- <-. split; [left; reflexivity|].
    apply finite_range_cached; exact E.
  - destruct (finite_range_of (_array self)) as [r1|e] eqn:Er; [|discriminate].
    intros H. injection H as <- <-. split; [right; split; reflexivity|].
    apply finite_range_cached. reflexivity.
Qed.

(** X15: [finite_range] computes the range on the first call and stores it;
    the call changes nothing else, a second call returns the stored range
    and changes nothing, and unless a stale range was stored by hand the
    answer is the range of the array. *)
Theorem finite_range_is_computed_once self r self' :
  finite_range self = Ok (r, self') ->
  _finite_range self' = Some r
  /\ (self' = self \/ (_finite_range self = None /\ self' = cached self r))
  /\ finite_range self' = Ok (r, self')
  /\ (cache_ok self -> finite_range_of (_array self) = Ok r).
Proof.
  intros H. destruct (finite_range_again self r self' H) as (Hobj & Hagain).
  split; [|split; [exact Hobj|split; [exact Hagain|]]].
  - unfold finite_range, bind, get_self in Hagain.
    destruct (_finite_range self') as [r'|] eqn:E.
    + injection Hagain as ->. reflexivity.
    + destruct Hobj as [-> | (_ & ->)]; [|discriminate E].
      unfold finite_range, bind, get_self, lift, set_finite_range, ret in H.
      rewrite E in H.
      destruct (finite_range_of (_array self)); [|discriminate].
      injection H as _ H. apply (f_equal _finite_range) in H. rewrite E in H.
      discriminate H.
  - intros Hc. unfold cache_ok in Hc.
    unfold finite_range, bind, get_self, lift, set_finite_range, ret in H.
    destruct (_finite_range self) as [r0|].
    + injection H as <- _. exact Hc.
    + destruct (finite_range_of (_array self)) as [r1|]; [|discriminate].
      injection H as <- _. reflexivity.
Qed.

(** A run of X15 on a fresh writer of the array [0, 255]. *)
Lemma finite_range_is_computed_once_witness :
  _finite_range (cached (new_writer ArrayWriter arr_0_255 None F32) (NInt 0, NInt 255))
  = Some (NInt 0, NInt 255)
  /\ (cached (new_writer ArrayWriter arr_0_255 None F32) (NInt 0, NInt 255)
      = new_writer ArrayWriter arr_0_255 None F32
      \/ (_finite_range (new_writer ArrayWriter arr_0_255 None F32) = None
          /\ cached (new_writer ArrayWriter arr_0_255 None F32) (NInt 0, NInt 255)
             = cached (new_writer ArrayWriter arr_0_255 None F32) (NInt 0, NInt 255)))
  /\ finite_range (cached (new_writer ArrayWriter arr_0_255 None F32) (NInt 0, NInt 255))
     = Ok ((NInt 0, NInt 255),
           cached (new_writer ArrayWriter arr_0_255 None F32) (NInt 0, NInt 255))
  /\ (cache_ok (new_writer ArrayWriter arr_0_255 None F32) ->
      finite_range_of (_array (new_writer ArrayWriter arr_0_255 None F32))
      = Ok (NInt 0, NInt 255)).
Proof.
  apply (finite_range_is_computed_once (new_writer ArrayWriter arr_0_255 None F32)).
  reflexivity.
Defined.

(** ** Computing the scale once *)

(** X16: after [calc_scale] has returned, with or without [force], the
    object is marked as calculated, and a further [calc_scale()] without
    [force] returns at once and leaves the object exactly as it is. *)
Theorem calc_scale_runs_once force self self' :
  exec (calc_scale force) self = Ok self' ->
  _scale_calced self' = true
  /\ calc_scale false self' = Ok (tt, self').
Proof.
  intros H.
  assert (Hc : _scale_calced self' = true).
  { unfold exec in H. destruct (calc_scale force self) as [[u s1]|e] eqn:E;
      [|discriminate]. injection H as <-. revert E.
    unfold calc_scale. rewrite (bind_ok _ _ self self self eq_refl).
    destruct (negb force && _scale_calced self) eqn:Eb.
    - intros E. injection E as _ <-. apply andb_true_iff in Eb. apply Eb.
    - rewrite (bind_ok _ _ self tt (with_scale_calced self true) eq_refl).
      intros E.
      assert (Hk : keeps _scale_calced
                     (bind scaling_needed
                        (fun needed => if negb needed then ret tt else _do_scaling))).
      { apply keeps_bind; [apply keeps_scaling_needed; reflexivity|].
        intros needed. destruct (negb needed); [apply keeps_ret|].
        apply keeps_do_scaling; reflexivity. }
      rewrite (Hk _ _ _ E). reflexivity. }
  split; [exact Hc|].
  unfold calc_scale. rewrite (bind_ok _ _ self' self' self' eq_refl).
  rewrite Hc. reflexivity.
Qed.

(** A run of X16 on the writer of [0, 254] as int8 that the constructor
    returns with [calc_scale=False]. *)
Lemma calc_scale_runs_once_witness :
  exists w',
    exec (calc_scale true)
      (inited SlopeArrayWriter arr_0_254 (Some (Int W8)) F32 (NInt 0, NInt 254) true)
    = Ok w'
    /\ _scale_calced w' = true
    /\ calc_scale false w' = Ok (tt, w').
Proof.
  eexists. split; [vm_compute; reflexivity|].
  apply (calc_scale_runs_once true
           (inited SlopeArrayWriter arr_0_254 (Some (Int W8)) F32 (NInt 0, NInt 254) true)).
  vm_compute. reflexivity.
Defined.

(** ** Writing *)

Lemma writing_range_again self b self' :
  _writing_range self = Ok (b, self') ->
  (self' = self \/ exists r, self' = cached self r)
  /\ _writing_range self' = Ok (b, self').
Proof.
  unfold _writing_range. rewrite (bind_ok _ _ self self self eq_refl).
  rewrite (bind_ok _ _ self' self' self' eq_refl).
  destruct (in_str (kind (_out_dtype self)) "iu"
            && Ascii.eqb (kind (dtype_of (_array self))) "f") eqn:E.
  - unfold bind at 1.
    destruct (finite_range self) as [[[mn mx] s1]|e] eqn:Ef; [|discriminate].
    intros H.
    assert (Hs : s1 = self')
      by (destruct (pair_eqb _ _); injection H as _ <-; reflexivity).
    subst s1.
    destruct (finite_range_again self (mn, mx) self' Ef) as (Hobj & Hf).
    assert (Hsame : _out_dtype self' = _out_dtype self /\ _array self' = _array self)
      by (destruct Hobj as [-> | (_ & ->)]; split; reflexivity).
    destruct Hsame as (-> & ->). rewrite E.
    rewrite (bind_ok _ _ self' _ self' Hf).
    split; [|exact H].
    destruct Hobj as [-> | (_ & ->)]; [left; reflexivity|right; eexists; reflexivity].
  - intros H. injection H as <- <-. rewrite E. split; [left|]; reflexivity.
Qed.

(** X17: [to_fileobj] may be repeated: it hands the array, the output type,
    the order and the [nan2zero] flag to [array_to_file] with the slope and
    the intercept the class carries (none for the plain writer, a slope only
    for the slope writer), stores at most the range in the object, and
    a second call makes the same call to [array_to_file] and changes
    nothing. *)
Theorem to_fileobj_is_repeatable order nan2zero self call self' :
  to_fileobj order nan2zero self = Ok (call, self') ->
  to_fileobj order nan2zero self' = Ok (call, self')
  /\ (self' = self \/ exists r, self' = cached self r)
  /\ atf_data call = _array self
  /\ atf_out_dtype call = _out_dtype self
  /\ atf_order call = order
  /\ atf_nan2zero call = nan2zero
  /\ atf_divslope call
     = (if has_slope_attr (cls self) then Some (slope self) else None)
  /\ atf_intercept call
     = (if has_inter_attr (cls self) then Some (inter self) else None).
Proof.
  unfold to_fileobj. rewrite (bind_ok _ _ self self self eq_refl).
  rewrite (bind_ok _ _ self' self' self' eq_refl).
  assert (Hw : forall (mk : option num -> option num -> writer -> array_to_file_call),
            bind _writing_range
              (fun p => match p with
                        | (mn, mx) => bind get_self (fun s => ret (mk mn mx s))
                        end) self = Ok (call, self') ->
            exists mn mx,
              _writing_range self = Ok ((mn, mx), self')
              /\ call = mk mn mx self').
  { intros mk. unfold bind at 1.
    destruct (_writing_range self) as [[[mn mx] s1]|e]; [|discriminate].
    intros H. injection H as <- <-. exists mn, mx. split; reflexivity. }
  intros H.
  assert (Hcls : (self' = self \/ exists r, self' = cached self r) ->
                 cls self' = cls self /\ _array self' = _array self
                 /\ _out_dtype self' = _out_dtype self
                 /\ slope self' = slope self /\ inter self' = inter self)
    by (intros [-> | (r & ->)]; repeat split).
  destruct (cls self) eqn:Ek;
    [unfold ArrayWriter_to_fileobj in H
    |unfold SlopeArrayWriter_to_fileobj in H
    |unfold SlopeInterArrayWriter_to_fileobj in H];
    apply Hw in H; destruct H as (mn & mx & Hr & ->);
    destruct (writing_range_again _ _ _ Hr) as (Hobj & Hr');
    destruct (Hcls Hobj) as (Hk & Ha & Ho & Hsl & Hin);
    rewrite Hk;
    [unfold ArrayWriter_to_fileobj
    |unfold SlopeArrayWriter_to_fileobj
    |unfold SlopeInterArrayWriter_to_fileobj];
    rewrite (bind_ok _ _ self' _ self' Hr');
    (split; [reflexivity|]); (split; [exact Hobj|]);
    cbn [atf_data atf_out_dtype atf_order atf_nan2zero atf_divslope atf_intercept
         has_slope_attr has_inter_attr];
    rewrite ?Hsl, ?Hin; repeat split; assumption.
Qed.

(** A run of X17: a slope writer of the float64 array [0.5, 2^1000] with
    output type int16, as the constructor returns it with
    [calc_scale=False]. *)
Lemma to_fileobj_is_repeatable_witness :
  exists call w',
    to_fileobj "F" true
      (inited SlopeArrayWriter
         (FloatArray F64 [S754_finite false 4503599627370496 (-53); two_to_1000])
         (Some (Int W16)) F32
         (NFlt (S754_finite false 4503599627370496 (-53)), NFlt two_to_1000) true)
    = Ok (call, w')
    /\ to_fileobj "F" true w' = Ok (call, w')
    /\ atf_divslope call = Some (of_int F32 1)
    /\ atf_intercept call = None.
Proof.
  do 2 eexists. split; [vm_compute; reflexivity|].
  pose proof (to_fileobj_is_repeatable "F" true
                (inited SlopeArrayWriter
                   (FloatArray F64 [S754_finite false 4503599627370496 (-53); two_to_1000])
                   (Some (Int W16)) F32
                   (NFlt (S754_finite false 4503599627370496 (-53)), NFlt two_to_1000) true)
                _ _ eq_refl) as (H1 & _ & _ & _ & _ & _ & H2 & H3).
  split; [exact H1|]. split; [exact H2|exact H3].
Defined.

(** ** The factory *)

Lemma ArrayWriter_init_class a d w :
  ArrayWriter_init a d = Ok w ->
  cls w = ArrayWriter /\ _array w = a /\ _out_dtype w = resolve_out_dtype a d
  /\ cache_ok w.
Proof.
  unfold ArrayWriter_init. intros H. apply exec_preserves in H.
  - destruct H as (H1 & H2 & H3 & _ & H5). repeat split; try assumption.
    apply H5. exact I.
  - apply preserves_bind; [apply preserves_scaling_needed|].
    intros needed. destruct needed; [apply preserves_raise|apply preserves_ret].
Qed.

(** X18: a writer that [make_array_writer] returns is of the class the two
    flags select by their truth values (slope and intercept if
    [has_intercept] is true, else slope only if [has_slope] is true, else
    plain), is bound to the data and to the output type asked for (the
    data's own type if none), uses the scaler type of the keyword arguments,
    and the flags were not the refused pair. *)
Theorem make_array_writer_selects_class data out_type hi hs kw w :
  make_array_writer data out_type hi hs kw = Ok w ->
  py_eq_bool hi true && py_eq_bool hs false = false
  /\ cls w = class_for hi hs
  /\ _array w = data
  /\ _out_dtype w = resolve_out_dtype data out_type
  /\ (class_for hi hs <> ArrayWriter -> scaler_dtype w = kw_scaler kw)
  /\ cache_ok w.
Proof.
  destruct (py_eq_bool hi true && py_eq_bool hs false) eqn:Hg.
  { unfold make_array_writer. rewrite Hg. discriminate. }
  rewrite (make_array_writer_class _ _ _ _ _ Hg).
  destruct (class_for hi hs); intros H; (split; [reflexivity|]).
  - apply ArrayWriter_init_class in H. destruct H as (H1 & H2 & H3 & H4).
    repeat split; try assumption. intros Hc. contradiction.
  - apply SlopeArrayWriter_init_as_class in H. destruct H as (H1 & H2 & H3 & H4 & H5).
    repeat split; try assumption. intros _. exact H4.
  - apply SlopeInterArrayWriter_init_class in H. destruct H as (H1 & H2 & H3 & H4 & H5).
    repeat split; try assumption. intros _. exact H4.
Qed.

(** A run of X18: a nonempty string as [has_slope] selects the slope
    writer. *)
Lemma make_array_writer_selects_class_witness :
  exists w,
    make_array_writer arr_0_254 (Some (Int W8)) PyNone (PyStr "yes") (mkKwargs None None)
    = Ok w
    /\ py_eq_bool PyNone true && py_eq_bool (PyStr "yes") false = false
    /\ cls w = class_for PyNone (PyStr "yes")
    /\ _array w = arr_0_254
    /\ _out_dtype w = resolve_out_dtype arr_0_254 (Some (Int W8))
    /\ (class_for PyNone (PyStr "yes") <> ArrayWriter ->
        scaler_dtype w = kw_scaler (mkKwargs None None))
    /\ cache_ok w.
Proof.
  eexists. split; [vm_compute; reflexivity|].
  apply (make_array_writer_selects_class arr_0_254 (Some (Int W8)) PyNone (PyStr "yes")
           (mkKwargs None None)).
  vm_compute. reflexivity.
Defined.

(** ** The exceptions of the constructors *)

Lemma scaling_needed_range_raises self e :
  can_cast (dtype_of (_array self)) (_out_dtype self) = false ->
  in_str (kind (dtype_of (_array self))) "iuf" = true ->
  in_str (kind (_out_dtype self)) "iu" = true ->
  finite_range self = Raise e ->
  scaling_needed self = Raise e.
Proof.
  intros Hcast Ha Ho Hf. unfold scaling_needed.
  rewrite (bind_ok _ _ self self self eq_refl). rewrite Hcast.
  destruct (dtype_of (_array self)); cbn in Ha; try discriminate;
    destruct (_out_dtype self); cbn in Ho; try discriminate;
    cbn [kind Ascii.eqb Bool.eqb orb]; apply bind_raise; exact Hf.
Qed.

Lemma finite_range_new k a d sc :
  finite_range (new_writer k a d sc)
  = match finite_range_of a with
    | Ok r => Ok (r, cached (new_writer k a d sc) r)
    | Raise e => Raise e
    end.
Proof.
  unfold finite_range, bind, get_self, lift, set_finite_range, ret.
  cbn [_finite_range _array new_writer]. destruct (finite_range_of a); reflexivity.
Qed.

(** The decision is taken on the types, refused on the types, or left to the
    range. *)
Lemma scaling_needed_cases a d :
  (forall s, _array s = a -> _out_dtype s = resolve_out_dtype a d ->
             scaling_needed s = Ok (false, s))
  \/ (forall s, _array s = a -> _out_dtype s = resolve_out_dtype a d ->
                scaling_needed s = Raise incompatible_kinds)
  \/ (forall s, _array s = a -> _out_dtype s = resolve_out_dtype a d ->
                scaling_needed s = Raise complex_to_real)
  \/ (can_cast (dtype_of a) (resolve_out_dtype a d) = false
      /\ in_str (kind (dtype_of a)) "iuf" = true
      /\ in_str (kind (resolve_out_dtype a d)) "iu" = true).
Proof.
  destruct (can_cast (dtype_of a) (resolve_out_dtype a d)) eqn:Hc.
  { left. intros s Ha Ho. apply scaling_needed_can_cast. rewrite Ha, Ho. exact Hc. }
  destruct (dtype_of a) as [w|w|f|c|n] eqn:Ea;
    destruct (resolve_out_dtype a d) as [w'|w'|f'|c'|n'] eqn:Eo;
    first
      [ (* left to the range *)
        right; right; right; repeat split; reflexivity
      | (* an opaque type *)
        right; left; intros s Ha Ho; apply scaling_needed_opaque;
        rewrite ?Ha, ?Ho, ?Ea, ?Eo; [exact Hc|cbn [kind]; solve [auto]]
      | (* a complex array as a real type *)
        right; right; left; intros s Ha Ho; apply scaling_needed_complex_to_real;
        rewrite ?Ha, ?Ho, ?Ea, ?Eo; reflexivity
      | (* a float or complex output type *)
        left; intros s Ha Ho; apply scaling_needed_float_target;
        rewrite ?Ha, ?Ho, ?Ea, ?Eo; cbn [kind];
        first [discriminate | reflexivity | intros _; reflexivity] ].
Qed.

Section DoScalingRaises.
Variables (s : writer) (mn mx : num).
Hypothesis Hcache : _finite_range s = Some (mn, mx).
Hypothesis Hout : in_str (kind (_out_dtype s)) "iu" = true.

Lemma SlopeArrayWriter_do_scaling_raises e :
  cls s <> SlopeInterArrayWriter ->
  exec _do_scaling s = Raise e -> e = unsigned_span_error.
Proof.
  intros Hk.
  destruct (shared_range_int_kind (scaler_dtype s) _ Hout) as (smin & smax & Hs).
  destruct (iinfo_int_kind _ Hout) as (tmin & tmax & Hi).
  assert (Hrs : match _range_scale s with
                | Ok (_, self') => Ok self'
                | Raise e0 => Raise e0
                end = Raise e -> e = unsigned_span_error).
  { assert (E : _range_scale s = SlopeArrayWriter_range_scale s)
      by (rewrite range_scale_of_class; destruct (cls s); congruence).
    rewrite E, (SlopeArrayWriter_range_scale_run s mn mx smin smax Hcache Hs).
    unfold set_slope.
    destruct (Ascii.eqb _ "u"); [|discriminate].
    destruct (_ && _); [intros H; injection H as <-; reflexivity|].
    destruct (num_leb _ _); discriminate. }
  assert (E : _do_scaling s = SlopeArrayWriter_do_scaling s)
    by (rewrite do_scaling_of_class; destruct (cls s); congruence).
  unfold exec. rewrite E.
  destruct (Ascii.eqb (kind (dtype_of (_array s))) "f") eqn:Ef.
  - destruct (do_scaling_float s mn mx Hcache Hout Ef) as (-> & _). exact Hrs.
  - rewrite (SlopeArrayWriter_do_scaling_int s mn mx smin smax Hcache Hs Hout
               tmin tmax Hi Ef).
    destruct (_ && _); [discriminate|].
    destruct (_ && _); [discriminate|exact Hrs].
Qed.

Hypothesis Hsound : finite_range_of (_array s) = Ok (mn, mx).

Lemma SlopeInterArrayWriter_do_scaling_raises e :
  cls s = SlopeInterArrayWriter ->
  exec _do_scaling s = Raise e -> e = not_both_finite \/ e = comparison_error.
Proof.
  intros Hk.
  destruct (shared_range_int_kind (scaler_dtype s) _ Hout) as (smin & smax & Hs).
  destruct (iinfo_int_kind _ Hout) as (tmin & tmax & Hi).
  assert (Hshape : exists mn2mx,
            match mn with
            | NFlt _ => mn2mx = ld_sub (to_ld mx) (to_ld mn)
            | NInt a => exists b, mx = NInt b /\ mn2mx = of_int FLD (b - a)
            end).
  { destruct mn as [a0|x].
    - destruct (_array s) as [w xs|w xs|f xs|c xs|n xs]; try discriminate Hsound.
      + cbn in Hsound. destruct xs; [discriminate|]. injection Hsound as _ <-.
        eexists. eexists. split; reflexivity.
      + cbn in Hsound. destruct xs; [discriminate|]. injection Hsound as _ <-.
        eexists. eexists. split; reflexivity.
      + cbn in Hsound. destruct (filter is_finite xs); discriminate.
    - eexists. reflexivity. }
  destruct Hshape as (mn2mx & Hspan).
  assert (Hrs : match _range_scale s with
                | Ok (_, self') => Ok self'
                | Raise e0 => Raise e0
                end = Raise e -> e = not_both_finite \/ e = comparison_error).
  { rewrite range_scale_of_class, Hk.
    destruct (num_eqb mx mn) eqn:E.
    - rewrite (SlopeInterArrayWriter_range_scale_single s mn mx Hcache E). discriminate.
    - destruct (SlopeInterArrayWriter_range_scale_checked s mn mx smin smax mn2mx
                  Hcache Hs E Hspan) as (_ & Hraise).
      destruct (SlopeInterArrayWriter_range_scale s) as [[[] w']|e']; [discriminate|].
      intros H. injection H as <-. left. apply Hraise. reflexivity. }
  unfold exec. rewrite do_scaling_of_class, Hk.
  unfold SlopeInterArrayWriter_do_scaling.
  rewrite (bind_ok _ _ s s s eq_refl). rewrite Hout.
  rewrite (bind_ok _ _ s tt s eq_refl).
  rewrite (bind_ok _ _ s _ s (finite_range_cached _ _ Hcache)).
  destruct (num_eqb mn np_inf); [discriminate|].
  destruct (pair_eqb _ _); [discriminate|].
  destruct (Ascii.eqb (kind (dtype_of (_array s))) "f") eqn:Ef; [exact Hrs|].
  unfold lift at 1. rewrite Hi. rewrite (bind_ok _ _ s (tmin, tmax) s eq_refl).
  destruct (_ && _); [discriminate|].
  destruct (Ascii.eqb _ "u"); [|exact Hrs].
  unfold lift at 1. rewrite Hs. rewrite (bind_ok _ _ s (smin, smax) s eq_refl).
  assert (Hints : exists a b, mn = NInt a /\ mx = NInt b).
  { destruct (_array s) as [w xs|w xs|f xs|c xs|n xs]; try discriminate Hsound;
      try discriminate Ef; cbn in Hsound; (destruct xs; [discriminate|]);
      injection Hsound as <- <-; do 2 eexists; split; reflexivity. }
  destruct Hints as (a & b & -> & ->).
  cbn [as_int lift]. rewrite (bind_ok _ _ s b s eq_refl).
  rewrite (bind_ok _ _ s a s eq_refl).
  destruct (int_le_scalar (scaler_dtype s) (b - a) smax) as [offset_enough|e0] eqn:Ele.
  - rewrite (bind_ok _ _ s offset_enough s eq_refl).
    destruct offset_enough; [discriminate|].
    destruct (_ && _); [discriminate|exact Hrs].
  - rewrite (bind_raise _ _ s e0 eq_refl).
    intros H. injection H as <-. right.
    revert Ele. unfold int_le_scalar.
    destruct (scaler_dtype s); try discriminate.
    destruct (_ && _); [discriminate|].
    intros H; injection H as <-; reflexivity.
Qed.
End DoScalingRaises.

(** X19: the exceptions a constructor can raise.  Each of the three raises
    only the two type errors of the decision ("Cannot cast to or from
    non-numeric types", "Cannot cast complex types to non-complex"), an
    error of the range computation on the array, and one error of its own:
    "Scaling needed but cannot scale" for the plain writer, the unsigned
    span error for the slope writer, and for the slope-and-intercept writer
    [ScalingError] or the [TypeError] of the comparison of the span of an
    integer array with the shared maximum of a longdouble scaler; so of the
    three only the last can raise [ScalingError]. *)
Theorem constructor_exceptions a d e :
  (ArrayWriter_init a d = Raise e ->
     e = incompatible_kinds \/ e = complex_to_real
     \/ finite_range_of a = Raise e \/ e = cannot_scale)
  /\ (forall calc sc,
        SlopeArrayWriter_init a d calc sc = Raise e ->
        e = incompatible_kinds \/ e = complex_to_real
        \/ finite_range_of a = Raise e \/ e = unsigned_span_error)
  /\ (forall calc sc,
        SlopeInterArrayWriter_init a d calc sc = Raise e ->
        e = incompatible_kinds \/ e = complex_to_real
        \/ finite_range_of a = Raise e \/ e = not_both_finite
        \/ e = comparison_error).
Proof.
  destruct (scaling_needed_cases a d) as [Hfalse|[Hraise|[Hraise|(Hcast & Harr & Hout)]]].
  - (* decided on the types *)
    split; [|split]; intros.
    + rewrite (ArrayWriter_init_plain a d Hfalse) in H. discriminate.
    + unfold SlopeArrayWriter_init in H.
      rewrite (SlopeArrayWriter_init_as_plain a d Hfalse) in H. discriminate.
    + rewrite (SlopeInterArrayWriter_init_plain a d Hfalse) in H. discriminate.
  - destruct (constructors_refuse a d _ Hraise) as (H1 & H2 & H3).
    split; [|split]; intros; left;
      [rewrite H1 in H|rewrite H2 in H|rewrite H3 in H]; congruence.
  - destruct (constructors_refuse a d _ Hraise) as (H1 & H2 & H3).
    split; [|split]; intros; right; left;
      [rewrite H1 in H|rewrite H2 in H|rewrite H3 in H]; congruence.
  - destruct (iinfo_int_kind _ Hout) as (tmin & tmax & Hi).
    destruct (finite_range_of a) as [r|e0] eqn:Hr.
    + (* the range decides *)
      destruct r as [mn mx].
      split; [|split]; intros.
      * rewrite (ArrayWriter_init_runs a d _ _
                   (scaling_needed_new ArrayWriter a d F32 _ tmin tmax Hr Hcast Harr
                      Hout Hi)) in H.
        destruct (needed_by_range _ _ _ _ _); [|discriminate].
        right; right; right. congruence.
      * unfold SlopeArrayWriter_init in H. destruct calc.
        -- rewrite (SlopeArrayWriter_init_as_ready SlopeArrayWriter a d sc _ tmin tmax
                      Hr Hcast Harr Hout Hi) in H.
           destruct (needed_by_range _ _ _ _ _); [|discriminate].
           right; right; right.
           apply (SlopeArrayWriter_do_scaling_raises
                    (ready SlopeArrayWriter a d sc (mn, mx) true) mn mx eq_refl Hout e
                    ltac:(discriminate) H).
        -- rewrite (SlopeArrayWriter_init_as_inited SlopeArrayWriter a d sc _ tmin tmax
                      Hr Hcast Harr Hout Hi) in H. discriminate.
      * rewrite (SlopeInterArrayWriter_init_inited a d sc _ tmin tmax Hr Hcast Harr
                   Hout Hi calc) in H.
        destruct calc; [|discriminate].
        rewrite (calc_scale_inited SlopeInterArrayWriter a d sc _ tmin tmax Hr Hcast
                   Harr Hout Hi false) in H.
        destruct (needed_by_range _ _ _ _ _); [|discriminate].
        right; right; right.
        apply (SlopeInterArrayWriter_do_scaling_raises
                 (ready SlopeInterArrayWriter a d sc (mn, mx) true) mn mx eq_refl Hout
                 Hr e eq_refl H).
    + (* the range computation fails *)
      assert (Hs : forall k sc, scaling_needed (new_writer k a d sc) = Raise e0).
      { intros k sc. apply scaling_needed_range_raises; try assumption.
        rewrite finite_range_new, Hr. reflexivity. }
      assert (Hinit : forall k calc sc, SlopeArrayWriter_init_as k a d calc sc = Raise e0).
      { intros k calc sc. unfold SlopeArrayWriter_init_as, exec.
        rewrite (bind_raise _ _ _ _ (Hs k sc)). reflexivity. }
      split; [|split]; intros; right; right; left.
      * unfold ArrayWriter_init, exec in H.
        rewrite (bind_raise _ _ _ _ (Hs ArrayWriter F32)) in H. congruence.
      * unfold SlopeArrayWriter_init in H. rewrite Hinit in H. congruence.
      * unfold SlopeInterArrayWriter_init in H. rewrite Hinit in H. congruence.
Qed.

(** ** The sign of the slope of the slope-only writer *)

Lemma big_negative k x : big true k x -> num_ltb (NFlt x) (NInt 0) = true.
Proof.
  unfold num_ltb, num_compare.
  destruct x as [s|s| |s m e]; cbn [big]; try contradiction.
  - intros ->. reflexivity.
  - intros [-> _]. sign_cmp.
Qed.

Lemma minus_one_negative sc : num_ltb (NFlt (of_int sc (-1))) (NInt 0) = true.
Proof. destruct sc; reflexivity. Qed.

Lemma cast_quotient_big sc s x :
  sc <> F16 -> big s (1 - 65) x -> big s (1 - 65) (cast sc x).
Proof.
  intros Hsc Hx. apply cast_big; [exact Hx|].
  destruct sc; unfold emin, prec, emax; try lia. congruence.
Qed.

Section SlopeSign.
Variables (s : writer) (mn mx tmin tmax : Z).
Hypothesis Hcache : _finite_range s = Some (NInt mn, NInt mx).
Hypothesis Hinfo : iinfo (_out_dtype s) = Ok (tmin, tmax).
Hypothesis Hsc : scaler_dtype s <> F16.
Hypothesis Hrange : (mx <=? tmax) && (tmin <=? mn) = false.

(** The slope that the range computation of the slope-only writer stores is
    negative for an unsigned output type and data without a positive
    element, and positive otherwise. *)
Lemma SlopeArrayWriter_range_scale_sign w :
  SlopeArrayWriter_range_scale s = Ok (tt, w) ->
  if Ascii.eqb (kind (_out_dtype s)) "u" && (mn <? 0)
  then num_ltb (NFlt (slope w)) (NInt 0) = true
  else num_gtb (NFlt (slope w)) (NInt 0) = true.
Proof.
  destruct (iinfo_bounds _ _ _ Hinfo) as (Hout & Hb).
  destruct (shared_range_int_kind (scaler_dtype s) _ Hout) as (smin & smax & Hs).
  destruct (shared_range_small _ _ _ _ Hs) as (Hmax & _ & Hmin).
  rewrite (SlopeArrayWriter_range_scale_run s (NInt mn) (NInt mx) smin smax Hcache Hs).
  rewrite num_ltb_int, num_gtb_int, num_leb_int. cbn [to_ld].
  apply andb_false_iff in Hrange. rewrite !Z.leb_gt in Hrange.
  destruct (_out_dtype s) as [w'|w'|f|c|n] eqn:Eout; cbn in Hout; try discriminate;
    cbn [kind Ascii.eqb Bool.eqb andb]; cbn [iinfo] in Hinfo; injection Hinfo as <- <-.
  - (* unsigned target *)
    destruct (Z.ltb_spec mn 0) as [Hneg|Hpos]; cbn [andb].
    + destruct (Z.ltb_spec 0 mx); [discriminate|].
      destruct (Z.leb_spec mx 0); [|lia].
      unfold set_slope. intros E; injection E as <-. cbn [slope _slope with_slope to_scaler].
      apply (big_negative (1 - 65)). apply cast_quotient_big; [exact Hsc|].
      replace true with (xorb (mn <? 0) false)
        by (destruct (Z.ltb_spec mn 0); [reflexivity|lia]).
      apply ld_div_int_big; [lia|exact Hmax|lia].
    + destruct (Z.leb_spec mx 0); [lia|].
      unfold set_slope. intros E; injection E as <-. cbn [slope _slope with_slope to_scaler].
      apply (big_positive (1 - 65)). apply cast_quotient_big; [exact Hsc|].
      replace false with (xorb (mx <? 0) false)
        by (destruct (Z.ltb_spec mx 0); [lia|reflexivity]).
      apply ld_div_int_big; [lia|exact Hmax|lia].
  - (* signed target *)
    specialize (Hmin eq_refl).
    unfold set_slope. intros E; injection E as <-. cbn [slope _slope with_slope to_scaler].
    apply (big_positive (1 - 65)). apply cast_quotient_big; [exact Hsc|].
    apply np_max2_big.
    destruct (Z.ltb_spec 0 mx) as [Hpos|Hneg].
    + left. split; [|apply (quotient_not_nan _ true 65); [assumption|lia]].
      replace false with (xorb (mx <? 0) false)
        by (destruct (Z.ltb_spec mx 0); [lia|reflexivity]).
      apply ld_div_int_big; try assumption; lia.
    + right. split; [|apply (quotient_not_nan _ false 65); [assumption|lia]].
      replace false with (xorb (mn <? 0) true)
        by (destruct (Z.ltb_spec mn 0); [reflexivity|lia]).
      apply ld_div_int_big; try assumption; lia.
Qed.
End SlopeSign.

(** X26: the slope of the slope-only writer has the sign of the data.  On a
    well-formed integer array and an integer output type (float32, float64
    or longdouble scaler), a constructor that succeeds stores a negative
    slope exactly when the output type is unsigned and the array has a
    negative element, through the sign flip or the range computation alike;
    in every other case the slope is positive. *)
Theorem SlopeArrayWriter_slope_sign a d sc mn mx calc wr :
  wf_array a ->
  in_str (kind (dtype_of a)) "iu" = true ->
  in_str (kind (resolve_out_dtype a d)) "iu" = true ->
  finite_range_of a = Ok (NInt mn, NInt mx) ->
  sc <> F16 ->
  SlopeArrayWriter_init a d calc sc = Ok wr ->
  if calc && Ascii.eqb (kind (resolve_out_dtype a d)) "u" && (mn <? 0)
  then num_ltb (NFlt (slope wr)) (NInt 0) = true
  else num_gtb (NFlt (slope wr)) (NInt 0) = true.
Proof.
  intros Hwf Hk Ho Hr Hsc. unfold SlopeArrayWriter_init.
  destruct (elements_within_range a mn mx Hk Hr) as (Hle & Hall).
  assert (Hunsigned : forall w0, dtype_of a = UInt w0 -> 0 <= mn).
  { intros w0 Ea. destruct a as [w1 xs|w1 xs|f xs|c xs|n xs]; try discriminate Ea.
    cbn in Hr, Hwf. destruct xs as [|x r]; [discriminate|]. injection Hr as <- _.
    inversion Hwf; subst. apply fold_min_lower; [lia|].
    eapply Forall_impl; [|eassumption]. cbn beta. intros; lia. }
  destruct (can_cast (dtype_of a) (resolve_out_dtype a d)) eqn:Hcast.
  { rewrite (SlopeArrayWriter_init_as_plain a d) by
      (intros s Ha Hd; apply scaling_needed_can_cast; rewrite Ha, Hd; exact Hcast).
    intros H; injection H as <-.
    replace (calc && Ascii.eqb (kind (resolve_out_dtype a d)) "u" && (mn <? 0)) with false;
      [apply one_positive|].
    symmetry. destruct calc; [cbn [andb]|reflexivity].
    destruct (dtype_of a) as [w0|w0| | |] eqn:Ea; cbn in Hk; try discriminate;
      destruct (resolve_out_dtype a d) as [w1|w1| | |]; cbn in Ho; try discriminate;
      try reflexivity; try discriminate Hcast.
    cbn [kind Ascii.eqb Bool.eqb andb]. apply Z.ltb_ge. apply (Hunsigned w0 eq_refl). }
  destruct (iinfo_int_kind _ Ho) as (tmin & tmax & Hi).
  destruct (iinfo_bounds _ _ _ Hi) as (_ & Hb).
  destruct (int_kinds a Hk) as (Harr & Hf).
  assert (Htmin : Ascii.eqb (kind (resolve_out_dtype a d)) "u" = true -> tmin = 0).
  { destruct (resolve_out_dtype a d); cbn in Ho; try discriminate;
      cbn [kind Ascii.eqb Bool.eqb]; try discriminate.
    intros _. cbn [iinfo] in Hi. injection Hi as <- _. reflexivity. }
  destruct calc; cbn [andb].
  2:{ rewrite (SlopeArrayWriter_init_as_inited SlopeArrayWriter a d sc _ tmin tmax
                 Hr Hcast Harr Ho Hi).
      intros H; injection H as <-. apply one_positive. }
  rewrite (SlopeArrayWriter_init_as_ready SlopeArrayWriter a d sc _ tmin tmax
             Hr Hcast Harr Ho Hi).
  rewrite (needed_by_range_int a _ mn mx tmin tmax Hk Hb).
  destruct ((tmin <=? mn) && (mx <=? tmax)) eqn:Ein; cbn [negb].
  { (* the data fit as they are *)
    intros H; injection H as <-.
    replace (Ascii.eqb (kind (resolve_out_dtype a d)) "u" && (mn <? 0)) with false;
      [apply one_positive|].
    symmetry. destruct (Ascii.eqb _ "u") eqn:Eu; [cbn [andb]|reflexivity].
    apply andb_true_iff in Ein. rewrite !Z.leb_le in Ein.
    rewrite (Htmin eq_refl) in Ein. apply Z.ltb_ge. lia. }
  set (s := ready SlopeArrayWriter a d sc (NInt mn, NInt mx) true).
  destruct (shared_range_int_kind sc _ Ho) as (smin & smax & Hs).
  unfold exec. rewrite do_scaling_of_class. cbn [cls s ready inited with_scale_calced].
  rewrite (SlopeArrayWriter_do_scaling_int s (NInt mn) (NInt mx) smin smax eq_refl Hs
             Ho tmin tmax Hi Hf).
  rewrite !num_leb_int, num_geb_int. rewrite (andb_comm (mx <=? tmax)), Ein.
  change (_out_dtype s) with (resolve_out_dtype a d).
  destruct (Ascii.eqb (kind (resolve_out_dtype a d)) "u"
            && ((mx <=? 0) && num_leb (np_abs (dtype_of (_array s)) (NInt mn)) (NInt smax)))
    eqn:Eflip.
  - (* the sign flip *)
    intros H.
    assert (Hw : wr = with_slope s (to_scaler (scaler_dtype s) (py_float (-1))))
      by congruence.
    rewrite Hw. clear H Hw.
    apply andb_true_iff in Eflip. destruct Eflip as (Eu & Eflip).
    apply andb_true_iff in Eflip. destruct Eflip as (Emx & _).
    apply Z.leb_le in Emx. rewrite Eu. cbn [andb].
    apply andb_false_iff in Ein. rewrite !Z.leb_gt in Ein. rewrite (Htmin Eu) in Ein.
    replace (mn <? 0) with true by (symmetry; apply Z.ltb_lt; lia).
    rewrite to_scaler_minus_one. apply minus_one_negative.
  - (* the range computation *)
    rewrite range_scale_of_class. cbn [cls s ready inited with_scale_calced].
    destruct (SlopeArrayWriter_range_scale s) as [[[] w']|e] eqn:E; [|discriminate].
    intros H; injection H as <-.
    assert (Hout : (mx <=? tmax) && (tmin <=? mn) = false)
      by (rewrite andb_comm; exact Ein).
    exact (SlopeArrayWriter_range_scale_sign s mn mx tmin tmax eq_refl Hi Hsc Hout w' E).
Qed.

(** A run of X26: int16 values [-3000, -3] written as uint8. *)
Lemma SlopeArrayWriter_slope_sign_witness :
  exists wr,
    SlopeArrayWriter_init (IntArray W16 [-3000; -3]) (Some (UInt W8)) true F32 = Ok wr
    /\ num_ltb (NFlt (slope wr)) (NInt 0) = true.
Proof.
  eexists. split; [vm_compute; reflexivity|].
  apply (SlopeArrayWriter_slope_sign (IntArray W16 [-3000; -3]) (Some (UInt W8)) F32
           (-3000) (-3) true).
  - repeat constructor; cbn; lia.
  - reflexivity.
  - reflexivity.
  - reflexivity.
  - discriminate.
  - vm_compute. reflexivity.
Defined.

(** * One time properties *)

Section OneTimeFacts.
Context {value error : Type}.
Implicit Types (d obj : instdict value) (c : classdict value error)
  (cls : mro value error).

Lemma dict_get_set_same d k (v : value) : dict_get (dict_set d k v) k = Some v.
Proof.
  induction d as [|[k' v'] r IH]; cbn [dict_set dict_get].
  - rewrite String.eqb_refl. reflexivity.
  - destruct (String.eqb k k') eqn:E; cbn [dict_get]; rewrite E;
      [reflexivity|exact IH].
Qed.

Lemma dict_get_set_other d k k' (v : value) :
  k' <> k -> dict_get (dict_set d k v) k' = dict_get d k'.
Proof.
  intros Hk. apply String.eqb_neq in Hk.
  induction d as [|[k0 v0] r IH]; cbn [dict_set dict_get].
  - rewrite Hk. reflexivity.
  - destruct (String.eqb k k0) eqn:E; cbn [dict_get].
    + apply String.eqb_eq in E. subst k0. rewrite Hk. reflexivity.
    + rewrite IH. reflexivity.
Qed.

Lemma dict_get_filter (p : string -> bool) d k :
  dict_get (filter (fun kv => p (fst kv)) d) k
  = if p k then dict_get d k else None.
Proof.
  induction d as [|[k' v'] r IH]; cbn [filter dict_get fst].
  - destruct (p k); reflexivity.
  - destruct (p k') eqn:Ep; cbn [dict_get]; destruct (String.eqb k k') eqn:E;
      try exact IH.
    + apply String.eqb_eq in E. subst k'. rewrite Ep. reflexivity.
    + apply String.eqb_eq in E. subst k'. rewrite IH, Ep. reflexivity.
Qed.

Lemma filter_all {A} (p : A -> bool) (l : list A) :
  forallb p l = true -> filter p l = l.
Proof.
  induction l as [|x l IH]; cbn [forallb filter]; [reflexivity|].
  intros H. apply andb_true_iff in H. destruct H as [Hx Hl].
  rewrite Hx, (IH Hl). reflexivity.
Qed.

Lemma dict_del_absent d k : dict_get d k = None -> dict_del d k = d.
Proof.
  intros H. apply filter_all.
  induction d as [|[k' v'] r IH]; cbn [forallb fst]; [reflexivity|].
  cbn [dict_get] in H. destruct (String.eqb k k'); [discriminate|].
  cbn [negb andb]. apply IH, H.
Qed.

Lemma filter_filter {A} (p q : A -> bool) (l : list A) :
  filter q (filter p l) = filter (fun x => p x && q x) l.
Proof.
  induction l as [|x l IH]; cbn [filter]; [reflexivity|].
  destruct (p x); cbn [filter andb]; [destruct (q x)|]; rewrite IH; reflexivity.
Qed.

(** [reset] keeps, in their order, the attributes whose names the object's
    own class does not declare as one time properties. *)
Lemma reset_filter c (bases : mro value error) obj :
  reset (c :: bases) obj = filter (fun kv => negb (declares c (fst kv))) obj.
Proof.
  cbn [reset]. revert obj.
  induction c as [|[k m] r IH]; intros obj; cbn [fold_left].
  - symmetry. apply filter_all. apply forallb_forall. reflexivity.
  - rewrite IH. cbn [fst snd].
    assert (E : (if dict_in k obj && is_OneTimeProperty m then dict_del obj k else obj)
                = filter (fun kv => negb (String.eqb (fst kv) k && is_OneTimeProperty m))
                    obj).
    { destruct (is_OneTimeProperty m).
      - rewrite andb_true_r.
        assert (Hd : dict_del obj k
                     = filter (fun kv => negb (String.eqb (fst kv) k && true)) obj).
        { unfold dict_del. apply filter_ext. intros kv.
          rewrite andb_true_r, String.eqb_sym. reflexivity. }
        unfold dict_in. destruct (dict_get obj k) eqn:Eg; [exact Hd|].
        rewrite <- Hd. symmetry. apply dict_del_absent, Eg.
      - rewrite andb_false_r. symmetry. apply filter_all. apply forallb_forall.
        intros kv _. rewrite andb_false_r. reflexivity. }
    rewrite E, filter_filter. apply filter_ext. intros kv.
    unfold declares. cbn [existsb fst snd]. rewrite negb_orb. reflexivity.
Qed.

Lemma class_get_declares c k :
  match class_get c k with
  | Some (Descriptor _) => declares c k = true
  | Some (Attribute _) => True
  | None => declares c k = false
  end.
Proof.
  unfold declares.
  induction c as [|[k' m] r IH]; cbn [class_get existsb fst snd]; [reflexivity|].
  destruct (String.eqb k k') eqn:E.
  - destruct m; [reflexivity|exact I].
  - cbn [andb orb]. exact IH.
Qed.

Lemma reset_get c (bases : mro value error) obj k :
  dict_get (reset (c :: bases) obj) k
  = if declares c k then None else dict_get obj k.
Proof.
  rewrite reset_filter.
  rewrite (dict_get_filter (fun k0 => negb (declares c k0))).
  destruct (declares c k); reflexivity.
Qed.

(** X20: a one time property becomes a plain attribute when it is first
    read.  For a property made by [auto_attr] from a function of the same
    name, an access that returns [v] leaves [v] in the instance [__dict__]
    under that name; the next access returns [v] and changes nothing, and so
    does an access after any other attribute has been assigned, whatever the
    accessor function would now compute. *)
Theorem one_time_property_becomes_static cls (func : pyfunction value error)
    k obj v obj1 :
  mro_get cls k = Some (Descriptor (auto_attr func)) ->
  __name__ func = k ->
  getattr cls obj k = Returned v obj1 ->
  dict_get obj1 k = Some v
  /\ getattr cls obj1 k = Returned v obj1
  /\ (forall k' v', k' <> k ->
        getattr cls (dict_set obj1 k' v') k = Returned v (dict_set obj1 k' v')).
Proof.
  intros Hcls Hname Hget.
  assert (Hstored : dict_get obj1 k = Some v).
  { unfold getattr in Hget. destruct (dict_get obj k) as [v0|] eqn:E.
    - injection Hget as <- <-. exact E.
    - rewrite Hcls in Hget. unfold OneTimeProperty_get in Hget.
      cbn [auto_attr OneTimeProperty_init getter name] in Hget.
      destruct (call func obj) as [val obj'| |]; try discriminate.
      injection Hget as <- <-. rewrite Hname. apply dict_get_set_same. }
  split; [exact Hstored|]. split.
  - unfold getattr. rewrite Hstored. reflexivity.
  - intros k' v' Hk. unfold getattr.
    rewrite (dict_get_set_other _ _ _ _ (not_eq_sym Hk)), Hstored. reflexivity.
Qed.

(** X21: the value is stored under the [__name__] of the accessor function,
    not under the name the property has in the class.  Reading a property
    that is not yet in the instance [__dict__] calls the function, assigns
    its result to the attribute of the function's name and returns it; if
    the class holds the property under another name, that name is left as
    the function left it, so the property is computed again on each
    access. *)
Theorem one_time_property_is_stored_under_function_name cls
    (func : pyfunction value error) k obj v obj' :
  mro_get cls k = Some (Descriptor (auto_attr func)) ->
  dict_get obj k = None ->
  call func obj = Returned v obj' ->
  getattr cls obj k = Returned v (dict_set obj' (__name__ func) v)
  /\ dict_get (dict_set obj' (__name__ func) v) (__name__ func) = Some v
  /\ (__name__ func <> k ->
      dict_get (dict_set obj' (__name__ func) v) k = dict_get obj' k).
Proof.
  intros Hcls Hk Hcall. split; [|split].
  - unfold getattr. rewrite Hk, Hcls. unfold OneTimeProperty_get.
    cbn [auto_attr OneTimeProperty_init getter name]. rewrite Hcall. reflexivity.
  - apply dict_get_set_same.
  - intros Hne. apply dict_get_set_other. apply not_eq_sym, Hne.
Qed.

(** X22: [reset] removes from the instance [__dict__] exactly the attributes
    whose names the object's own class declares as one time properties, and
    leaves every other attribute, its value and the order of the attributes
    as they are. *)
Theorem reset_removes_declared_properties c (bases : mro value error) obj :
  reset (c :: bases) obj = filter (fun kv => negb (declares c (fst kv))) obj
  /\ forall k, dict_get (reset (c :: bases) obj) k
               = if declares c k then None else dict_get obj k.
Proof. split; [apply reset_filter|intros k; apply reset_get]. Qed.

(** X23: [reset] reads the [__dict__] of the object's own class only, so a
    one time property that the class inherits from a base class and does
    not declare itself is not reset: once it has fired, its value stays in
    the instance [__dict__] and is what an access after [reset] returns. *)
Theorem reset_skips_inherited_properties c (bases : mro value error) obj k p v :
  class_get c k = None ->
  mro_get bases k = Some (Descriptor p) ->
  dict_get obj k = Some v ->
  dict_get (reset (c :: bases) obj) k = Some v
  /\ getattr (c :: bases) (reset (c :: bases) obj) k
     = Returned v (reset (c :: bases) obj).
Proof.
  intros Hc Hb Hv.
  assert (Hkeep : dict_get (reset (c :: bases) obj) k = Some v).
  { rewrite reset_get. pose proof (class_get_declares c k) as Hd.
    rewrite Hc in Hd. rewrite Hd. exact Hv. }
  split; [exact Hkeep|]. unfold getattr. rewrite Hkeep. reflexivity.
Qed.

(** X24: after [reset], the first access to a one time property that the
    object's own class declares calls the accessor function again, on the
    object as [reset] left it, whether or not the property had fired
    before. *)
Theorem reset_then_access_recomputes c (bases : mro value error) obj k p :
  class_get c k = Some (Descriptor p) ->
  dict_get (reset (c :: bases) obj) k = None
  /\ getattr (c :: bases) (reset (c :: bases) obj) k
     = OneTimeProperty_get p (reset (c :: bases) obj).
Proof.
  intros Hc.
  assert (Hgone : dict_get (reset (c :: bases) obj) k = None).
  { rewrite reset_get. pose proof (class_get_declares c k) as Hd.
    rewrite Hc in Hd. rewrite Hd. reflexivity. }
  split; [exact Hgone|]. unfold getattr. rewrite Hgone.
  cbn [mro_get]. rewrite Hc. reflexivity.
Qed.

(** X25: [reset] is idempotent, and on an object none of whose one time
    properties has fired it changes nothing. *)
Theorem reset_is_idempotent cls obj :
  reset cls (reset cls obj) = reset cls obj
  /\ ((forall c bases k, cls = c :: bases -> declares c k = true ->
                         dict_get obj k = None) ->
      reset cls obj = obj).
Proof.
  destruct cls as [|c bases]; [split; reflexivity|].
  rewrite !reset_filter. split.
  - rewrite filter_filter. apply filter_ext. intros kv.
    destruct (declares c (fst kv)); reflexivity.
  - intros H. apply filter_all. apply forallb_forall. intros [k v] Hin.
    cbn [fst]. destruct (declares c k) eqn:Ed; [|reflexivity].
    exfalso. specialize (H c bases k eq_refl Ed).
    clear - H Hin. induction obj as [|[k' v'] r IH]; [contradiction|].
    cbn [dict_get] in H. destruct (String.eqb k k') eqn:E; [discriminate|].
    destruct Hin as [Heq|Hin]; [|exact (IH H Hin)].
    injection Heq as -> _. rewrite String.eqb_refl in E. discriminate.
Qed.
End OneTimeFacts.

(** The session of the docstring of [ResetMixin], with [y = x / 2] on
    integers: the first access computes 5 from [x = 10]; after [x = 20] the
    value is still 5; after [reset] the next access computes 10. *)
Example ResetMixin_doc :
  let a := [("x"%string, 10)] in
  exists a1,
    getattr class_A a "y" = Returned 5 a1
    /\ getattr class_A a1 "y" = Returned 5 a1
    /\ getattr class_A (dict_set a1 "x" 20) "y" = Returned 5 (dict_set a1 "x" 20)
    /\ exists a2,
         getattr class_A (reset class_A (dict_set a1 "x" 20)) "y" = Returned 10 a2
         /\ getattr class_A a2 "y" = Returned 10 a2.
Proof.
  eexists. split; [reflexivity|]. split; [reflexivity|]. split; [reflexivity|].
  eexists. split; reflexivity.
Qed.

(** A run of X20 on the class of the docstring. *)
Lemma one_time_property_becomes_static_witness :
  dict_get [("x"%string, 10); ("y"%string, 5)] "y" = Some 5
  /\ getattr class_A [("x"%string, 10); ("y"%string, 5)] "y"
     = Returned 5 [("x"%string, 10); ("y"%string, 5)]
  /\ (forall k' v', k' <> "y"%string ->
        getattr class_A (dict_set [("x"%string, 10); ("y"%string, 5)] k' v') "y"
        = Returned 5 (dict_set [("x"%string, 10); ("y"%string, 5)] k' v')).
Proof.
  apply (one_time_property_becomes_static class_A A_y "y" [("x"%string, 10)] 5
           [("x"%string, 10); ("y"%string, 5)]); reflexivity.
Defined.

(** A run of X21: the function [y] stored in a class under the name [z]. *)
Lemma one_time_property_is_stored_under_function_name_witness :
  getattr [[("z"%string, Descriptor (auto_attr A_y))]] [("x"%string, 10)] "z"
  = Returned 5 (dict_set [("x"%string, 10)] (__name__ A_y) 5)
  /\ dict_get (dict_set [("x"%string, 10)] (__name__ A_y) 5) (__name__ A_y) = Some 5
  /\ (__name__ A_y <> "z"%string ->
      dict_get (dict_set [("x"%string, 10)] (__name__ A_y) 5) "z"
      = dict_get [("x"%string, 10)] "z").
Proof.
  apply (one_time_property_is_stored_under_function_name
           [[("z"%string, Descriptor (auto_attr A_y))]] A_y "z" [("x"%string, 10)] 5
           [("x"%string, 10)]); reflexivity.
Defined.

(** A run of X23: a subclass of [A] that declares nothing. *)
Lemma reset_skips_inherited_properties_witness :
  dict_get (reset ([] :: class_A) [("x"%string, 20); ("y"%string, 5)]) "y" = Some 5
  /\ getattr ([] :: class_A) (reset ([] :: class_A) [("x"%string, 20); ("y"%string, 5)]) "y"
     = Returned 5 (reset ([] :: class_A) [("x"%string, 20); ("y"%string, 5)]).
Proof.
  apply (reset_skips_inherited_properties [] class_A
           [("x"%string, 20); ("y"%string, 5)] "y" (auto_attr A_y) 5); reflexivity.
Defined.

(** A run of X24 on the class of the docstring. *)
Lemma reset_then_access_recomputes_witness :
  dict_get (reset class_A [("x"%string, 20); ("y"%string, 5)]) "y" = None
  /\ getattr class_A (reset class_A [("x"%string, 20); ("y"%string, 5)]) "y"
     = OneTimeProperty_get (auto_attr A_y)
         (reset class_A [("x"%string, 20); ("y"%string, 5)]).
Proof.
  apply (reset_then_access_recomputes [("y"%string, Descriptor (auto_attr A_y))] []
           [("x"%string, 20); ("y"%string, 5)] "y" (auto_attr A_y)).
  reflexivity.
Defined.
